(** * Accuracy metrics of the Titanic notebooks: [calculate_accuracy]

    The notebooks share one helper, [calculate_accuracy observed predicted],
    which turns two label arrays into a dictionary of eighteen scores.  This
    file embeds that helper: NumPy's element-wise comparisons and [&] on
    one-dimensional arrays, [np.sum] on boolean arrays (an int64 count),
    [np.mean] on boolean arrays (a float64 accumulation divided by the
    length), int64 true division, and float64 arithmetic.

    float64 values are IEEE 754 binary64 numbers, taken from the standard
    library's [SpecFloat] (round to nearest, ties to even, with signed zeros,
    infinities and NaN), so that roundings, NaN and infinity are the ones
    the Python code produces.  Float literals ([0.6], [2 / 3], [1]) are
    primitive floats read through [Prim2SF]. *)

From Stdlib Require Import ZArith Floats Reals Lia Lra.
From Stdlib Require Import Sorted.
From stdpp Require Import gmap strings list.

Set Warnings "-inexact-float".
Local Open Scope Z_scope.

(** ** float64 *)

Abbreviation float64 := spec_float.

Declare Scope f64_scope.
Delimit Scope f64_scope with f64.
Bind Scope f64_scope with spec_float.

Infix "+" := SF64add : f64_scope.
Infix "-" := SF64sub : f64_scope.
Infix "*" := SF64mul : f64_scope.
Infix "/" := SF64div : f64_scope.

(** Conversion of an integer to float64 (round to nearest even); it is what
    NumPy applies to both operands of an int64 true division and to a Python
    [int] that meets a float64. *)
Definition of_int (z : Z) : float64 := binary_normalize prec emax z 0 false.

Definition is_nan (x : float64) : bool :=
  match x with S754_nan => true | _ => false end.

Definition is_inf (x : float64) : bool :=
  match x with S754_infinity _ => true | _ => false end.

Definition is_zero (x : float64) : bool :=
  match x with S754_zero _ => true | _ => false end.

Definition is_finite (x : float64) : bool :=
  match x with S754_zero _ | S754_finite _ _ _ => true | _ => false end.

Definition nan_or_inf (x : float64) : bool := is_nan x || is_inf x.

(** Python's [x <= y] and [x < y] on floats (false on NaN). *)
Definition fle (x y : float64) : bool := SFleb x y.
Definition flt (x y : float64) : bool := SFltb x y.

(** Python's [0 <= x <= 1]. *)
Definition in_unit_interval (x : float64) : bool :=
  fle (Prim2SF 0) x && fle x (Prim2SF 1).

(** ** int64 *)

Definition wrap64 (z : Z) : Z := (z + 2^63) mod 2^64 - 2^63.

Definition int64_add (a b : Z) : Z := wrap64 (a + b).

(** [a / b] on two [np.int64]: both are converted to float64, then divided.
    A zero divisor gives NaN or an infinity (with a warning), no exception. *)
Definition true_divide (a b : Z) : float64 := (of_int a / of_int b)%f64.

(** ** One-dimensional arrays

    An array is the list of its entries; [calculate_accuracy] first turns a
    Python list into an array, so both kinds of input are lists here. *)

(** [a == k] for an integer array and a Python int. *)
Definition eq_scalar (a : list Z) (k : Z) : list bool :=
  (λ x, x =? k) <$> a.

(** [m == k] for a boolean array and a Python int: [True] is 1, [False] 0. *)
Definition mask_eq_scalar (m : list bool) (k : Z) : list bool :=
  (λ b, Z.b2z b =? k) <$> m.

(** NumPy broadcasting of a binary element-wise operation on one-dimensional
    operands: equal lengths pair up, a length-one operand is stretched, and
    any other pair of shapes raises [ValueError] (here [None]). *)
Definition broadcast2 {A B C} (f : A → B → C) (a : list A) (b : list B)
  : option (list C) :=
  if decide (length a = length b) then Some (zip_with f a b)
  else match a, b with
       | [x], _ => Some (f x <$> b)
       | _, [y] => Some ((λ x, f x y) <$> a)
       | _, _ => None
       end.

(** [m1 & m2] on boolean arrays. *)
Definition mask_and : list bool → list bool → option (list bool) :=
  broadcast2 andb.

(** [a == b] on integer arrays. *)
Definition array_eq : list Z → list Z → option (list bool) :=
  broadcast2 Z.eqb.

(** [np.sum] of a boolean array: the int64 number of [True] entries. *)
Definition np_sum (m : list bool) : Z :=
  foldl (λ acc b, int64_add acc (Z.b2z b)) 0 m.

(** [np.mean] of a boolean array: the entries are added as float64 (0.0 and
    1.0) and the total is divided by the number of entries.  NumPy adds
    pairwise rather than left to right; the terms being 0.0 and 1.0, every
    partial sum of an array shorter than 2^53 is an integer below 2^53 and
    thus exact in either order (see [float_sum_count]). *)
Definition float_sum (m : list bool) : float64 :=
  foldl (λ acc b, (acc + of_int (Z.b2z b))%f64) (of_int 0) m.

Definition np_mean (m : list bool) : float64 :=
  (float_sum m / of_int (Z.of_nat (length m)))%f64.

(** ** The helper itself *)

Definition calculate_accuracy (observed predicted : list Z)
  : option (gmap string float64) :=
  let observed_positives := eq_scalar observed 1 in
  let observed_negatives := eq_scalar observed 0 in
  let predicted_positives := eq_scalar predicted 1 in
  let predicted_negatives := eq_scalar predicted 0 in
  true_positives ←
    mask_and (mask_eq_scalar predicted_positives 1)
             (mask_eq_scalar observed_positives 1);
  false_positives ←
    mask_and (mask_eq_scalar predicted_positives 1)
             (mask_eq_scalar observed_positives 0);
  true_negatives ←
    mask_and (mask_eq_scalar predicted_negatives 1)
             (mask_eq_scalar observed_negatives 1);
  agreement ← array_eq predicted observed;
  let accuracy := np_mean agreement in
  let precision :=
    true_divide (np_sum true_positives)
                (int64_add (np_sum true_positives) (np_sum false_positives)) in
  let recall := true_divide (np_sum true_positives) (np_sum observed_positives) in
  let sensitivity := recall in
  let f1 := (of_int 2 * ((precision * recall) / (precision + recall)))%f64 in
  let specificity :=
    true_divide (np_sum true_negatives) (np_sum observed_negatives) in
  let positive_likelihood := (sensitivity / (of_int 1 - specificity))%f64 in
  let negative_likelihood := ((of_int 1 - sensitivity) / specificity)%f64 in
  let false_positive_rate := (of_int 1 - specificity)%f64 in
  let false_negative_rate := (of_int 1 - sensitivity)%f64 in
  let true_positive_rate := sensitivity in
  let true_negative_rate := specificity in
  let positive_predictive_value :=
    true_divide (np_sum true_positives) (np_sum observed_positives) in
  let negative_predictive_value :=
    true_divide (np_sum true_negatives) (np_sum observed_positives) in
  let results : gmap string float64 := ∅ in
  let results := <["observed_positive_rate" := np_mean observed_positives]> results in
  let results := <["observed_negative_rate" := np_mean observed_negatives]> results in
  let results := <["predicted_positive_rate" := np_mean predicted_positives]> results in
  let results := <["predicted_negative_rate" := np_mean predicted_negatives]> results in
  let results := <["accuracy" := accuracy]> results in
  let results := <["precision" := precision]> results in
  let results := <["recall" := recall]> results in
  let results := <["f1" := f1]> results in
  let results := <["sensitivity" := sensitivity]> results in
  let results := <["specificity" := specificity]> results in
  let results := <["positive_likelihood" := positive_likelihood]> results in
  let results := <["negative_likelihood" := negative_likelihood]> results in
  let results := <["false_positive_rate" := false_positive_rate]> results in
  let results := <["false_negative_rate" := false_negative_rate]> results in
  let results := <["true_positive_rate" := true_positive_rate]> results in
  let results := <["true_negative_rate" := true_negative_rate]> results in
  let results := <["positive_predictive_value" := positive_predictive_value]> results in
  let results := <["negative_predictive_value" := negative_predictive_value]> results in
  Some results.

(** The score stored under [key]; [None] when the call raised or the key is
    absent. *)
Definition score (key : string) (observed predicted : list Z) : option float64 :=
  results ← calculate_accuracy observed predicted; results !! key.

(** The eighteen keys of the returned dictionary. *)
Definition result_keys : list string :=
  [ "observed_positive_rate"; "observed_negative_rate";
    "predicted_positive_rate"; "predicted_negative_rate";
    "accuracy"; "precision"; "recall"; "f1"; "sensitivity"; "specificity";
    "positive_likelihood"; "negative_likelihood";
    "false_positive_rate"; "false_negative_rate";
    "true_positive_rate"; "true_negative_rate";
    "positive_predictive_value"; "negative_predictive_value" ].

(** ** The local variables of [calculate_accuracy] on equal-length inputs

    With equal lengths no operation broadcasts or raises, and the masks and
    scores of the body are these. *)

Definition true_positives (observed predicted : list Z) : list bool :=
  zip_with andb (mask_eq_scalar (eq_scalar predicted 1) 1)
                (mask_eq_scalar (eq_scalar observed 1) 1).

Definition false_positives (observed predicted : list Z) : list bool :=
  zip_with andb (mask_eq_scalar (eq_scalar predicted 1) 1)
                (mask_eq_scalar (eq_scalar observed 1) 0).

Definition true_negatives (observed predicted : list Z) : list bool :=
  zip_with andb (mask_eq_scalar (eq_scalar predicted 0) 1)
                (mask_eq_scalar (eq_scalar observed 0) 1).

Definition agreement (observed predicted : list Z) : list bool :=
  zip_with Z.eqb predicted observed.

Definition precision (observed predicted : list Z) : float64 :=
  true_divide (np_sum (true_positives observed predicted))
    (int64_add (np_sum (true_positives observed predicted))
               (np_sum (false_positives observed predicted))).

Definition recall (observed predicted : list Z) : float64 :=
  true_divide (np_sum (true_positives observed predicted))
              (np_sum (eq_scalar observed 1)).

Definition specificity (observed predicted : list Z) : float64 :=
  true_divide (np_sum (true_negatives observed predicted))
              (np_sum (eq_scalar observed 0)).

Definition f1 (observed predicted : list Z) : float64 :=
  (of_int 2 * ((precision observed predicted * recall observed predicted)
               / (precision observed predicted + recall observed predicted)))%f64.

(** ** Inputs and counts over the pairs

    The counts are taken over the pairs (observed, predicted) directly, not
    through the masks of the code. *)

(** Labels are 0 or 1. *)
Definition binary (a : list Z) : Prop := Forall (λ x, x = 0 ∨ x = 1) a.

(** The element-wise logical complement of a 0/1 array. *)
Definition complement (a : list Z) : list Z := (λ x, 1 - x) <$> a.

Definition count_true (m : list bool) : Z :=
  foldr (λ b n, Z.b2z b + n) 0 m.

(** The number of positions where observed is [o] and predicted is [p]. *)
Definition count_pairs (o p : Z) (observed predicted : list Z) : Z :=
  count_true (zip_with (λ x y, (x =? o) && (y =? p)) observed predicted).

Definition TP := count_pairs 1 1.
Definition FP := count_pairs 0 1.
Definition TN := count_pairs 0 0.
Definition FN := count_pairs 1 0.

(** ** The defining equations of the specification

    The formulas of the specification's contract, read as float64
    expressions over the four pair counts (each quotient of counts is an
    int64 true division; [2*precision*recall/(precision+recall)] is evaluated
    left to right, as Python would). *)
Module Spec.
Section Counts.
Variables tp fp tn fn : Z.

Definition accuracy : float64 := true_divide (tp + tn) (tp + fp + tn + fn).
Definition precision : float64 := true_divide tp (tp + fp).
Definition recall : float64 := true_divide tp (tp + fn).
Definition f1 : float64 :=
  (of_int 2 * precision * recall / (precision + recall))%f64.
Definition specificity : float64 := true_divide tn (tn + fp).
Definition positive_likelihood : float64 :=
  (recall / (of_int 1 - specificity))%f64.
Definition negative_likelihood : float64 :=
  ((of_int 1 - recall) / specificity)%f64.
Definition false_positive_rate : float64 := (of_int 1 - specificity)%f64.
Definition false_negative_rate : float64 := (of_int 1 - recall)%f64.
End Counts.
End Spec.

(** * Rounding: definitions *)

(** The integer nearest to [N / D], ties to even. *)
Definition rnd (N D : Z) : Z :=
  let q := N / D in
  match 2 * (N mod D) ?= D with
  | Lt => q
  | Eq => if Z.even q then q else q + 1
  | Gt => q + 1
  end.

(** Where [N / D] lies between its floor and the next integer. *)
Definition loc_of (N D : Z) : location :=
  if N mod D =? 0 then loc_Exact else loc_Inexact (2 * (N mod D) ?= D).

(** The floor of [N / D] with that location, as [SpecFloat] carries it. *)
Definition rec_of (N D : Z) : shr_record :=
  shr_record_of_loc (N / D) (loc_of N D).

(** The float of mantissa [m] in [2^52, 2^53] and exponent [e]: a mantissa
    of 2^53 (a rounding that carried) moves to the next exponent, and an
    exponent above 971 overflows. *)
Definition norm (s : bool) (m e : Z) : spec_float :=
  let m' := if m =? 2 ^ 53 then 2 ^ 52 else m in
  let e' := if m =? 2 ^ 53 then e + 1 else e in
  if e' <=? 971 then S754_finite s (Z.to_pos m') e' else S754_infinity s.

(** 2^e as a real. *)
Definition bpow (e : Z) : R := powerRZ 2 e.

(** The real value of a finite float. *)
Definition F2R (x : spec_float) : R :=
  match x with
  | S754_finite s m e => ((if s then -1 else 1) * IZR (Z.pos m) * bpow e)%R
  | _ => 0%R
  end.

Definition expo (x : spec_float) : Z :=
  match x with S754_finite _ _ e => e | _ => 0 end.

(** Positive normal floats: a 53-digit mantissa. *)
Definition normal (x : spec_float) : Prop :=
  match x with
  | S754_finite false m e => 2 ^ 52 <= Z.pos m < 2 ^ 53 /\ -1074 <= e <= 971
  | _ => False
  end.

(** [RND v x]: the float [x] is the rounding to nearest even of the positive
    real [v], which lies in the normal range. *)
Definition RND (v : R) (x : spec_float) : Prop :=
  exists N D e,
    0 < D /\ 2 ^ 52 * D <= N < 2 ^ 53 * D /\ -1074 <= e <= 970 /\
    v = (IZR N / IZR D * bpow e)%R /\ x = norm false (rnd N D) e.

(** The float 2^k. *)
Definition pow2f (k : Z) : spec_float := S754_finite false (Z.to_pos (2 ^ 52)) (k - 52).

(** [x] with its exponent raised by one: twice [x]. *)
Definition double (x : spec_float) : spec_float :=
  match x with S754_finite s m e => S754_finite s m (e + 1) | _ => x end.

(** ** Quotients of counts *)

(** A float that is +0.0 or a positive normal number at most 1: what a
    quotient of counts [a / b] with [0 <= a <= b], [0 < b] rounds to. *)
Definition unit_float (x : float64) : Prop :=
  x = S754_zero false \/ (normal x /\ (bpow (-53) <= F2R x <= 1)%R).

(** ** The threshold sweep of the ROC notebook

    For each cutoff the notebook turns the predicted probabilities of
    survival into predictions with [probability_survival >= cutoff], calls
    [calculate_accuracy] on them and appends some of the returned scores to
    one list per score. *)

(** [a >= c] for a float64 array and a float64 scalar (false on NaN). *)
Definition ge_scalar (a : list float64) (c : float64) : list bool :=
  (λ p, fle c p) <$> a.

(** The boolean array [predicted_survived]; [calculate_accuracy] compares it
    with the integers 1 and 0 and with the observed labels, where [True]
    counts as 1 and [False] as 0. *)
Definition predicted_survived (probability_survival : list float64)
    (cutoff : float64) : list Z :=
  Z.b2z <$> ge_scalar probability_survival cutoff.

(** The dictionaries of the inner loop, one per cutoff; a call that raises
    ends the loop. *)
Definition threshold_loop (y_test : list Z) (probability_survival : list float64)
    (thresholds : list float64) : option (list (gmap string float64)) :=
  mapM (λ cutoff,
          calculate_accuracy y_test (predicted_survived probability_survival cutoff))
       thresholds.

(** The list built by appending [accuracy[key]] at every cutoff. *)
Definition threshold_column (key : string) (y_test : list Z)
    (probability_survival thresholds : list float64) : option (list float64) :=
  results ← threshold_loop y_test probability_survival thresholds;
  mapM (λ accuracy : gmap string float64, accuracy !! key) results.

(** Consecutive entries ordered by [<=], upwards and downwards. *)
Definition ascending (l : list float64) : Prop :=
  forall (i : nat) (x y : float64),
    l !! i = Some x -> l !! S i = Some y -> fle x y = true.

Definition descending (l : list float64) : Prop :=
  forall (i : nat) (x y : float64),
    l !! i = Some x -> l !! S i = Some y -> fle y x = true.

(** ** Resampling a class: [reduce_majority_class] and [increase_majority]

    Both functions pick a class of [y] by its frequency, draw
    [maj_sample_size] rows of that class with replacement, keep every row of
    the other classes and shuffle.  [X] is the list of its rows, [y] the
    list of labels.  The two random draws are parameters: [choice a size]
    stands for the outcome of [np.random.choice(a, size, replace=True)] and
    [permutation n] for that of [np.random.permutation(n)]; what NumPy
    guarantees of them is [rng_ok]. *)

(** [np.unique(y)]: the distinct values of [y] in ascending order. *)
Fixpoint insert_unique (x : Z) (l : list Z) : list Z :=
  match l with
  | [] => [x]
  | v :: l' =>
      if x <? v then x :: l
      else if x =? v then l
      else v :: insert_unique x l'
  end.

Definition np_unique (y : list Z) : list Z := foldr insert_unique [] y.

(** [np.unique(y, return_counts=True)]: with the number of times each value
    occurs (an array length, so no int64 overflow). *)
Definition np_unique_counts (y : list Z) : list Z * list Z :=
  let unique_elements := np_unique y in
  (unique_elements, (λ v, count_true (eq_scalar y v)) <$> unique_elements).

(** [a.argmax()] and [a.argmin()]: the first index of the largest (smallest)
    entry; an empty array raises [ValueError]. *)
Fixpoint argmax_from (best_index : nat) (best : Z) (i : nat) (a : list Z) : nat :=
  match a with
  | [] => best_index
  | x :: a' =>
      if best <? x then argmax_from i x (S i) a'
      else argmax_from best_index best (S i) a'
  end.

Definition argmax (a : list Z) : option nat :=
  match a with [] => None | x :: a' => Some (argmax_from 0 x 1 a') end.

Fixpoint argmin_from (best_index : nat) (best : Z) (i : nat) (a : list Z) : nat :=
  match a with
  | [] => best_index
  | x :: a' =>
      if x <? best then argmin_from i x (S i) a'
      else argmin_from best_index best (S i) a'
  end.

Definition argmin (a : list Z) : option nat :=
  match a with [] => None | x :: a' => Some (argmin_from 0 x 1 a') end.

(** [a != k] for an integer array and an integer. *)
Definition ne_scalar (a : list Z) (k : Z) : list bool :=
  (λ x, negb (x =? k)) <$> a.

(** [np.where(m)[0]]: the indices at which the boolean array holds [True]. *)
Fixpoint where_from (i : nat) (m : list bool) : list nat :=
  match m with
  | [] => []
  | b :: m' => if b then i :: where_from (S i) m' else where_from (S i) m'
  end.

Definition np_where (m : list bool) : list nat := where_from 0 m.

(** [a[index]] (and [X[index, :]]) for an array of indices: an index past
    the end raises [IndexError]. *)
Definition take_rows {A} (a : list A) (index : list nat) : option (list A) :=
  mapM (λ i, a !! i) index.

(** What NumPy guarantees of the two draws: [choice] returns [size] entries
    of a non-empty population, [permutation n] a rearrangement of
    [0, ..., n-1]. *)
Definition rng_ok (choice : list nat → nat → list nat)
    (permutation : nat → list nat) : Prop :=
  (forall a size, a ≠ [] ->
     length (choice a size) = size /\ Forall (λ i, i ∈ a) (choice a size)) /\
  (forall n, permutation n ≡ₚ seq 0 n).

Definition reduce_majority_class {A}
    (choice : list nat → nat → list nat) (permutation : nat → list nat)
    (X : list A) (y : list Z) (maj_sample_size : Z) : option (list A * list Z) :=
  let '(unique_elements, counts_elements) := np_unique_counts y in
  index_max ← argmax counts_elements;
  majority_class ← unique_elements !! index_max;
  let majority_index := np_where (eq_scalar y majority_class) in
  let minority_index := np_where (ne_scalar y majority_class) in
  (* a negative size raises, and so does an empty population unless no
     sample is asked for *)
  if (maj_sample_size <? 0)
     || (bool_decide (majority_index = []) && negb (maj_sample_size =? 0))
  then None else
  let restricted_sample_index :=
    choice majority_index (Z.to_nat maj_sample_size) in
  X_majority_restricted ← take_rows X restricted_sample_index;
  y_majority_restricted ← take_rows y restricted_sample_index;
  X_minority ← take_rows X minority_index;
  y_minority ← take_rows y minority_index;
  let X_new := X_majority_restricted ++ X_minority in
  let y_new := y_majority_restricted ++ y_minority in
  let count_rows := length X_new in
  let random_index := permutation count_rows in
  X_new' ← take_rows X_new random_index;
  y_new' ← take_rows y_new random_index;
  Some (X_new', y_new').

Definition increase_majority {A}
    (choice : list nat → nat → list nat) (permutation : nat → list nat)
    (X : list A) (y : list Z) (maj_sample_size : Z) : option (list A * list Z) :=
  let '(unique_elements, counts_elements) := np_unique_counts y in
  index_max ← argmin counts_elements;
  minority_class ← unique_elements !! index_max;
  let minority_index := np_where (eq_scalar y minority_class) in
  let majority_index := np_where (ne_scalar y minority_class) in
  if (maj_sample_size <? 0)
     || (bool_decide (minority_index = []) && negb (maj_sample_size =? 0))
  then None else
  let enhanced_sample_index :=
    choice minority_index (Z.to_nat maj_sample_size) in
  X_minority_enhanced ← take_rows X enhanced_sample_index;
  y_minority_enhanced ← take_rows y enhanced_sample_index;
  X_majority ← take_rows X majority_index;
  y_majority ← take_rows y majority_index;
  let X_new := X_minority_enhanced ++ X_majority in
  let y_new := y_minority_enhanced ++ y_majority in
  let count_rows := length X_new in
  let random_index := permutation count_rows in
  X_new' ← take_rows X_new random_index;
  y_new' ← take_rows y_new random_index;
  Some (X_new', y_new').

(** The class each function resamples, as it computes it. *)
Definition majority_class (y : list Z) : option Z :=
  let '(unique_elements, counts_elements) := np_unique_counts y in
  index_max ← argmax counts_elements; unique_elements !! index_max.

Definition minority_class (y : list Z) : option Z :=
  let '(unique_elements, counts_elements) := np_unique_counts y in
  index_max ← argmin counts_elements; unique_elements !! index_max.

(** The common body of the two functions once the class is chosen. *)
Definition resample_class {A}
    (choice : list nat → nat → list nat) (permutation : nat → list nat)
    (X : list A) (y : list Z) (class : Z) (maj_sample_size : Z)
  : option (list A * list Z) :=
  let class_index := np_where (eq_scalar y class) in
  let other_index := np_where (ne_scalar y class) in
  if (maj_sample_size <? 0)
     || (bool_decide (class_index = []) && negb (maj_sample_size =? 0))
  then None else
  let sample_index := choice class_index (Z.to_nat maj_sample_size) in
  X_class ← take_rows X sample_index;
  y_class ← take_rows y sample_index;
  X_other ← take_rows X other_index;
  y_other ← take_rows y other_index;
  let X_new := X_class ++ X_other in
  let y_new := y_class ++ y_other in
  let random_index := permutation (length X_new) in
  X_new' ← take_rows X_new random_index;
  y_new' ← take_rows y_new random_index;
  Some (X_new', y_new').

(** The number of entries of [y] equal to [v]. *)
Definition count_label (y : list Z) (v : Z) : Z := count_true (eq_scalar y v).

(** One possible behaviour of the two draws: [choice] always draws the first
    entry of the population, [permutation] reverses the order. *)
Definition choice_first (a : list nat) (size : nat) : list nat :=
  replicate size (default 0%nat (head a)).

Definition permutation_reverse (n : nat) : list nat := reverse (seq 0 n).

(** ** Means over the folds

    The notebooks average each score over the k-fold replicates with
    [np.mean] (or [.mean(axis=1)]).  NumPy does not add the entries of a
    float64 array from left to right in general, so a sum is taken here in
    an arbitrary order of additions: [summation] is a way of adding the
    [terms], [total] its float64 result. *)
Inductive summation : Type :=
  | Term (x : float64)
  | Plus (l r : summation).

Fixpoint terms (t : summation) : list float64 :=
  match t with
  | Term x => [x]
  | Plus l r => terms l ++ terms r
  end.

Fixpoint total (t : summation) : float64 :=
  match t with
  | Term x => x
  | Plus l r => (total l + total r)%f64
  end.

(** The mean: the total divided by the number of entries. *)
Definition mean_in_order (t : summation) : float64 :=
  (total t / of_int (Z.of_nat (length (terms t))))%f64.

(** * Rounding: the float64 operations round their exact result *)

(** ** Binary digits *)

Lemma digits2_pos_bounds (p : positive) :
  2 ^ (Z.pos (digits2_pos p) - 1) <= Z.pos p < 2 ^ Z.pos (digits2_pos p).
Proof.
  induction p as [p IH|p IH|]; simpl digits2_pos.
  - rewrite Pos2Z.inj_succ. replace (Z.succ (Z.pos (digits2_pos p)) - 1) with (Z.pos (digits2_pos p) - 1 + 1) by lia.
    rewrite Z.pow_succ_r by lia. rewrite Z.pow_add_r by lia. lia.
  - rewrite Pos2Z.inj_succ. replace (Z.succ (Z.pos (digits2_pos p)) - 1) with (Z.pos (digits2_pos p) - 1 + 1) by lia.
    rewrite Z.pow_succ_r by lia. rewrite Z.pow_add_r by lia. lia.
  - simpl. lia.
Qed.

Lemma pow2_lt_inv (a b : Z) : 0 <= b -> 2 ^ a < 2 ^ b -> a < b.
Proof. intros Hb H. apply (Z.pow_lt_mono_r_iff 2); lia. Qed.

Lemma Zdigits2_unique (n d : Z) :
  0 < d -> 2 ^ (d - 1) <= n < 2 ^ d -> Zdigits2 n = d.
Proof.
  intros Hd [Hlo Hhi].
  assert (0 < n) by (pose proof (Z.pow_pos_nonneg 2 (d - 1)); lia).
  destruct n as [|p|p]; try lia. simpl.
  pose proof (digits2_pos_bounds p) as [Hl Hh].
  set (d' := Z.pos (digits2_pos p)) in *.
  assert (d' - 1 < d) by (apply pow2_lt_inv; lia).
  assert (d - 1 < d') by (apply pow2_lt_inv; lia).
  lia.
Qed.

(** ** Truncation with a location

    [rec_of N D] is the truncated quotient [N / D] together with the position
    of the remainder (exact, below, at or above the midpoint); shifting it
    right by [k] bits gives [rec_of N (D * 2^k)], and rounding it to nearest
    even gives [rnd N D]. *)

Lemma new_location_loc_of (N D : Z) :
  0 < D -> new_location D (N mod D) = loc_of N D.
Proof.
  intros HD. unfold new_location, loc_of, new_location_even, new_location_odd.
  pose proof (Z.mod_pos_bound N D HD) as Hr.
  destruct (Z.even D) eqn:Hev; [reflexivity|].
  destruct (N mod D =? 0); [reflexivity|]. f_equal.
  assert (Hodd : Z.odd D = true) by (rewrite <- Z.negb_even, Hev; reflexivity).
  apply Z.odd_spec in Hodd as [c Hc].
  destruct (Z.compare_spec (2 * (N mod D) + 1) D), (Z.compare_spec (2 * (N mod D)) D); try reflexivity; lia.
Qed.

Lemma round_rec_of (N D : Z) :
  0 < D ->
  round_nearest_even (shr_m (rec_of N D)) (loc_of_shr_record (rec_of N D)) = rnd N D.
Proof.
  intros HD. unfold rec_of, loc_of, rnd.
  pose proof (Z.mod_pos_bound N D HD) as Hr.
  destruct (Z.eqb_spec (N mod D) 0) as [E|E].
  - rewrite E. cbn [shr_record_of_loc shr_m loc_of_shr_record round_nearest_even].
    destruct (Z.compare_spec (2 * 0) D); lia.
  - destruct (2 * (N mod D) ?= D); reflexivity.
Qed.

Lemma shr_m_rec_of (N D : Z) : shr_m (rec_of N D) = N / D.
Proof. unfold rec_of. destruct (loc_of N D) as [|[]]; reflexivity. Qed.

Lemma shr_1_nonneg (m : Z) (r s : bool) :
  0 <= m ->
  shr_1 {| shr_m := m; shr_r := r; shr_s := s |}
  = {| shr_m := m / 2; shr_r := Z.odd m; shr_s := r || s |}.
Proof.
  intros Hm. rewrite <- Z.div2_div.
  destruct m as [|[p|p|]|]; try lia; reflexivity.
Qed.

Lemma shr_1_rec_of (N D : Z) :
  0 <= N -> 0 < D -> shr_1 (rec_of N D) = rec_of N (D * 2).
Proof.
  intros HN HD. unfold rec_of at 2, loc_of.
  rewrite Z.rem_mul_r by lia. rewrite <- Z.div_div by lia.
  assert (Hm : 0 <= N / D) by (apply Z.div_pos; lia).
  pose proof (Z.mod_pos_bound N D HD) as Hr.
  rewrite (Zmod_odd (N / D)).
  unfold rec_of, loc_of.
  destruct (Z.eqb_spec (N mod D) 0) as [E|E].
  - rewrite E. simpl shr_record_of_loc. rewrite shr_1_nonneg by exact Hm.
    destruct (Z.odd (N / D)); simpl.
    + destruct (Z.eqb_spec (0 + D * 1) 0); try lia.
      destruct (Z.compare_spec (2 * (0 + D * 1)) (D * 2)); try lia. reflexivity.
    + destruct (Z.eqb_spec (0 + D * 0) 0); try lia. reflexivity.
  - assert (Hs : forall c, shr_1 (shr_record_of_loc (N / D) (loc_Inexact c))
                 = {| shr_m := N / D / 2; shr_r := Z.odd (N / D); shr_s := true |}).
    { intros c. destruct c; simpl shr_record_of_loc; rewrite shr_1_nonneg by exact Hm; reflexivity. }
    rewrite Hs.
    destruct (Z.odd (N / D)).
    + destruct (Z.eqb_spec (N mod D + D * 1) 0); try lia.
      destruct (Z.compare_spec (2 * (N mod D + D * 1)) (D * 2)); try lia. reflexivity.
    + destruct (Z.eqb_spec (N mod D + D * 0) 0); try lia.
      destruct (Z.compare_spec (2 * (N mod D + D * 0)) (D * 2)); try lia. reflexivity.
Qed.

Lemma pow2_xO (k : positive) : 2 ^ Z.pos k~0 = 2 ^ Z.pos k * 2 ^ Z.pos k.
Proof. rewrite <- Z.pow_add_r by lia. f_equal. lia. Qed.

Lemma pow2_xI (k : positive) : 2 ^ Z.pos k~1 = 2 * (2 ^ Z.pos k * 2 ^ Z.pos k).
Proof.
  rewrite <- Z.pow_add_r by lia. rewrite <- Z.pow_succ_r by lia. f_equal. lia.
Qed.

Lemma iter_shr_1_rec_of (k : positive) : forall N D,
  0 <= N -> 0 < D ->
  SpecFloat.iter_pos shr_1 k (rec_of N D) = rec_of N (D * 2 ^ Z.pos k).
Proof.
  induction k as [k IH|k IH|]; intros N D HN HD; simpl SpecFloat.iter_pos.
  - assert (0 < 2 ^ Z.pos k) by (apply Z.pow_pos_nonneg; lia).
    rewrite shr_1_rec_of, IH, IH by nia.
    f_equal. rewrite pow2_xI. ring.
  - assert (0 < 2 ^ Z.pos k) by (apply Z.pow_pos_nonneg; lia).
    rewrite IH, IH by nia.
    f_equal. rewrite pow2_xO. ring.
  - rewrite shr_1_rec_of by lia. reflexivity.
Qed.

Lemma shr_rec_of (N D e k : Z) :
  0 <= N -> 0 < D ->
  shr (rec_of N D) e k = (rec_of N (D * 2 ^ Z.max 0 k), e + Z.max 0 k).
Proof.
  intros HN HD. destruct k as [|k|k]; simpl shr.
  - rewrite Z.max_id. change (2 ^ 0) with 1. rewrite Z.mul_1_r, Z.add_0_r. reflexivity.
  - rewrite iter_shr_1_rec_of by lia. rewrite Z.max_r by lia. reflexivity.
  - rewrite Z.max_l by lia. change (2 ^ 0) with 1. rewrite Z.mul_1_r, Z.add_0_r. reflexivity.
Qed.

Lemma rnd_cases (N D : Z) : rnd N D = N / D \/ rnd N D = N / D + 1.
Proof.
  unfold rnd. destruct (2 * (N mod D) ?= D); auto.
  destruct (Z.even (N / D)); auto.
Qed.

Lemma rnd_bounds (N D lo hi : Z) :
  0 < D -> lo * D <= N < hi * D -> lo <= rnd N D <= hi.
Proof.
  intros HD [Hlo Hhi].
  assert (lo <= N / D) by (apply Z.div_le_lower_bound; lia).
  assert (N / D < hi) by (apply Z.div_lt_upper_bound; lia).
  destruct (rnd_cases N D); lia.
Qed.

(** ** [binary_round_aux] on a mantissa of at least 53 digits *)

Lemma rec_of_exact (m : Z) : shr_record_of_loc m loc_Exact = rec_of m 1.
Proof.
  unfold rec_of, loc_of. rewrite Z.div_1_r, Z.mod_1_r. reflexivity.
Qed.

Lemma fexp_normal (e : Z) : -1074 <= e - 53 -> fexp prec emax e = e - 53.
Proof. intros H. unfold fexp, SpecFloat.emin, prec, emax. lia. Qed.

(** The quotient [N / D], of [53 + k] digits and located by its remainder,
    is rounded to [rnd N (D * 2^k)] at the exponent raised by [k]. *)
Lemma binary_round_aux_rnd (s : bool) (N D k ex : Z) :
  0 < D -> 0 <= k ->
  2 ^ 52 * (D * 2 ^ k) <= N < 2 ^ 53 * (D * 2 ^ k) ->
  -1074 <= ex + k ->
  binary_round_aux prec emax s (N / D) ex (loc_of N D)
  = norm s (rnd N (D * 2 ^ k)) (ex + k).
Proof.
  intros HD Hk [Hlo Hhi] Hex.
  assert (Hpk : 0 < 2 ^ k) by (apply Z.pow_pos_nonneg; lia).
  assert (HN : 0 <= N) by nia.
  assert (Hq : 2 ^ (53 + k - 1) <= N / D < 2 ^ (53 + k)).
  { replace (53 + k - 1) with (52 + k) by lia. rewrite !Z.pow_add_r by lia. split.
    - apply Z.div_le_lower_bound; nia.
    - apply Z.div_lt_upper_bound; nia. }
  unfold binary_round_aux, shr_fexp.
  fold (rec_of N D).
  rewrite (Zdigits2_unique _ (53 + k)) by (auto; lia).
  rewrite fexp_normal by lia.
  rewrite shr_rec_of by lia.
  replace (53 + k + ex - 53 - ex) with k by lia.
  rewrite Z.max_r by lia.
  rewrite round_rec_of by nia.
  set (m1 := rnd N (D * 2 ^ k)).
  assert (Hm1 : 2 ^ 52 <= m1 <= 2 ^ 53) by (apply rnd_bounds; nia).
  rewrite rec_of_exact.
  unfold norm.
  destruct (Z.eqb_spec m1 (2 ^ 53)) as [E|E].
  - rewrite E.
    rewrite (Zdigits2_unique _ 54) by (simpl; lia).
    rewrite fexp_normal by lia.
    rewrite shr_rec_of by lia.
    replace (54 + (ex + k) - 53 - (ex + k)) with 1 by lia.
    rewrite shr_m_rec_of. reflexivity.
  - rewrite (Zdigits2_unique _ 53) by (simpl; lia).
    rewrite fexp_normal by lia.
    rewrite shr_rec_of by lia.
    replace (53 + (ex + k) - 53 - (ex + k)) with 0 by lia.
    rewrite shr_m_rec_of. rewrite Z.max_id. change (1 * 2 ^ 0) with 1.
    rewrite Z.div_1_r, Z.add_0_r.
    destruct m1 as [|p|p]; try (simpl in Hm1; lia). reflexivity.
Qed.

(** ** [binary_round] of an exact integer mantissa *)

Lemma iter_xO (d p : positive) : Z.pos (Pos.iter xO p d) = Z.pos p * 2 ^ Z.pos d.
Proof.
  revert p. induction d as [d IH|d IH|]; intros p; simpl Pos.iter.
  - rewrite Pos2Z.inj_xO, IH, IH, pow2_xI. ring.
  - rewrite IH, IH, pow2_xO. ring.
  - rewrite Pos2Z.inj_xO. change (2 ^ 1) with 2. ring.
Qed.

Lemma shl_align_spec (mx : positive) (ex ex' : Z) :
  let '(m, e) := shl_align mx ex ex' in
  e = Z.min ex ex' /\ Z.pos m = Z.pos mx * 2 ^ (ex - e).
Proof.
  unfold shl_align. destruct (ex' - ex) as [|d|d] eqn:E.
  - split; [lia|]. rewrite Z.sub_diag. simpl. lia.
  - split; [lia|]. rewrite Z.sub_diag. simpl. lia.
  - split; [lia|]. rewrite iter_xO. f_equal. f_equal. lia.
Qed.

Lemma pow2_pos (k : Z) : 0 <= k -> 0 < 2 ^ k.
Proof. intros. apply Z.pow_pos_nonneg; lia. Qed.

Lemma pow2_split (a b : Z) : 0 <= a -> 0 <= b -> 2 ^ (a + b) = 2 ^ a * 2 ^ b.
Proof. intros. apply Z.pow_add_r; lia. Qed.

Lemma rnd_exact (N : Z) : rnd N 1 = N.
Proof. unfold rnd. rewrite Z.mod_1_r, Z.div_1_r. reflexivity. Qed.

(** Rounding of an exact integer mantissa with at most 53 digits. *)
Lemma binary_round_small (s : bool) (mx : positive) (ex d : Z) :
  d = Z.pos (digits2_pos mx) ->
  d <= 53 -> -1074 <= ex + d - 53 <= 971 ->
  binary_round prec emax s mx ex
  = S754_finite s (Z.to_pos (Z.pos mx * 2 ^ (53 - d))) (ex + d - 53).
Proof.
  intros Ed Hd He. unfold binary_round. rewrite <- Ed.
  rewrite fexp_normal by lia.
  pose proof (shl_align_spec mx ex (d + ex - 53)) as Hs.
  destruct (shl_align mx ex (d + ex - 53)) as [mz ez]. destruct Hs as [Hez Hmz].
  rewrite Z.min_r in Hez by lia. subst ez.
  replace (ex - (d + ex - 53)) with (53 - d) in Hmz by lia.
  pose proof (digits2_pos_bounds mx) as [Hl Hh]. rewrite <- Ed in Hl, Hh.
  pose proof (pow2_pos (53 - d) ltac:(lia)) as Hp.
  assert (Hb : 2 ^ 52 <= Z.pos mz < 2 ^ 53).
  { rewrite Hmz.
    assert (E52 : 2 ^ 52 = 2 ^ (d - 1) * 2 ^ (53 - d))
      by (rewrite <- pow2_split by lia; f_equal; lia).
    assert (E53 : 2 ^ 53 = 2 ^ d * 2 ^ (53 - d))
      by (rewrite <- pow2_split by lia; f_equal; lia).
    rewrite E52, E53. nia. }
  pose proof (binary_round_aux_rnd s (Z.pos mz) 1 0 (d + ex - 53)) as H.
  rewrite Z.div_1_r in H. unfold loc_of in H. rewrite Z.mod_1_r in H. simpl (0 =? 0) in H. cbv iota in H.
  rewrite H by (simpl; lia). clear H.
  change (1 * 2 ^ 0) with 1. rewrite rnd_exact. unfold norm.
  destruct (Z.eqb_spec (Z.pos mz) (2 ^ 53)) as [E|E]; [lia|].
  rewrite Z.add_0_r. destruct (Z.leb_spec (d + ex - 53) 971); [|lia].
  rewrite <- Hmz. simpl Z.to_pos. f_equal. lia.
Qed.

(** Rounding of an exact integer mantissa with at least 53 digits. *)
Lemma binary_round_large (s : bool) (mx : positive) (ex d : Z) :
  d = Z.pos (digits2_pos mx) ->
  53 <= d -> -1074 <= ex + d - 53 ->
  binary_round prec emax s mx ex
  = norm s (rnd (Z.pos mx) (2 ^ (d - 53))) (ex + d - 53).
Proof.
  intros Ed Hd He. unfold binary_round. rewrite <- Ed.
  rewrite fexp_normal by lia.
  pose proof (shl_align_spec mx ex (d + ex - 53)) as Hs.
  destruct (shl_align mx ex (d + ex - 53)) as [mz ez]. destruct Hs as [Hez Hmz].
  rewrite Z.min_l in Hez by lia. subst ez.
  rewrite Z.sub_diag in Hmz. change (2 ^ 0) with 1 in Hmz. rewrite Z.mul_1_r in Hmz.
  rewrite Hmz.
  pose proof (digits2_pos_bounds mx) as [Hl Hh]. rewrite <- Ed in Hl, Hh.
  pose proof (pow2_pos (d - 53) ltac:(lia)) as Hp.
  pose proof (binary_round_aux_rnd s (Z.pos mx) 1 (d - 53) ex) as H.
  rewrite Z.div_1_r in H. unfold loc_of in H. rewrite Z.mod_1_r in H. simpl (0 =? 0) in H. cbv iota in H.
  rewrite H.
  - rewrite Z.mul_1_l. f_equal. lia.
  - lia.
  - lia.
  - rewrite Z.mul_1_l, <- !pow2_split by lia.
    replace (52 + (d - 53)) with (d - 1) by lia. replace (53 + (d - 53)) with d by lia. lia.
  - lia.
Qed.

(** ** Real values of floats *)

Lemma bpow_pos (e : Z) : (0 < bpow e)%R.
Proof. apply powerRZ_lt. lra. Qed.

Lemma bpow_add (a b : Z) : bpow (a + b) = (bpow a * bpow b)%R.
Proof. apply powerRZ_add. lra. Qed.

Lemma bpow_IZR (k : Z) : 0 <= k -> bpow k = IZR (2 ^ k).
Proof.
  revert k. apply natlike_ind; [reflexivity|].
  intros k Hk IH. unfold Z.succ. rewrite bpow_add, IH.
  rewrite Z.pow_add_r by lia. rewrite mult_IZR.
  change (2 ^ 1) with 2. unfold bpow. simpl. lra.
Qed.

Lemma bpow_0 : bpow 0 = 1%R.
Proof. reflexivity. Qed.

Lemma bpow_1 : bpow 1 = 2%R.
Proof. unfold bpow. simpl. lra. Qed.

Lemma bpow_lt (a b : Z) : a < b -> (bpow a < bpow b)%R.
Proof.
  intros H. replace b with (a + (b - a)) by lia. rewrite bpow_add.
  rewrite (bpow_IZR (b - a)) by lia.
  assert (2 <= 2 ^ (b - a)).
  { change 2 with (2 ^ 1) at 1. apply Z.pow_le_mono_r; lia. }
  apply IZR_le in H0. pose proof (bpow_pos a). nra.
Qed.

Lemma bpow_le (a b : Z) : a <= b -> (bpow a <= bpow b)%R.
Proof.
  intros H. destruct (Z.eq_dec a b) as [->|]; [lra|].
  apply Rlt_le, bpow_lt. lia.
Qed.

Lemma bpow_lt_inv (a b : Z) : (bpow a < bpow b)%R -> a < b.
Proof.
  intros H. destruct (Z_lt_le_dec a b); [assumption|].
  pose proof (bpow_le b a ltac:(lia)). lra.
Qed.

Lemma bpow_opp (a : Z) : (bpow a * bpow (- a) = 1)%R.
Proof. rewrite <- bpow_add. replace (a + - a) with 0 by lia. reflexivity. Qed.

Lemma bpow_neg (a : Z) : bpow (- a) = (/ bpow a)%R.
Proof.
  pose proof (bpow_pos a). apply Rmult_eq_reg_l with (bpow a); [|lra].
  rewrite bpow_opp. field. lra.
Qed.

Lemma normal_bounds (x : spec_float) :
  normal x -> (bpow (expo x + 52) <= F2R x < bpow (expo x + 53))%R.
Proof.
  destruct x as [| | |[] m e]; simpl; try tauto. intros [[Hl Hh] _].
  rewrite !bpow_add, (bpow_IZR 52), (bpow_IZR 53) by lia.
  apply IZR_le in Hl. apply IZR_lt in Hh. pose proof (bpow_pos e).
  split; nra.
Qed.

Lemma norm_normal (m e : Z) :
  2 ^ 52 <= m <= 2 ^ 53 -> -1074 <= e <= 970 ->
  normal (norm false m e) /\ F2R (norm false m e) = (IZR m * bpow e)%R.
Proof.
  intros Hm He. unfold norm.
  destruct (Z.eqb_spec m (2 ^ 53)) as [E|E].
  - destruct (Z.leb_spec (e + 1) 971); [|lia]. split.
    + simpl. lia.
    + subst m. unfold F2R. rewrite Z2Pos.id by (simpl; lia).
      rewrite bpow_add, bpow_1.
      change (2 ^ 53) with (2 * 2 ^ 52). rewrite mult_IZR. lra.
  - destruct (Z.leb_spec e 971); [|lia]. split.
    + simpl. rewrite Z2Pos.id by (simpl in Hm; lia). lia.
    + unfold F2R. rewrite Z2Pos.id by (simpl in Hm; lia). lra.
Qed.

(** ** The rounding relation *)

Lemma rnd_scale (c N D : Z) : 0 < c -> 0 < D -> rnd (c * N) (c * D) = rnd N D.
Proof.
  intros Hc HD. unfold rnd.
  rewrite Z.div_mul_cancel_l by lia. rewrite Z.mul_mod_distr_l by lia.
  destruct (Z.compare_spec (2 * (c * (N mod D))) (c * D)),
    (Z.compare_spec (2 * (N mod D)) D); try reflexivity; nia.
Qed.

Lemma rnd_ratio (N D N' D' : Z) :
  0 < D -> 0 < D' -> N * D' = N' * D -> rnd N D = rnd N' D'.
Proof.
  intros HD HD' H.
  rewrite <- (rnd_scale D' N D), <- (rnd_scale D N' D') by lia.
  f_equal; lia.
Qed.

Lemma rnd_error (N D : Z) : 0 < D -> - D <= 2 * (rnd N D * D - N) <= D.
Proof.
  intros HD. unfold rnd.
  pose proof (Z.div_mod N D ltac:(lia)) as E.
  pose proof (Z.mod_pos_bound N D HD) as Hr.
  destruct (Z.compare_spec (2 * (N mod D)) D); [destruct (Z.even (N / D))| |]; nia.
Qed.

Lemma rnd_ge (N D lo : Z) : 0 < D -> lo * D <= N -> lo <= rnd N D.
Proof.
  intros HD H. assert (lo <= N / D) by (apply Z.div_le_lower_bound; lia).
  destruct (rnd_cases N D); lia.
Qed.

Lemma rnd_le (N D hi : Z) : 0 < D -> N <= hi * D -> rnd N D <= hi.
Proof.
  intros HD H. unfold rnd.
  pose proof (Z.div_mod N D ltac:(lia)) as E.
  pose proof (Z.mod_pos_bound N D HD) as Hr.
  destruct (Z.compare_spec (2 * (N mod D)) D); [destruct (Z.even (N / D))| |]; nia.
Qed.

Lemma IZR_div_bounds (N D : Z) (lo hi : Z) :
  0 < D -> lo * D <= N < hi * D -> (IZR lo <= IZR N / IZR D < IZR hi)%R.
Proof.
  intros HD [Hl Hh]. apply IZR_lt in HD as HD'.
  apply IZR_le in Hl. apply IZR_lt in Hh. rewrite mult_IZR in Hl, Hh.
  split.
  - apply Rmult_le_reg_r with (IZR D); [lra|]. field_simplify; lra.
  - apply Rmult_lt_reg_r with (IZR D); [lra|]. field_simplify; lra.
Qed.

Lemma RND_range (N D e : Z) :
  0 < D -> 2 ^ 52 * D <= N < 2 ^ 53 * D ->
  (bpow (e + 52) <= IZR N / IZR D * bpow e < bpow (e + 53))%R.
Proof.
  intros HD HN. pose proof (IZR_div_bounds N D _ _ HD HN) as [Hl Hh].
  rewrite !bpow_add, (bpow_IZR 52), (bpow_IZR 53) by lia.
  pose proof (bpow_pos e). split; nra.
Qed.

(** The rounding of a real does not depend on the fraction that writes it. *)
Lemma RND_unique (v : R) (x : spec_float) (N D e : Z) :
  RND v x ->
  0 < D -> 2 ^ 52 * D <= N < 2 ^ 53 * D ->
  v = (IZR N / IZR D * bpow e)%R ->
  x = norm false (rnd N D) e.
Proof.
  intros (N' & D' & e' & HD' & HN' & He' & Hv' & ->) HD HN Hv.
  pose proof (RND_range N D e HD HN) as [H1 H2].
  pose proof (RND_range N' D' e' HD' HN') as [H1' H2'].
  rewrite <- Hv in H1, H2. rewrite <- Hv' in H1', H2'.
  assert (e' + 52 < e + 53) by (apply bpow_lt_inv; lra).
  assert (e + 52 < e' + 53) by (apply bpow_lt_inv; lra).
  assert (e' = e) by lia. subst e'.
  f_equal. apply rnd_ratio; try lia.
  apply eq_IZR. rewrite !mult_IZR.
  apply IZR_lt in HD, HD'. pose proof (bpow_pos e).
  assert (E : (IZR N' / IZR D' = IZR N / IZR D)%R).
  { apply Rmult_eq_reg_r with (bpow e); lra. }
  apply (f_equal (fun t => (t * IZR D * IZR D')%R)) in E.
  field_simplify in E; lra.
Qed.

Lemma RND_normal (v : R) (x : spec_float) : RND v x -> normal x.
Proof.
  intros (N & D & e & HD & HN & He & _ & ->).
  apply norm_normal; [|lia]. split; [apply rnd_ge|apply rnd_le]; lia.
Qed.

Lemma normal_exact (g : spec_float) : normal g -> expo g <= 970 -> RND (F2R g) g.
Proof.
  destruct g as [| | |[] m e]; simpl; try tauto. intros [Hm He] He'.
  exists (Z.pos m), 1, e. repeat split; try lia.
  - lra.
  - rewrite rnd_exact. unfold norm.
    destruct (Z.eqb_spec (Z.pos m) (2 ^ 53)); [lia|].
    destruct (Z.leb_spec e 971); [|lia]. reflexivity.
Qed.

(** A representable number rounds to itself. *)
Lemma RND_exact (g x : spec_float) :
  normal g -> expo g <= 970 -> RND (F2R g) x -> x = g.
Proof.
  intros Hg He Hx. pose proof (normal_exact g Hg He) as (N & D & e & HD & HN & _ & Hv & Hn).
  rewrite Hn. apply (RND_unique (F2R g)); assumption.
Qed.

(** Rounding never crosses a representable number. *)
Lemma RND_ge (v : R) (x g : spec_float) :
  RND v x -> normal g -> (F2R g <= v)%R -> (F2R g <= F2R x)%R.
Proof.
  intros (N & D & e & HD & HN & He & -> & ->) Hg Hle.
  assert (Hr : 2 ^ 52 <= rnd N D <= 2 ^ 53) by (split; [apply rnd_ge|apply rnd_le]; lia).
  destruct (norm_normal (rnd N D) e Hr He) as [_ ->].
  destruct g as [| | |[] G eg]; simpl in Hg; try tauto. destruct Hg as [HG _].
  unfold F2R in *. pose proof (bpow_pos e) as Hpe.
  apply IZR_lt in HD as HD'.
  destruct (Z_le_gt_dec e eg) as [Hc|Hc].
  - (* the grid of [g] is coarser: compare integers *)
    replace eg with ((eg - e) + e) in Hle |- * by lia. rewrite bpow_add in Hle |- *.
    rewrite (bpow_IZR (eg - e)) in Hle |- * by lia.
    assert (Hz : Z.pos G * 2 ^ (eg - e) * D <= N).
    { apply le_IZR. rewrite !mult_IZR.
      assert ((IZR (Z.pos G) * IZR (2 ^ (eg - e)) <= IZR N / IZR D)%R).
      { apply Rmult_le_reg_r with (bpow e); lra. }
      apply Rmult_le_compat_r with (r := IZR D) in H; [|lra].
      field_simplify in H; lra. }
    pose proof (rnd_ge N D _ HD Hz) as Hq. apply IZR_le in Hq.
    rewrite mult_IZR in Hq. nra.
  - (* [g] lies below the binade of [v] *)
    replace e with ((e - eg - 1) + 1 + eg) by lia. rewrite !bpow_add, bpow_1.
    pose proof (bpow_pos eg). pose proof (bpow_pos (e - eg - 1)).
    assert (1 <= bpow (e - eg - 1))%R.
    { rewrite <- bpow_0. apply bpow_le. lia. }
    destruct Hr as [Hr _]. apply IZR_le in Hr.
    destruct HG as [_ HG]. apply IZR_lt in HG.
    change (2 ^ 53) with (2 * 2 ^ 52) in HG. rewrite mult_IZR in HG.
    assert (0 < IZR (2 ^ 52))%R by (apply IZR_lt; reflexivity).
    set (b := bpow eg) in *. set (B := bpow (e - eg - 1)) in *.
    set (P := IZR (2 ^ 52)) in *. set (r := IZR (rnd N D)) in *.
    set (g := IZR (Z.pos G)) in *.
    assert (P <= r * B)%R by nra.
    assert (g * b <= 2 * P * b)%R by nra.
    assert (P * b <= r * B * b)%R by (apply Rmult_le_compat_r; lra).
    lra.
Qed.

Lemma RND_le (v : R) (x g : spec_float) :
  RND v x -> normal g -> (v <= F2R g)%R -> (F2R x <= F2R g)%R.
Proof.
  intros (N & D & e & HD & HN & He & -> & ->) Hg Hle.
  assert (Hr : 2 ^ 52 <= rnd N D <= 2 ^ 53) by (split; [apply rnd_ge|apply rnd_le]; lia).
  destruct (norm_normal (rnd N D) e Hr He) as [_ ->].
  pose proof (RND_range N D e HD HN) as [Hv _].
  destruct g as [| | |[] G eg]; simpl in Hg; try tauto. destruct Hg as [HG _].
  unfold F2R in *. pose proof (bpow_pos e) as Hpe.
  apply IZR_lt in HD as HD'.
  destruct (Z_le_gt_dec e eg) as [Hc|Hc].
  - replace eg with ((eg - e) + e) in Hle |- * by lia. rewrite bpow_add in Hle |- *.
    rewrite (bpow_IZR (eg - e)) in Hle |- * by lia.
    assert (Hz : N <= Z.pos G * 2 ^ (eg - e) * D).
    { apply le_IZR. rewrite !mult_IZR.
      assert ((IZR N / IZR D <= IZR (Z.pos G) * IZR (2 ^ (eg - e)))%R).
      { apply Rmult_le_reg_r with (bpow e); lra. }
      apply Rmult_le_compat_r with (r := IZR D) in H; [|lra].
      field_simplify in H; lra. }
    pose proof (rnd_le N D _ HD Hz) as Hq. apply IZR_le in Hq.
    rewrite mult_IZR in Hq. nra.
  - exfalso.
    replace (e + 52) with ((e - eg - 1) + 1 + eg + 52) in Hv by lia.
    rewrite !bpow_add, bpow_1, (bpow_IZR 52) in Hv by lia.
    pose proof (bpow_pos eg). pose proof (bpow_pos (e - eg - 1)).
    assert (1 <= bpow (e - eg - 1))%R.
    { rewrite <- bpow_0. apply bpow_le. lia. }
    destruct HG as [_ HG]. apply IZR_lt in HG.
    change (2 ^ 53) with (2 * 2 ^ 52) in HG. rewrite mult_IZR in HG.
    assert (0 < IZR (2 ^ 52))%R by (apply IZR_lt; reflexivity).
    nra.
Qed.

(** ** The operations round their exact result *)

(** An integer below 2^53 converts exactly. *)
Lemma of_int_pos (n : Z) :
  0 < n < 2 ^ 53 ->
  normal (of_int n) /\ F2R (of_int n) = IZR n /\ -52 <= expo (of_int n) <= 0.
Proof.
  intros [Hn Hh]. destruct n as [|p|p]; try lia.
  unfold of_int, binary_normalize.
  pose proof (digits2_pos_bounds p) as [Hl Hu].
  set (d := Z.pos (digits2_pos p)) in *.
  assert (Hd : d <= 53).
  { assert (d - 1 < 53) by (apply pow2_lt_inv; lia). lia. }
  rewrite (binary_round_small _ _ _ d) by (try reflexivity; lia).
  pose proof (pow2_pos (53 - d) ltac:(lia)) as Hp.
  assert (E52 : 2 ^ 52 = 2 ^ (d - 1) * 2 ^ (53 - d))
    by (rewrite <- pow2_split by lia; f_equal; lia).
  assert (E53 : 2 ^ 53 = 2 ^ d * 2 ^ (53 - d))
    by (rewrite <- pow2_split by lia; f_equal; lia).
  simpl normal. simpl expo. unfold F2R.
  rewrite Z2Pos.id by nia.
  split; [|split].
  - split; [rewrite E52, E53; nia|lia].
  - rewrite mult_IZR, <- bpow_IZR by lia.
    replace (0 + d - 53) with (- (53 - d)) by lia.
    rewrite Rmult_1_l, Rmult_assoc, bpow_opp. lra.
  - lia.
Qed.

Lemma of_int_0 : of_int 0 = S754_zero false.
Proof. reflexivity. Qed.

Lemma div_eucl_div_mod (a b : Z) : Z.div_eucl a b = (a / b, a mod b).
Proof. unfold Z.div, Z.modulo. destruct (Z.div_eucl a b). reflexivity. Qed.

(** Division of positive normal floats. *)
Theorem div_RND (x y : spec_float) :
  normal x -> normal y ->
  -1074 <= expo x - expo y - 53 -> expo x - expo y - 52 <= 970 ->
  RND (F2R x / F2R y) (SF64div x y).
Proof.
  destruct x as [| | |[] m1 e1]; simpl; try tauto.
  destruct y as [| | |[] m2 e2]; simpl; try tauto.
  intros [Hm1 He1] [Hm2 He2] Hlo Hhi.
  unfold SF64div, SFdiv, SFdiv_core_binary.
  rewrite !(Zdigits2_unique _ 53) by (simpl; lia).
  rewrite fexp_normal by lia.
  rewrite Z.min_l by lia.
  replace (e1 - e2 - (53 + e1 - (53 + e2) - 53)) with 53 by lia.
  rewrite Z.shiftl_mul_pow2 by lia.
  rewrite div_eucl_div_mod.
  rewrite new_location_loc_of by lia.
  set (N := Z.pos m1 * 2 ^ 53). set (D := Z.pos m2).
  set (k := if Z.pos m2 <=? Z.pos m1 then 1 else 0).
  assert (Hk : 0 <= k <= 1) by (unfold k; destruct (_ <=? _); lia).
  assert (HND : 2 ^ 52 * (D * 2 ^ k) <= N < 2 ^ 53 * (D * 2 ^ k)).
  { unfold k, N, D. destruct (Z.leb_spec (Z.pos m2) (Z.pos m1));
      [change (2 ^ 1) with 2|change (2 ^ 0) with 1];
      change (2 ^ 53) with (2 * 2 ^ 52) in *; lia. }
  simpl xorb.
  rewrite (binary_round_aux_rnd false N D k) by (fold D; lia).
  exists N, (D * 2 ^ k), (53 + e1 - (53 + e2) - 53 + k).
  assert (0 < 2 ^ k) by (apply pow2_pos; lia).
  repeat split; try lia; try nia.
  unfold N, D. rewrite !mult_IZR, <- !bpow_IZR by lia.
  replace (53 + e1 - (53 + e2) - 53 + k) with (e1 + (- e2 + (- (53) + k))) by lia.
  rewrite !bpow_add, !bpow_neg.
  pose proof (bpow_pos e2). pose proof (bpow_pos k). pose proof (bpow_pos 53).
  assert (0 < IZR (Z.pos m2))%R by (apply IZR_lt; lia).
  field. repeat split; lra.
Qed.

Lemma binary_round_aux_exact (s : bool) (M k ex : Z) :
  0 <= k -> 2 ^ 52 * 2 ^ k <= M < 2 ^ 53 * 2 ^ k -> -1074 <= ex + k ->
  binary_round_aux prec emax s M ex loc_Exact = norm s (rnd M (2 ^ k)) (ex + k).
Proof.
  intros Hk HM He.
  pose proof (binary_round_aux_rnd s M 1 k ex) as H.
  rewrite Z.div_1_r in H. unfold loc_of in H. rewrite Z.mod_1_r in H.
  simpl (0 =? 0) in H. cbv iota in H. rewrite Z.mul_1_l in H.
  apply H; lia.
Qed.

(** Multiplication of positive normal floats. *)
Theorem mul_RND (x y : spec_float) :
  normal x -> normal y ->
  -1074 <= expo x + expo y + 52 -> expo x + expo y + 53 <= 970 ->
  RND (F2R x * F2R y) (SF64mul x y).
Proof.
  destruct x as [| | |[] m1 e1]; simpl; try tauto.
  destruct y as [| | |[] m2 e2]; simpl; try tauto.
  intros [Hm1 He1] [Hm2 He2] Hlo Hhi.
  unfold SF64mul, SFmul. simpl xorb. rewrite Pos2Z.inj_mul.
  set (M := Z.pos m1 * Z.pos m2).
  set (k := if M <? 2 ^ 105 then 52 else 53).
  assert (Hk : 52 <= k <= 53) by (unfold k; destruct (_ <? _); lia).
  assert (HM : 2 ^ 52 * 2 ^ k <= M < 2 ^ 53 * 2 ^ k).
  { unfold k. destruct (Z.ltb_spec M (2 ^ 105)).
    - change (2 ^ 52 * 2 ^ 52) with (2 ^ 52 * 2 ^ 52). change (2 ^ 53 * 2 ^ 52) with (2 ^ 105).
      unfold M. nia.
    - change (2 ^ 52 * 2 ^ 53) with (2 ^ 105). change (2 ^ 53 * 2 ^ 53) with (2 ^ 53 * 2 ^ 53).
      unfold M. nia. }
  rewrite (binary_round_aux_exact false M k) by lia.
  exists M, (2 ^ k), (e1 + e2 + k).
  assert (0 < 2 ^ k) by (apply pow2_pos; lia).
  repeat split; try lia.
  unfold M. rewrite !mult_IZR, <- bpow_IZR by lia. rewrite !bpow_add.
  pose proof (bpow_pos k). field. lra.
Qed.

(** Addition of positive normal floats. *)
Theorem add_RND (x y : spec_float) :
  normal x -> normal y ->
  Z.max (expo x) (expo y) + 1 <= 970 ->
  RND (F2R x + F2R y) (SF64add x y).
Proof.
  destruct x as [| | |[] m1 e1]; simpl; try tauto.
  destruct y as [| | |[] m2 e2]; simpl; try tauto.
  intros [Hm1 He1] [Hm2 He2] Hhi.
  unfold SF64add, SFadd. cbn [cond_Zopp].
  set (ez := Z.min e1 e2).
  pose proof (shl_align_spec m1 e1 ez) as H1.
  pose proof (shl_align_spec m2 e2 ez) as H2.
  destruct (shl_align m1 e1 ez) as [a ea], (shl_align m2 e2 ez) as [b eb].
  destruct H1 as [Hea Ha], H2 as [Heb Hb]. cbn [fst].
  rewrite Z.min_r in Hea by (unfold ez; lia). rewrite Z.min_r in Heb by (unfold ez; lia).
  subst ea eb.
  change (Z.pos a + Z.pos b) with (Z.pos (a + b)). unfold binary_normalize.
  pose proof (digits2_pos_bounds (a + b)) as [Hl Hu].
  set (d := Z.pos (digits2_pos (a + b))) in *.
  rewrite Pos2Z.inj_add in Hl, Hu.
  pose proof (pow2_pos (e1 - ez) ltac:(unfold ez; lia)) as Hp1.
  pose proof (pow2_pos (e2 - ez) ltac:(unfold ez; lia)) as Hp2.
  assert (Hd53 : 53 <= d).
  { assert (52 < d) by (apply pow2_lt_inv; try lia; nia). lia. }
  assert (Hdu : ez + d - 53 <= Z.max e1 e2 + 1).
  { assert (d - 1 < 54 + (Z.max e1 e2 - ez)); [|lia].
    apply pow2_lt_inv; [unfold ez; lia|].
    eapply Z.le_lt_trans; [exact Hl|]. rewrite Ha, Hb.
    rewrite pow2_split by (unfold ez; lia).
    assert (2 ^ (e1 - ez) <= 2 ^ (Z.max e1 e2 - ez)) by (apply Z.pow_le_mono_r; lia).
    assert (2 ^ (e2 - ez) <= 2 ^ (Z.max e1 e2 - ez)) by (apply Z.pow_le_mono_r; lia).
    change (2 ^ 54) with (2 * 2 ^ 53). nia. }
  rewrite (binary_round_large _ _ _ d) by (try reflexivity; unfold ez; lia).
  exists (Z.pos (a + b)), (2 ^ (d - 53)), (ez + d - 53).
  pose proof (pow2_pos (d - 53) ltac:(lia)).
  rewrite Pos2Z.inj_add.
  assert (E1 : 2 ^ 52 * 2 ^ (d - 53) = 2 ^ (d - 1))
    by (rewrite <- pow2_split by lia; f_equal; lia).
  assert (E2 : 2 ^ 53 * 2 ^ (d - 53) = 2 ^ d)
    by (rewrite <- pow2_split by lia; f_equal; lia).
  repeat split; try (unfold ez; lia).
  rewrite plus_IZR, Ha, Hb, !mult_IZR, <- !bpow_IZR by (unfold ez; lia).
  replace (ez + d - 53) with (ez + (d - 53)) by lia.
  replace e1 with (ez + (e1 - ez)) at 1 by lia.
  replace e2 with (ez + (e2 - ez)) at 1 by lia.
  rewrite !bpow_add.
  pose proof (bpow_pos (d - 53)). field. lra.
Qed.

(** ** Bounds by powers of two *)

Lemma bpow_le_inv (a b : Z) : (bpow a <= bpow b)%R -> a <= b.
Proof.
  intros H. destruct (Z_le_gt_dec a b); [assumption|].
  pose proof (bpow_lt b a ltac:(lia)). lra.
Qed.

Lemma pow2f_normal (k : Z) :
  -1022 <= k <= 1023 -> normal (pow2f k) /\ F2R (pow2f k) = bpow k.
Proof.
  intros Hk. split.
  - simpl. lia.
  - unfold pow2f, F2R. change (Z.pos (Z.to_pos (2 ^ 52))) with (2 ^ 52).
    rewrite <- (bpow_IZR 52) by lia. rewrite Rmult_1_l, <- bpow_add.
    f_equal. lia.
Qed.

Lemma normal_expo (x : spec_float) (lo hi : Z) :
  normal x -> (bpow lo <= F2R x <= bpow hi)%R -> lo - 52 <= expo x <= hi - 52.
Proof.
  intros Hx [Hl Hh]. pose proof (normal_bounds x Hx) as [H1 H2].
  assert (lo < expo x + 53) by (apply bpow_lt_inv; lra).
  assert (expo x + 52 <= hi) by (apply bpow_le_inv; lra).
  lia.
Qed.

Lemma RND_bounds (v : R) (x : spec_float) (lo hi : Z) :
  RND v x -> -1022 <= lo -> hi <= 1023 -> (bpow lo <= v <= bpow hi)%R ->
  (bpow lo <= F2R x <= bpow hi)%R.
Proof.
  intros Hr Hlo Hhi [Hl Hh].
  assert (lo <= hi) by (apply bpow_le_inv; lra).
  destruct (pow2f_normal lo ltac:(lia)) as [Hn1 Hv1].
  destruct (pow2f_normal hi ltac:(lia)) as [Hn2 Hv2].
  rewrite <- Hv1, <- Hv2 in *. split.
  - apply (RND_ge v); assumption.
  - apply (RND_le v); assumption.
Qed.

Lemma RND_witness (v : R) (x : spec_float) (N D e : Z) :
  RND v x ->
  0 < D -> 2 ^ 52 * D <= N < 2 ^ 53 * D ->
  v = (IZR N / IZR D * bpow e)%R ->
  -1074 <= e <= 970 /\ x = norm false (rnd N D) e.
Proof.
  intros Hr HD HN Hv. split; [|eapply RND_unique; eassumption].
  destruct Hr as (N' & D' & e' & HD' & HN' & He' & Hv' & _).
  pose proof (RND_range N D e HD HN) as [H1 H2].
  pose proof (RND_range N' D' e' HD' HN') as [H1' H2'].
  rewrite <- Hv in H1, H2. rewrite <- Hv' in H1', H2'.
  assert (e' + 52 < e + 53) by (apply bpow_lt_inv; lra).
  assert (e + 52 < e' + 53) by (apply bpow_lt_inv; lra).
  lia.
Qed.

Lemma RND_fun (v : R) (x y : spec_float) : RND v x -> RND v y -> x = y.
Proof.
  intros (N & D & e & HD & HN & He & Hv & ->) Hy.
  symmetry. eapply RND_unique; eassumption.
Qed.

(** Rounding commutes with doubling. *)
Lemma RND_double (v : R) (x y : spec_float) :
  RND v x -> RND (2 * v) y -> F2R y = (2 * F2R x)%R.
Proof.
  intros (N & D & e & HD & HN & He & Hv & ->) Hy.
  assert (Hv2 : (2 * v = IZR N / IZR D * bpow (e + 1))%R).
  { rewrite Hv, bpow_add, bpow_1. lra. }
  destruct (RND_witness _ _ N D (e + 1) Hy HD HN Hv2) as [He' ->].
  assert (Hr : 2 ^ 52 <= rnd N D <= 2 ^ 53) by (split; [apply rnd_ge|apply rnd_le]; lia).
  destruct (norm_normal (rnd N D) e Hr He) as [_ ->].
  destruct (norm_normal (rnd N D) (e + 1) Hr He') as [_ ->].
  rewrite bpow_add, bpow_1. lra.
Qed.

(** * Arrays, counts and the structure of [calculate_accuracy] *)

Lemma wrap64_small (z : Z) : - 2 ^ 63 <= z < 2 ^ 63 -> wrap64 z = z.
Proof. intros H. unfold wrap64. rewrite Z.mod_small; lia. Qed.

Lemma count_true_bounds (m : list bool) :
  0 <= count_true m <= Z.of_nat (length m).
Proof.
  induction m as [|b m IH]; simpl; [lia|]. destruct b; simpl Z.b2z; lia.
Qed.

Lemma np_sum_acc (m : list bool) : forall acc,
  0 <= acc -> acc + Z.of_nat (length m) < 2 ^ 63 ->
  foldl (λ acc b, int64_add acc (Z.b2z b)) acc m = acc + count_true m.
Proof.
  induction m as [|b m IH]; intros acc Hacc Hlen; simpl in *; [lia|].
  unfold int64_add at 2. rewrite wrap64_small by (destruct b; simpl; lia).
  rewrite IH by (destruct b; simpl; lia). lia.
Qed.

Lemma np_sum_count (m : list bool) :
  Z.of_nat (length m) < 2 ^ 63 -> np_sum m = count_true m.
Proof. intros H. unfold np_sum. rewrite np_sum_acc; lia. Qed.

Lemma broadcast2_same_length {A B C} (f : A → B → C) (a : list A) (b : list B) :
  length a = length b -> broadcast2 f a b = Some (zip_with f a b).
Proof. intros H. unfold broadcast2. rewrite decide_True by assumption. reflexivity. Qed.

Lemma list_ind2 {A B} (P : list A → list B → Prop) :
  P [] [] ->
  (forall x y l k, length l = length k -> P l k -> P (x :: l) (y :: k)) ->
  forall l k, length l = length k -> P l k.
Proof.
  intros H0 Hs l. induction l as [|x l IH]; intros [|y k] Hlen; simpl in Hlen; try lia.
  - exact H0.
  - apply Hs; [lia|]. apply IH. lia.
Qed.

Section Scores.
Variables observed predicted : list Z.
Hypothesis same_length : length observed = length predicted.

Ltac unfold_score :=
  unfold score, calculate_accuracy, mask_and, array_eq;
  rewrite !broadcast2_same_length
    by (unfold mask_eq_scalar, eq_scalar; rewrite ?length_fmap; congruence);
  reflexivity.

Lemma calculate_accuracy_returns :
  is_Some (calculate_accuracy observed predicted).
Proof using same_length.
  unfold calculate_accuracy, mask_and, array_eq.
  rewrite !broadcast2_same_length
    by (unfold mask_eq_scalar, eq_scalar; rewrite ?length_fmap; congruence).
  eexists. reflexivity.
Qed.

Lemma score_accuracy :
  score "accuracy" observed predicted = Some (np_mean (agreement observed predicted)).
Proof using same_length. unfold_score. Qed.

Lemma score_precision :
  score "precision" observed predicted = Some (precision observed predicted).
Proof using same_length. unfold_score. Qed.

Lemma score_recall :
  score "recall" observed predicted = Some (recall observed predicted).
Proof using same_length. unfold_score. Qed.

Lemma score_f1 :
  score "f1" observed predicted = Some (f1 observed predicted).
Proof using same_length. unfold_score. Qed.

Lemma score_specificity :
  score "specificity" observed predicted = Some (specificity observed predicted).
Proof using same_length. unfold_score. Qed.
Lemma score_sensitivity :
  score "sensitivity" observed predicted = Some (recall observed predicted).
Proof using same_length. unfold_score. Qed.

Lemma score_true_positive_rate :
  score "true_positive_rate" observed predicted = Some (recall observed predicted).
Proof using same_length. unfold_score. Qed.

Lemma score_true_negative_rate :
  score "true_negative_rate" observed predicted
  = Some (specificity observed predicted).
Proof using same_length. unfold_score. Qed.

Lemma score_positive_likelihood :
  score "positive_likelihood" observed predicted
  = Some (recall observed predicted
          / (of_int 1 - specificity observed predicted))%f64.
Proof using same_length. unfold_score. Qed.

Lemma score_negative_likelihood :
  score "negative_likelihood" observed predicted
  = Some ((of_int 1 - recall observed predicted)
          / specificity observed predicted)%f64.
Proof using same_length. unfold_score. Qed.

Lemma score_false_positive_rate :
  score "false_positive_rate" observed predicted
  = Some (of_int 1 - specificity observed predicted)%f64.
Proof using same_length. unfold_score. Qed.

Lemma score_false_negative_rate :
  score "false_negative_rate" observed predicted
  = Some (of_int 1 - recall observed predicted)%f64.
Proof using same_length. unfold_score. Qed.

Lemma score_positive_predictive_value :
  score "positive_predictive_value" observed predicted
  = Some (true_divide (np_sum (true_positives observed predicted))
                      (np_sum (eq_scalar observed 1))).
Proof using same_length. unfold_score. Qed.

Lemma score_negative_predictive_value :
  score "negative_predictive_value" observed predicted
  = Some (true_divide (np_sum (true_negatives observed predicted))
                      (np_sum (eq_scalar observed 1))).
Proof using same_length. unfold_score. Qed.

Lemma score_observed_positive_rate :
  score "observed_positive_rate" observed predicted
  = Some (np_mean (eq_scalar observed 1)).
Proof using same_length. unfold_score. Qed.

Lemma score_observed_negative_rate :
  score "observed_negative_rate" observed predicted
  = Some (np_mean (eq_scalar observed 0)).
Proof using same_length. unfold_score. Qed.

Lemma score_predicted_positive_rate :
  score "predicted_positive_rate" observed predicted
  = Some (np_mean (eq_scalar predicted 1)).
Proof using same_length. unfold_score. Qed.

Lemma score_predicted_negative_rate :
  score "predicted_negative_rate" observed predicted
  = Some (np_mean (eq_scalar predicted 0)).
Proof using same_length. unfold_score. Qed.
End Scores.

(** ** The masks count the pairs *)

Lemma binary_cons (x : Z) (a : list Z) :
  binary (x :: a) <-> (x = 0 \/ x = 1) /\ binary a.
Proof. exact (Forall_cons (λ x, x = 0 ∨ x = 1) x a). Qed.

Lemma count_true_cons (b : bool) (m : list bool) :
  count_true (b :: m) = Z.b2z b + count_true m.
Proof. reflexivity. Qed.

Lemma counts_masks (observed predicted : list Z) :
  length observed = length predicted -> binary observed -> binary predicted ->
  count_true (true_positives observed predicted) = TP observed predicted /\
  count_true (false_positives observed predicted) = FP observed predicted /\
  count_true (true_negatives observed predicted) = TN observed predicted /\
  count_true (eq_scalar observed 1) = TP observed predicted + FN observed predicted /\
  count_true (eq_scalar observed 0) = TN observed predicted + FP observed predicted /\
  count_true (eq_scalar predicted 1) = TP observed predicted + FP observed predicted /\
  count_true (eq_scalar predicted 0) = TN observed predicted + FN observed predicted /\
  count_true (agreement observed predicted) = TP observed predicted + TN observed predicted /\
  Z.of_nat (length observed)
  = TP observed predicted + FP observed predicted
    + TN observed predicted + FN observed predicted.
Proof.
  intros Hlen. revert observed predicted Hlen.
  apply (list_ind2 (λ o p, binary o → binary p → _)).
  - intros _ _. repeat split.
  - intros x y o p Hlen IH [Hx Ho]%binary_cons [Hy Hp]%binary_cons.
    specialize (IH Ho Hp). revert IH.
    unfold TP, FP, TN, FN, count_pairs, true_positives, false_positives,
      true_negatives, agreement, mask_eq_scalar, eq_scalar.
    cbn [fmap list_fmap zip_with length].
    rewrite !count_true_cons, Nat2Z.inj_succ.
    destruct Hx as [-> | ->], Hy as [-> | ->]; cbn [Z.eqb Z.b2z andb Pos.eqb];
      intros (? & ? & ? & ? & ? & ? & ? & ? & ?); repeat split; lia.
Qed.

(** ** Counting in float64 *)

Lemma add_of_int_bit (a : Z) (b : bool) :
  0 <= a -> a + 1 < 2 ^ 53 ->
  (of_int a + of_int (Z.b2z b))%f64 = of_int (a + Z.b2z b).
Proof.
  intros Ha Hb.
  destruct (Z.eq_dec a 0) as [->|Hne].
  - destruct b; reflexivity.
  - destruct (of_int_pos a ltac:(lia)) as (Hn & Hv & He).
    destruct b; simpl Z.b2z.
    + destruct (of_int_pos 1 ltac:(lia)) as (Hn1 & Hv1 & He1).
      destruct (of_int_pos (a + 1) ltac:(lia)) as (Hn2 & Hv2 & He2).
      apply RND_exact; [assumption|lia|].
      rewrite Hv2, plus_IZR, <- Hv, <- Hv1.
      apply add_RND; [assumption|assumption|lia].
    + rewrite Z.add_0_r. change (of_int 0) with (S754_zero false).
      destruct (of_int a) as [| | |[] m e]; simpl in Hn; try contradiction. reflexivity.
Qed.

Lemma float_sum_acc (m : list bool) : forall acc,
  0 <= acc -> acc + Z.of_nat (length m) < 2 ^ 53 ->
  foldl (λ acc b, (acc + of_int (Z.b2z b))%f64) (of_int acc) m
  = of_int (acc + count_true m).
Proof.
  induction m as [|b m IH]; intros acc Hacc Hlen; simpl foldl.
  - simpl. rewrite Z.add_0_r. reflexivity.
  - simpl length in Hlen. rewrite Nat2Z.inj_succ in Hlen.
    rewrite add_of_int_bit by lia.
    rewrite IH by (destruct b; simpl Z.b2z; lia).
    rewrite count_true_cons. f_equal. lia.
Qed.

Lemma float_sum_count (m : list bool) :
  Z.of_nat (length m) < 2 ^ 53 -> float_sum m = of_int (count_true m).
Proof. intros H. unfold float_sum. rewrite float_sum_acc by lia. reflexivity. Qed.

Lemma np_mean_count (m : list bool) :
  Z.of_nat (length m) < 2 ^ 53 ->
  np_mean m = true_divide (count_true m) (Z.of_nat (length m)).
Proof. intros H. unfold np_mean. rewrite float_sum_count by assumption. reflexivity. Qed.

(** ** True division of counts *)

Lemma true_divide_RND (a b : Z) :
  0 < a < 2 ^ 53 -> 0 < b < 2 ^ 53 ->
  RND (IZR a / IZR b) (true_divide a b).
Proof.
  intros Ha Hb.
  destruct (of_int_pos a Ha) as (Hna & Hva & Hea).
  destruct (of_int_pos b Hb) as (Hnb & Hvb & Heb).
  rewrite <- Hva, <- Hvb. apply div_RND; try assumption; lia.
Qed.

Lemma true_divide_0_l (b : Z) : 0 < b < 2 ^ 53 -> true_divide 0 b = S754_zero false.
Proof.
  intros Hb. destruct (of_int_pos b Hb) as (Hn & _). unfold true_divide.
  destruct (of_int b) as [| | |[] m e]; simpl in Hn; try contradiction. reflexivity.
Qed.

Lemma true_divide_self (n : Z) : 0 < n < 2 ^ 53 -> true_divide n n = of_int 1.
Proof.
  intros Hn. destruct (of_int_pos 1 ltac:(lia)) as (Hn1 & Hv1 & He1).
  apply RND_exact; [assumption|lia|].
  rewrite Hv1. replace 1%R with (IZR n / IZR n)%R.
  - apply true_divide_RND; assumption.
  - assert (0 < IZR n)%R by (apply IZR_lt; lia). field. lra.
Qed.

Lemma div_zero_nan_or_inf (x : float64) (s : bool) :
  is_nan (x / S754_zero s)%f64 || is_inf (x / S754_zero s)%f64 = true.
Proof. destruct x; reflexivity. Qed.

Lemma true_divide_0_r (a : Z) :
  is_nan (true_divide a 0) || is_inf (true_divide a 0) = true.
Proof. unfold true_divide. apply div_zero_nan_or_inf. Qed.


(** ** Comparisons *)

Lemma fle_normal (x y : float64) :
  normal x -> normal y -> (F2R x <= F2R y)%R -> fle x y = true.
Proof.
  intros Hx Hy Hle.
  pose proof (normal_bounds x Hx) as [Hx1 Hx2].
  pose proof (normal_bounds y Hy) as [Hy1 Hy2].
  destruct x as [| | |[] m1 e1]; simpl in Hx; try contradiction.
  destruct y as [| | |[] m2 e2]; simpl in Hy; try contradiction.
  simpl expo in *. unfold fle, SFleb, SFcompare.
  destruct (Z.compare_spec e1 e2) as [E|E|E]; [|reflexivity|].
  - subst e2. rewrite Pos.compare_cont_spec. simpl Pos.switch_Eq.
    destruct (Pos.compare_spec m1 m2) as [E|E|E]; try reflexivity.
    exfalso. unfold F2R in Hle. pose proof (bpow_pos e1).
    assert (IZR (Z.pos m2) < IZR (Z.pos m1))%R by (apply IZR_lt; lia). nra.
  - exfalso. pose proof (bpow_le (e2 + 53) (e1 + 52) ltac:(lia)). lra.
Qed.

Lemma fle_zero_normal (x : float64) : normal x -> fle (of_int 0) x = true.
Proof. destruct x as [| | |[] m e]; simpl; try contradiction. reflexivity. Qed.

Lemma true_divide_unit_interval (a b : Z) :
  0 <= a <= b -> 0 < b < 2 ^ 53 ->
  fle (of_int 0) (true_divide a b) = true /\
  fle (true_divide a b) (of_int 1) = true.
Proof.
  intros Ha Hb. destruct (Z.eq_dec a 0) as [->|Hne].
  - rewrite true_divide_0_l by assumption. split; reflexivity.
  - pose proof (true_divide_RND a b ltac:(lia) Hb) as Hr.
    pose proof (RND_normal _ _ Hr) as Hn.
    destruct (of_int_pos 1 ltac:(lia)) as (Hn1 & Hv1 & _).
    split; [apply fle_zero_normal; assumption|].
    apply fle_normal; try assumption.
    apply (RND_le _ _ _ Hr Hn1). rewrite Hv1.
    assert (0 < IZR b)%R by (apply IZR_lt; lia).
    assert (IZR a <= IZR b)%R by (apply IZR_le; lia).
    apply Rmult_le_reg_r with (IZR b); [lra|]. field_simplify; lra.
Qed.

Lemma score_lookup (observed predicted : list Z) (results : gmap string float64)
    (key : string) :
  calculate_accuracy observed predicted = Some results ->
  results !! key = score key observed predicted.
Proof. intros H. unfold score. rewrite H. reflexivity. Qed.

Lemma count_true_agreement_self (s : list Z) :
  count_true (agreement s s) = Z.of_nat (length s).
Proof.
  unfold agreement. induction s as [|x s IH]; [reflexivity|].
  cbn [zip_with length]. rewrite count_true_cons, IH, Z.eqb_refl, Nat2Z.inj_succ.
  simpl Z.b2z. lia.
Qed.

Lemma count_true_agreement_complement (s : list Z) :
  count_true (agreement s (complement s)) = 0.
Proof.
  unfold agreement, complement. induction s as [|x s IH]; [reflexivity|].
  cbn [fmap list_fmap zip_with]. rewrite count_true_cons. fold (fmap (λ x, 1 - x) s).
  rewrite IH. destruct (Z.eqb_spec (1 - x) x); [lia|reflexivity].
Qed.

Lemma length_agreement (o p : list Z) :
  length o = length p -> length (agreement o p) = length o.
Proof. intros H. unfold agreement. rewrite length_zip_with. lia. Qed.

Lemma length_complement (s : list Z) : length (complement s) = length s.
Proof. unfold complement. apply length_fmap. Qed.

Lemma length_eq_scalar (a : list Z) (k : Z) : length (eq_scalar a k) = length a.
Proof. unfold eq_scalar. apply length_fmap. Qed.

Lemma length_masks (o p : list Z) :
  length o = length p ->
  length (true_positives o p) = length o /\
  length (false_positives o p) = length o /\
  length (true_negatives o p) = length o.
Proof.
  intros H. unfold true_positives, false_positives, true_negatives, mask_eq_scalar, eq_scalar.
  rewrite !length_zip_with, !length_fmap. lia.
Qed.

Lemma nonempty_length {A} (l : list A) : l ≠ [] -> 0 < Z.of_nat (length l).
Proof. destruct l; [congruence|]. simpl. lia. Qed.

(** Closes [binary l] and similar [Forall] goals on a literal list. *)
Ltac solve_binary :=
  repeat (constructor; [first [left; reflexivity | right; reflexivity | reflexivity]|]);
  constructor.

Lemma lt_2_53_2_63 (n : Z) : n < 2 ^ 53 -> n < 2 ^ 63.
Proof. intros H. change (2 ^ 63) with (1024 * 2 ^ 53). lia. Qed.

(** On equal-length 0/1 inputs the int64 sums are the pair counts (an array
    has fewer than 2^63 entries, so no sum wraps around). *)
Lemma np_sum_counts (observed predicted : list Z) :
  length observed = length predicted -> binary observed -> binary predicted ->
  Z.of_nat (length observed) < 2 ^ 63 ->
  np_sum (true_positives observed predicted) = TP observed predicted /\
  np_sum (false_positives observed predicted) = FP observed predicted /\
  np_sum (true_negatives observed predicted) = TN observed predicted /\
  np_sum (eq_scalar observed 1) = TP observed predicted + FN observed predicted /\
  np_sum (eq_scalar observed 0) = TN observed predicted + FP observed predicted.
Proof.
  intros Hlen Ho Hp Hn.
  destruct (counts_masks _ _ Hlen Ho Hp) as (<- & <- & <- & <- & <- & _).
  destruct (length_masks _ _ Hlen) as (L1 & L2 & L3).
  repeat split; apply np_sum_count; rewrite ?L1, ?L2, ?L3, ?length_eq_scalar; lia.
Qed.

Lemma counts_nonneg (observed predicted : list Z) :
  0 <= TP observed predicted /\ 0 <= FP observed predicted /\
  0 <= TN observed predicted /\ 0 <= FN observed predicted.
Proof.
  unfold TP, FP, TN, FN, count_pairs.
  repeat split; apply count_true_bounds.
Qed.

(** ** Degenerate inputs *)

Lemma np_sum_all_false (m : list bool) :
  Forall (λ b, b = false) m -> np_sum m = 0.
Proof.
  unfold np_sum. induction 1 as [|b m -> _ IH]; [reflexivity|]. exact IH.
Qed.

Lemma eq_scalar_all_false (a : list Z) (k : Z) :
  k ∉ a -> Forall (λ b, b = false) (eq_scalar a k).
Proof.
  unfold eq_scalar. induction a as [|x a IH]; intros Hk; [constructor|].
  apply not_elem_of_cons in Hk as [Hx Ha].
  cbn [fmap list_fmap]. constructor; [|apply IH; assumption].
  apply Z.eqb_neq. congruence.
Qed.

Lemma count_true_eq_scalar_pos (a : list Z) (k : Z) :
  k ∈ a -> 0 < count_true (eq_scalar a k).
Proof.
  unfold eq_scalar. induction a as [|x a IH]; intros Hk.
  - apply elem_of_nil in Hk. contradiction.
  - cbn [fmap list_fmap]. rewrite count_true_cons.
    pose proof (count_true_bounds ((λ x, x =? k) <$> a)).
    apply elem_of_cons in Hk as [->|Hk].
    + rewrite Z.eqb_refl. simpl Z.b2z. lia.
    + specialize (IH Hk). destruct (x =? k); simpl Z.b2z; lia.
Qed.

Lemma count_true_all_false (m : list bool) :
  Forall (λ b, b = false) m -> count_true m = 0.
Proof. induction 1 as [|b m -> _ IH]; [reflexivity|]. rewrite count_true_cons, IH. reflexivity. Qed.

Lemma mul_two_nan_or_inf (x : float64) :
  nan_or_inf x = true -> nan_or_inf (of_int 2 * x)%f64 = true.
Proof. destruct x as [| [] | |]; try discriminate; intros _; reflexivity. Qed.

Lemma is_zero_div_nan_or_inf (x d : float64) :
  is_zero d = true -> nan_or_inf (x / d)%f64 = true.
Proof.
  destruct d; try discriminate. intros _. apply div_zero_nan_or_inf.
Qed.

Lemma true_divide_finite (a b : Z) :
  0 <= a < 2 ^ 53 -> 0 < b < 2 ^ 53 -> is_finite (true_divide a b) = true.
Proof.
  intros Ha Hb. destruct (Z.eq_dec a 0) as [->|Hne].
  - rewrite true_divide_0_l by assumption. reflexivity.
  - pose proof (RND_normal _ _ (true_divide_RND a b ltac:(lia) Hb)) as Hn.
    destruct (true_divide a b) as [| | |[] m e]; simpl in Hn; try contradiction.
    reflexivity.
Qed.

Lemma all_zero_binary (a : list Z) : Forall (λ x, x = 0) a -> binary a.
Proof. unfold binary. intros H. eapply Forall_impl; [exact H|]. simpl. auto. Qed.

Lemma all_zero_not_elem (a : list Z) : Forall (λ x, x = 0) a -> 1 ∉ a.
Proof.
  intros H Hin. rewrite Forall_forall in H. specialize (H 1 Hin). discriminate.
Qed.

Lemma count_true_all_zero (a : list Z) :
  Forall (λ x, x = 0) a -> count_true (eq_scalar a 0) = Z.of_nat (length a).
Proof.
  unfold eq_scalar. induction 1 as [|x a -> _ IH]; [reflexivity|].
  cbn [fmap list_fmap length]. rewrite count_true_cons, IH, Nat2Z.inj_succ.
  simpl. lia.
Qed.

(** ** F1 from two scores in (0, 1] *)

Lemma double_normal (x : float64) :
  normal x -> expo x <= 970 -> normal (double x) /\ F2R (double x) = (2 * F2R x)%R.
Proof.
  destruct x as [| | |[] m e]; simpl; try contradiction. intros [Hm He] He'.
  split; [lia|]. rewrite bpow_add, bpow_1. lra.
Qed.

Lemma of_int_2 : normal (of_int 2) /\ F2R (of_int 2) = 2%R /\ expo (of_int 2) = -51.
Proof.
  destruct (of_int_pos 2 ltac:(lia)) as (Hn & Hv & _).
  split; [exact Hn|]. split; [exact Hv|reflexivity].
Qed.

Lemma of_int_1 : normal (of_int 1) /\ F2R (of_int 1) = 1%R /\ expo (of_int 1) = -52.
Proof.
  destruct (of_int_pos 1 ltac:(lia)) as (Hn & Hv & _).
  split; [exact Hn|]. split; [exact Hv|reflexivity].
Qed.

Lemma bpow_m1 : bpow (-1) = (/ 2)%R.
Proof. change (-1) with (- (1)). rewrite bpow_neg, bpow_1. reflexivity. Qed.

Section F1.
Variables p r : float64.
Hypothesis Hp : normal p.
Hypothesis Hr : normal r.
Hypothesis Pb : (bpow (-53) <= F2R p <= bpow 0)%R.
Hypothesis Rb : (bpow (-53) <= F2R r <= bpow 0)%R.

Local Abbreviation pr := (SF64mul p r).
Local Abbreviation s := (SF64add p r).
Local Abbreviation q := (SF64div (SF64mul p r) (SF64add p r)).

Local Lemma f1_ep : -105 <= expo p <= -52.
Proof using Hp Pb. pose proof (normal_expo _ _ _ Hp Pb). lia. Qed.

Local Lemma f1_er : -105 <= expo r <= -52.
Proof using Hr Rb. pose proof (normal_expo _ _ _ Hr Rb). lia. Qed.

Local Lemma f1_pr_RND : RND (F2R p * F2R r) pr.
Proof using Hp Hr Pb Rb.
  pose proof f1_ep. pose proof f1_er. apply mul_RND; try assumption; lia.
Qed.

Local Lemma f1_pr_bounds : (bpow (-106) <= F2R pr <= bpow 0)%R.
Proof using Hp Hr Pb Rb.
  apply (RND_bounds _ _ _ _ f1_pr_RND); try lia.
  pose proof Pb as Pb'. pose proof Rb as Rb'. rewrite bpow_0 in Pb', Rb' |- *.
  change (-106) with (-53 + -53). rewrite bpow_add.
  pose proof (bpow_pos (-53)). nra.
Qed.

Local Lemma f1_pr_normal : normal pr.
Proof using Hp Hr Pb Rb. exact (RND_normal _ _ f1_pr_RND). Qed.

Local Lemma f1_pr_le : (F2R pr <= F2R p)%R /\ (F2R pr <= F2R r)%R.
Proof using Hp Hr Pb Rb.
  pose proof Pb as Pb'. pose proof Rb as Rb'. rewrite bpow_0 in Pb', Rb'.
  pose proof (bpow_pos (-53)).
  split; apply (RND_le _ _ _ f1_pr_RND); try assumption; nra.
Qed.

Local Lemma f1_s_RND : RND (F2R p + F2R r) s.
Proof using Hp Hr Pb Rb.
  pose proof f1_ep. pose proof f1_er. apply add_RND; try assumption; lia.
Qed.

Local Lemma f1_s_bounds : (bpow (-53) <= F2R s <= bpow 1)%R.
Proof using Hp Hr Pb Rb.
  apply (RND_bounds _ _ _ _ f1_s_RND); try lia.
  pose proof Pb as Pb'. pose proof Rb as Rb'. rewrite bpow_0 in Pb', Rb'.
  rewrite bpow_1. pose proof (bpow_pos (-53)). lra.
Qed.

Local Lemma f1_s_normal : normal s.
Proof using Hp Hr Pb Rb. exact (RND_normal _ _ f1_s_RND). Qed.

Local Lemma f1_s_ge : (2 * F2R pr <= F2R s)%R.
Proof using Hp Hr Pb Rb.
  pose proof f1_ep. pose proof f1_er. destruct f1_pr_le as [H1 H2].
  destruct (Rle_dec (F2R p) (F2R r)) as [Hle|Hgt].
  - destruct (double_normal p Hp ltac:(lia)) as [Hn Hv].
    apply Rle_trans with (F2R (double p)); [lra|].
    apply (RND_ge _ _ _ f1_s_RND Hn). lra.
  - destruct (double_normal r Hr ltac:(lia)) as [Hn Hv].
    apply Rle_trans with (F2R (double r)); [lra|].
    apply (RND_ge _ _ _ f1_s_RND Hn). lra.
Qed.

Local Lemma f1_q_RND : RND (F2R pr / F2R s) q.
Proof using Hp Hr Pb Rb.
  pose proof (normal_expo _ _ _ f1_pr_normal f1_pr_bounds).
  pose proof (normal_expo _ _ _ f1_s_normal f1_s_bounds).
  apply div_RND; [exact f1_pr_normal|exact f1_s_normal|lia|lia].
Qed.

Local Lemma f1_q_bounds : (bpow (-107) <= F2R q <= bpow (-1))%R.
Proof using Hp Hr Pb Rb.
  apply (RND_bounds _ _ _ _ f1_q_RND); try lia.
  pose proof f1_pr_bounds as [A1 A2]. pose proof f1_s_bounds as [B1 B2].
  pose proof f1_s_ge as C. pose proof (bpow_pos (-106)).
  assert (0 < F2R s)%R by lra.
  change (-107) with (-106 + -1). rewrite bpow_add. rewrite bpow_1 in B2.
  rewrite bpow_m1.
  split.
  - apply Rmult_le_reg_r with (F2R s); [assumption|]. field_simplify; [|lra]. nra.
  - apply Rmult_le_reg_r with (F2R s); [assumption|]. field_simplify; [|lra]. lra.
Qed.

Local Lemma f1_q_normal : normal q.
Proof using Hp Hr Pb Rb. exact (RND_normal _ _ f1_q_RND). Qed.

Lemma f1_RND : RND (2 * F2R q) (of_int 2 * q)%f64.
Proof using Hp Hr Pb Rb.
  destruct of_int_2 as (Hn2 & Hv2 & He2).
  pose proof (normal_expo _ _ _ f1_q_normal f1_q_bounds).
  rewrite <- Hv2. apply mul_RND; [exact Hn2|exact f1_q_normal|lia|lia].
Qed.

(** F1 computed from [p] and [r] lies in (0, 1]. *)
Lemma f1_unit_interval :
  fle (of_int 0) (of_int 2 * q)%f64 = true /\
  fle (of_int 2 * q)%f64 (of_int 1) = true.
Proof using Hp Hr Pb Rb.
  pose proof (RND_normal _ _ f1_RND) as Hn.
  destruct of_int_1 as (Hn1 & Hv1 & _).
  split; [apply fle_zero_normal; exact Hn|].
  apply fle_normal; [exact Hn|exact Hn1|].
  apply (RND_le _ _ _ f1_RND Hn1). rewrite Hv1.
  pose proof f1_q_bounds as [_ H].
  rewrite bpow_m1 in H. lra.
Qed.

(** The product may be doubled before or after the division. *)
Lemma f1_assoc :
  (of_int 2 * (p * r / (p + r)))%f64 = (of_int 2 * p * r / (p + r))%f64.
Proof using Hp Hr Pb Rb.
  destruct of_int_2 as (Hn2 & Hv2 & He2).
  pose proof f1_ep as Hep. pose proof f1_er as Her.
  (* 2 * p is p doubled *)
  destruct (double_normal p Hp ltac:(lia)) as [Hdn Hdv].
  assert (E2p : (of_int 2 * p)%f64 = double p).
  { apply RND_exact; [exact Hdn| |].
    - destruct p as [| | |[] m e]; simpl in Hp |- *; try contradiction.
      simpl in Hep. lia.
    - rewrite Hdv, <- Hv2. apply mul_RND; try assumption; lia. }
  assert (Hde : expo (double p) = expo p + 1).
  { destruct p as [| | |[] m e]; simpl in Hp |- *; try contradiction. reflexivity. }
  (* (2 * p) * r rounds twice the product *)
  assert (Hy2 : RND (2 * (F2R p * F2R r)) (of_int 2 * p * r)%f64).
  { rewrite E2p. replace (2 * (F2R p * F2R r))%R with (F2R (double p) * F2R r)%R
      by (rewrite Hdv; ring).
    apply mul_RND; try assumption; lia. }
  pose proof (RND_double _ _ _ f1_pr_RND Hy2) as Hv_y2.
  pose proof (RND_normal _ _ Hy2) as Hn_y2.
  assert (Hb_y2 : (bpow (-105) <= F2R (of_int 2 * p * r)%f64 <= bpow 1)%R).
  { rewrite Hv_y2. pose proof f1_pr_bounds as [A1 A2].
    change (-105) with (1 + -106). rewrite bpow_add, bpow_1.
    rewrite bpow_0 in A2. lra. }
  (* the quotient is doubled as well *)
  assert (Hq' : RND (2 * (F2R pr / F2R s)) (of_int 2 * p * r / (p + r))%f64).
  { replace (2 * (F2R pr / F2R s))%R
      with (F2R (of_int 2 * p * r)%f64 / F2R s)%R
      by (rewrite Hv_y2; unfold Rdiv; ring).
    pose proof (normal_expo _ _ _ Hn_y2 Hb_y2).
    pose proof (normal_expo _ _ _ f1_s_normal f1_s_bounds) as Hes.
    apply div_RND; [exact Hn_y2|exact f1_s_normal|lia|lia]. }
  pose proof (RND_double _ _ _ f1_q_RND Hq') as Hv_q'.
  pose proof (RND_normal _ _ Hq') as Hn_q'.
  apply RND_exact; [exact Hn_q'| |].
  - assert (bpow (-106) <= F2R (of_int 2 * p * r / (p + r))%f64 <= bpow 0)%R.
    { rewrite Hv_q'. pose proof f1_q_bounds as [B1 B2].
      change (-106) with (1 + -107). rewrite bpow_add, bpow_1, bpow_0.
      rewrite bpow_m1 in B2. lra. }
    pose proof (normal_expo _ _ _ Hn_q' H). lia.
  - rewrite Hv_q'. exact f1_RND.
Qed.
End F1.

Lemma true_divide_cases (a b : Z) :
  0 <= a <= b -> b < 2 ^ 53 ->
  (a = 0 /\ b = 0 /\ true_divide a b = S754_nan) \/
  (a = 0 /\ 0 < b /\ true_divide a b = S754_zero false) \/
  (0 < a /\ normal (true_divide a b) /\
   (bpow (-53) <= F2R (true_divide a b) <= bpow 0)%R).
Proof.
  intros Ha Hb.
  destruct (Z.eq_dec a 0) as [->|Hne].
  - destruct (Z.eq_dec b 0) as [->|Hnb].
    + left. split; [reflexivity|]. split; reflexivity.
    + right. left. split; [reflexivity|]. split; [lia|]. apply true_divide_0_l. lia.
  - right. right.
    pose proof (true_divide_RND a b ltac:(lia) ltac:(lia)) as Hr.
    split; [lia|]. split; [exact (RND_normal _ _ Hr)|].
    apply (RND_bounds _ _ _ _ Hr); try lia.
    assert (0 < IZR b)%R by (apply IZR_lt; lia).
    assert (1 <= IZR a)%R by (apply IZR_le; lia).
    assert (IZR a <= IZR b)%R by (apply IZR_le; lia).
    assert (IZR b <= IZR (2 ^ 53))%R by (apply IZR_le; lia).
    rewrite <- (bpow_IZR 53) in H2 by lia.
    pose proof (bpow_opp 53) as Ho. change (- (53)) with (-53) in Ho.
    pose proof (bpow_pos 53). pose proof (bpow_pos (-53)).
    rewrite bpow_0. split.
    + apply Rmult_le_reg_r with (IZR b); [assumption|]. field_simplify; [|lra].
      nra.
    + apply Rmult_le_reg_r with (IZR b); [assumption|]. field_simplify; lra.
Qed.

(** The F1 of the code and of the specification agree on any two quotients of
    counts with a common numerator. *)
Lemma f1_assoc_counts (a b c : Z) :
  0 <= a <= b -> b < 2 ^ 53 -> a <= c -> c < 2 ^ 53 ->
  (of_int 2 * (true_divide a b * true_divide a c
               / (true_divide a b + true_divide a c)))%f64
  = (of_int 2 * true_divide a b * true_divide a c
     / (true_divide a b + true_divide a c))%f64.
Proof.
  intros Hab Hb Hac Hc.
  destruct (true_divide_cases a b Hab Hb) as [(Ea & _ & ->)|[(Ea & _ & ->)|(Ha & Hn1 & Hb1)]];
  destruct (true_divide_cases a c ltac:(lia) Hc) as [(Ea' & _ & ->)|[(Ea' & _ & ->)|(Ha' & Hn2 & Hb2)]];
    try lia; try reflexivity.
  apply f1_assoc; assumption.
Qed.

Lemma in_unit_interval_intro (x : float64) :
  fle (of_int 0) x = true -> fle x (of_int 1) = true -> in_unit_interval x = true.
Proof. intros H0 H1. unfold in_unit_interval. apply andb_true_intro. split; assumption. Qed.

Lemma true_divide_in_unit (a b : Z) :
  0 <= a <= b -> 0 < b < 2 ^ 53 -> in_unit_interval (true_divide a b) = true.
Proof.
  intros Ha Hb. destruct (true_divide_unit_interval a b Ha Hb).
  apply in_unit_interval_intro; assumption.
Qed.

(** The code's local scores as quotients of the pair counts. *)
Lemma scores_as_count_quotients (observed predicted : list Z) :
  length observed = length predicted ->
  binary observed -> binary predicted ->
  Z.of_nat (length observed) < 2 ^ 53 ->
  np_mean (agreement observed predicted)
  = Spec.accuracy (TP observed predicted) (FP observed predicted)
                  (TN observed predicted) (FN observed predicted) /\
  precision observed predicted
  = Spec.precision (TP observed predicted) (FP observed predicted) /\
  recall observed predicted
  = Spec.recall (TP observed predicted) (FN observed predicted) /\
  specificity observed predicted
  = Spec.specificity (FP observed predicted) (TN observed predicted).
Proof.
  intros Hlen Ho Hp Hn.
  destruct (counts_masks _ _ Hlen Ho Hp) as (_ & _ & _ & _ & _ & _ & _ & Eag & EN).
  destruct (counts_nonneg observed predicted) as (HTP & HFP & HTN & HFN).
  destruct (np_sum_counts _ _ Hlen Ho Hp (lt_2_53_2_63 _ Hn)) as (E1 & E2 & E3 & E4 & E5).
  unfold precision, recall, specificity. rewrite E1, E2, E3, E4, E5.
  repeat apply conj; try reflexivity.
  - rewrite np_mean_count by (rewrite length_agreement; assumption).
    rewrite Eag, length_agreement, EN by assumption. reflexivity.
  - unfold int64_add. rewrite wrap64_small; [reflexivity|].
    change (2 ^ 63) with (1024 * 2 ^ 53). lia.
Qed.

(** ** Complementary rates add up to one *)

Lemma rnd_floor (q D T : Z) : 0 < D -> 0 <= T -> 2 * T < D -> rnd (q * D + T) D = q.
Proof.
  intros HD HT H2. unfold rnd.
  rewrite Z.div_add_l, Z.div_small, Z.add_0_r by lia.
  rewrite Z.add_comm, Z.mod_add, Z.mod_small by lia.
  destruct (Z.compare_spec (2 * T) D); lia.
Qed.

Lemma rnd_ceil_odd (q D T : Z) :
  0 < D -> 0 < T -> 2 * T <= D -> Z.odd q = true ->
  rnd ((q + 1) * D - T) D = q + 1.
Proof.
  intros HD HT H2 Hodd. unfold rnd.
  replace ((q + 1) * D - T) with (q * D + (D - T)) by ring.
  rewrite Z.div_add_l, Z.div_small, Z.add_0_r by lia.
  rewrite Z.add_comm, Z.mod_add, Z.mod_small by lia.
  rewrite <- Z.negb_odd, Hodd. simpl negb.
  destruct (Z.compare_spec (2 * (D - T)) D); lia.
Qed.

Lemma add_comm_normal (x y : float64) :
  normal x -> normal y -> expo x <= 900 -> expo y <= 900 ->
  (x + y)%f64 = (y + x)%f64.
Proof.
  intros Hx Hy Ex Ey. apply (RND_fun (F2R x + F2R y)).
  - apply add_RND; try assumption; lia.
  - rewrite Rplus_comm. apply add_RND; try assumption; lia.
Qed.

Lemma true_divide_witness (a n K : Z) :
  0 < a < 2 ^ 53 -> 0 < n < 2 ^ 53 -> 0 <= K ->
  2 ^ 52 * n <= a * 2 ^ K < 2 ^ 53 * n ->
  true_divide a n = norm false (rnd (a * 2 ^ K) n) (- K) /\ K <= 1074.
Proof.
  intros Ha Hn HK HN.
  pose proof (true_divide_RND a n Ha Hn) as Hr.
  assert (Hv : (IZR a / IZR n = IZR (a * 2 ^ K) / IZR n * bpow (- K))%R).
  { rewrite mult_IZR, <- bpow_IZR, bpow_neg by lia.
    pose proof (bpow_pos K). assert (0 < IZR n)%R by (apply IZR_lt; lia).
    field. split; lra. }
  destruct (RND_witness _ _ (a * 2 ^ K) n (- K) Hr ltac:(lia) HN Hv) as [He E].
  split; [exact E|lia].
Qed.

Lemma true_divide_small_witness (a n : Z) :
  0 < a -> 2 * a < n -> n < 2 ^ 53 ->
  exists K, 54 <= K /\ 2 ^ 52 * n <= a * 2 ^ K < 2 ^ 53 * n.
Proof.
  intros Ha Han Hn.
  pose proof (true_divide_RND a n ltac:(lia) ltac:(lia)) as (N & D & e & HD & HN & He & Hv & _).
  pose proof (RND_range N D e HD HN) as [H1 H2]. rewrite <- Hv in H1, H2.
  assert (Hn0 : (0 < IZR n)%R) by (apply IZR_lt; lia).
  assert (Hhalf : (IZR a / IZR n < bpow (-1))%R).
  { rewrite bpow_m1. apply Rmult_lt_reg_r with (IZR n); [assumption|].
    field_simplify; [|lra]. assert (IZR (2 * a) < IZR n)%R by (apply IZR_lt; lia).
    rewrite mult_IZR in H. lra. }
  assert (e + 52 < -1) by (apply bpow_lt_inv; lra).
  exists (- e). split; [lia|].
  assert (E52 : (bpow (e + 52) * bpow (- e) = IZR (2 ^ 52))%R).
  { rewrite <- bpow_add, <- bpow_IZR by lia. f_equal. lia. }
  assert (E53 : (bpow (e + 53) * bpow (- e) = IZR (2 ^ 53))%R).
  { rewrite <- bpow_add, <- bpow_IZR by lia. f_equal. lia. }
  pose proof (bpow_pos (- e)) as Hpe.
  assert (Hq : (IZR a / IZR n * IZR n = IZR a)%R) by (field; lra).
  split.
  - apply le_IZR. rewrite !mult_IZR, <- (bpow_IZR (- e)) by lia.
    rewrite <- E52.
    apply Rmult_le_compat_r with (r := (IZR n * bpow (- e))%R) in H1; [|nra].
    nra.
  - apply lt_IZR. rewrite !mult_IZR, <- (bpow_IZR (- e)) by lia.
    rewrite <- E53.
    apply Rmult_lt_compat_r with (r := (IZR n * bpow (- e))%R) in H2; [|nra].
    nra.
Qed.

Lemma rates_sum_lt (a b n : Z) :
  0 < a -> a < b -> a + b = n -> n < 2 ^ 53 ->
  (true_divide a n + true_divide b n)%f64 = of_int 1.
Proof.
  intros Ha Hab Hsum Hn.
  destruct (true_divide_small_witness a n Ha ltac:(lia) Hn) as (K & HK & HNa).
  destruct (true_divide_witness a n K ltac:(lia) ltac:(lia) ltac:(lia) HNa) as [Ex HK'].
  assert (HNb : 2 ^ 52 * n <= b * 2 ^ 53 < 2 ^ 53 * n).
  { change (2 ^ 53) with (2 * 2 ^ 52) at 1 3. lia. }
  destruct (true_divide_witness b n 53 ltac:(lia) ltac:(lia) ltac:(lia) HNb) as [Ey _].
  set (Mx := rnd (a * 2 ^ K) n) in *. set (My := rnd (b * 2 ^ 53) n) in *.
  assert (HMx : 2 ^ 52 <= Mx <= 2 ^ 53) by (split; [apply rnd_ge|apply rnd_le]; lia).
  assert (HMy : 2 ^ 52 <= My <= 2 ^ 53) by (split; [apply rnd_ge|apply rnd_le]; lia).
  pose proof (rnd_error (a * 2 ^ K) n ltac:(lia)) as Herx. fold Mx in Herx.
  pose proof (rnd_error (b * 2 ^ 53) n ltac:(lia)) as Hery. fold My in Hery.
  destruct (norm_normal Mx (- K) HMx ltac:(lia)) as [Hnx Hvx].
  destruct (norm_normal My (- (53)) HMy ltac:(lia)) as [Hny Hvy].
  rewrite <- Ex in Hnx, Hvx. rewrite <- Ey in Hny, Hvy.
  set (k := K - 53). assert (Hk : 1 <= k) by (unfold k; lia).
  set (h := 2 ^ (k - 1)). assert (Hh : 0 < h) by (apply pow2_pos; lia).
  assert (E2k : 2 ^ k = 2 * h).
  { unfold h. rewrite <- Z.pow_succ_r by lia. f_equal. lia. }
  assert (E2K : 2 ^ K = 2 ^ 53 * (2 * h)).
  { rewrite <- E2k, <- pow2_split by lia. f_equal. unfold k. lia. }
  set (T := Mx + My * (2 * h) - 2 ^ 53 * (2 * h)).
  assert (HT : - h <= T <= h).
  { rewrite E2K in Herx.
    assert (ETn : T * n = (Mx * n - a * (2 ^ 53 * (2 * h)))
                          + (2 * h) * (My * n - b * 2 ^ 53)).
    { unfold T. subst n. ring. }
    set (ex := Mx * n - a * (2 ^ 53 * (2 * h))) in *.
    set (ey := My * n - b * 2 ^ 53) in *.
    assert (0 <= h * (n - 2 * ey)) by (apply Z.mul_nonneg_nonneg; lia).
    assert (0 <= h * (n + 2 * ey)) by (apply Z.mul_nonneg_nonneg; lia).
    assert (Hb : - (n + 2 * h * n) <= 2 * (T * n) <= n + 2 * h * n) by lia.
    split.
    - destruct (Z_le_gt_dec (- h) T) as [|Hc]; [assumption|exfalso].
      assert (n * (- h - 1 - T) >= 0) by (apply Z.le_ge, Z.mul_nonneg_nonneg; lia).
      lia.
    - destruct (Z_le_gt_dec T h) as [|Hc]; [assumption|exfalso].
      assert (n * (T - h - 1) >= 0) by (apply Z.le_ge, Z.mul_nonneg_nonneg; lia).
      lia. }
  (* the exact sum *)
  assert (Hsumv : (F2R (true_divide a n) + F2R (true_divide b n)
                   = IZR (2 ^ 53 * (2 * h) + T) * bpow (- K))%R).
  { rewrite Hvx, Hvy. unfold T.
    replace (2 ^ 53 * (2 * h) + (Mx + My * (2 * h) - 2 ^ 53 * (2 * h)))
      with (Mx + My * 2 ^ k) by (rewrite E2k; ring).
    rewrite plus_IZR, mult_IZR, <- bpow_IZR by lia.
    replace (- K) with (- (53) + - k) by (unfold k; lia).
    rewrite bpow_add, (bpow_neg k). pose proof (bpow_pos k). field. lra. }
  assert (Hadd : RND (F2R (true_divide a n) + F2R (true_divide b n))
                     (true_divide a n + true_divide b n)%f64).
  { destruct (true_divide_cases a n ltac:(lia) Hn) as [?|[?|(_ & _ & Bx)]]; try lia.
    destruct (true_divide_cases b n ltac:(lia) Hn) as [?|[?|(_ & _ & By)]]; try lia.
    pose proof (normal_expo _ _ _ Hnx Bx). pose proof (normal_expo _ _ _ Hny By).
    apply add_RND; try assumption. lia. }
  rewrite Hsumv in Hadd.
  destruct (Z_le_gt_dec 0 T) as [HT0|HT0].
  - (* at or just above one *)
    assert (Hv : (IZR (2 ^ 53 * (2 * h) + T) * bpow (- K)
                  = IZR (2 ^ 53 * (2 * h) + T) / IZR (4 * h) * bpow (- (52)))%R).
    { replace (- K) with (- (52) + - (k + 1)) by (unfold k; lia).
      rewrite bpow_add, (bpow_neg (k + 1)), (bpow_IZR (k + 1)) by lia.
      replace (2 ^ (k + 1)) with (4 * h)
        by (rewrite pow2_split, E2k by lia; change (2 ^ 1) with 2; ring).
      assert (0 < IZR (4 * h))%R by (apply IZR_lt; lia).
      field. lra. }
    rewrite Hv in Hadd.
    assert (HD : 0 < 4 * h) by lia.
    assert (HN : 2 ^ 52 * (4 * h) <= 2 ^ 53 * (2 * h) + T < 2 ^ 53 * (4 * h))
      by (change (2 ^ 53) with (2 * 2 ^ 52); lia).
    rewrite (RND_unique _ _ _ (4 * h) (- (52)) Hadd HD HN eq_refl).
    replace (2 ^ 53 * (2 * h) + T) with (2 ^ 52 * (4 * h) + T)
      by (change (2 ^ 53) with (2 * 2 ^ 52); ring).
    rewrite rnd_floor by lia. reflexivity.
  - (* just below one *)
    assert (Hv : (IZR (2 ^ 53 * (2 * h) + T) * bpow (- K)
                  = IZR (2 ^ 53 * (2 * h) + T) / IZR (2 * h) * bpow (- (53)))%R).
    { replace (- K) with (- (53) + - k) by (unfold k; lia).
      rewrite bpow_add, (bpow_neg k), (bpow_IZR k), E2k by lia.
      assert (0 < IZR (2 * h))%R by (apply IZR_lt; lia).
      field. lra. }
    rewrite Hv in Hadd.
    assert (HD : 0 < 2 * h) by lia.
    assert (HN : 2 ^ 52 * (2 * h) <= 2 ^ 53 * (2 * h) + T < 2 ^ 53 * (2 * h))
      by (change (2 ^ 53) with (2 * 2 ^ 52); lia).
    rewrite (RND_unique _ _ _ (2 * h) (- (53)) Hadd HD HN eq_refl).
    replace (2 ^ 53 * (2 * h) + T) with ((2 ^ 53 - 1 + 1) * (2 * h) - (- T)) by ring.
    rewrite rnd_ceil_odd by (try reflexivity; lia). reflexivity.
Qed.

Lemma true_divide_half (k : Z) : 0 < k -> 2 * k < 2 ^ 53 -> true_divide k (2 * k) = pow2f (-1).
Proof.
  intros Hk Hn. destruct (pow2f_normal (-1) ltac:(lia)) as [Hnh Hvh].
  apply RND_exact; [exact Hnh|simpl; lia|].
  rewrite Hvh, bpow_m1.
  replace (/ 2)%R with (IZR k / IZR (2 * k))%R.
  - apply true_divide_RND; lia.
  - rewrite mult_IZR. assert (0 < IZR k)%R by (apply IZR_lt; lia). field. lra.
Qed.

Lemma rates_sum (k n : Z) :
  0 <= k <= n -> 0 < n < 2 ^ 53 ->
  (true_divide k n + true_divide (n - k) n)%f64 = of_int 1.
Proof.
  intros Hk Hn.
  destruct (Z.eq_dec k 0) as [->|Hk0].
  { rewrite Z.sub_0_r, true_divide_0_l, true_divide_self by lia. reflexivity. }
  destruct (Z.eq_dec k n) as [->|Hkn].
  { rewrite Z.sub_diag, true_divide_0_l, true_divide_self by lia. reflexivity. }
  destruct (Z.lt_trichotomy k (n - k)) as [Hlt|[Heq|Hgt]].
  - apply rates_sum_lt; lia.
  - replace n with (2 * k) at 1 3 by lia. replace (n - k) with k by lia.
    rewrite true_divide_half by lia. reflexivity.
  - destruct (true_divide_cases k n ltac:(lia) ltac:(lia)) as [?|[?|(_ & N1 & B1)]]; try lia.
    destruct (true_divide_cases (n - k) n ltac:(lia) ltac:(lia)) as [?|[?|(_ & N2 & B2)]]; try lia.
    pose proof (normal_expo _ _ _ N1 B1). pose proof (normal_expo _ _ _ N2 B2).
    rewrite add_comm_normal by (try assumption; lia).
    apply rates_sum_lt; lia.
Qed.

Lemma count_true_eq_scalar_binary (a : list Z) :
  binary a ->
  count_true (eq_scalar a 0) = Z.of_nat (length a) - count_true (eq_scalar a 1).
Proof.
  unfold eq_scalar. induction a as [|x a IH]; intros Ha; [reflexivity|].
  apply binary_cons in Ha as [Hx Ha]. specialize (IH Ha).
  cbn [fmap list_fmap length]. rewrite !count_true_cons, Nat2Z.inj_succ, IH.
  destruct Hx as [-> | ->]; simpl Z.b2z; lia.
Qed.

(** * Properties of [calculate_accuracy] *)

(** C1.  The literal example: for observed = [1,1,0,0,1] and
    predicted = [1,0,0,1,1] the call returns a dictionary in which accuracy
    is the float 0.6, precision, recall and F1 are the float 2/3, F1 is also
    what [2*precision*recall/(precision+recall)] evaluates to, specificity is
    0.5, and the pair counts are TP = 2, FP = 1, FN = 1, TN = 1. *)
Theorem C1_literal_example :
  exists results : gmap string float64,
    calculate_accuracy [1;1;0;0;1] [1;0;0;1;1] = Some results /\
    results !! "accuracy" = Some (Prim2SF 0.6) /\
    results !! "precision" = Some (Prim2SF (2 / 3)) /\
    results !! "recall" = Some (Prim2SF (2 / 3)) /\
    results !! "f1" = Some (Prim2SF (2 / 3)) /\
    results !! "specificity" = Some (Prim2SF 0.5) /\
    (forall P R : float64,
        results !! "precision" = Some P -> results !! "recall" = Some R ->
        results !! "f1" = Some (of_int 2 * P * R / (P + R))%f64) /\
    TP [1;1;0;0;1] [1;0;0;1;1] = 2 /\
    FP [1;1;0;0;1] [1;0;0;1;1] = 1 /\
    FN [1;1;0;0;1] [1;0;0;1;1] = 1 /\
    TN [1;1;0;0;1] [1;0;0;1;1] = 1.
Proof.
  destruct (calculate_accuracy_returns [1;1;0;0;1] [1;0;0;1;1] eq_refl) as [r Hr].
  exists r. split; [exact Hr|].
  rewrite !(score_lookup _ _ r _ Hr).
  rewrite score_accuracy, score_precision, score_recall, score_f1,
    score_specificity by reflexivity.
  repeat apply conj; try (intros P R [= <-] [= <-]); vm_compute; reflexivity.
Qed.

(** C2.  On equal-length inputs the call never raises: it returns a
    dictionary holding all eighteen keys, and a zero denominator shows up as
    NaN or an infinity in the scores it feeds.  With no observed positives
    that is recall (and its aliases), positive_predictive_value and
    negative_predictive_value; with no observed negatives, specificity (and
    its alias); and when precision + recall is zero, F1. *)
Theorem C2_never_raises (observed predicted : list Z) :
  length observed = length predicted ->
  exists results : gmap string float64,
    calculate_accuracy observed predicted = Some results /\
    Forall (λ key, is_Some (results !! key)) result_keys /\
    (1 ∉ observed ->
     Forall (λ key, exists v, results !! key = Some v /\ nan_or_inf v = true)
       ["recall"; "sensitivity"; "true_positive_rate";
        "positive_predictive_value"; "negative_predictive_value"]) /\
    (0 ∉ observed ->
     Forall (λ key, exists v, results !! key = Some v /\ nan_or_inf v = true)
       ["specificity"; "true_negative_rate"]) /\
    (forall P R : float64,
        results !! "precision" = Some P -> results !! "recall" = Some R ->
        is_zero (P + R)%f64 = true ->
        exists v, results !! "f1" = Some v /\ nan_or_inf v = true).
Proof.
  intros Hlen.
  destruct (calculate_accuracy_returns observed predicted Hlen) as [r Hr].
  exists r. split; [exact Hr|].
  unfold result_keys. rewrite !Forall_cons, !Forall_nil.
  rewrite !(score_lookup _ _ r _ Hr).
  rewrite score_observed_positive_rate, score_observed_negative_rate,
    score_predicted_positive_rate, score_predicted_negative_rate,
    score_accuracy, score_precision, score_recall, score_f1, score_sensitivity,
    score_specificity, score_positive_likelihood, score_negative_likelihood,
    score_false_positive_rate, score_false_negative_rate,
    score_true_positive_rate, score_true_negative_rate,
    score_positive_predictive_value, score_negative_predictive_value
    by assumption.
  split; [repeat split; eexists; reflexivity|].
  split; [|split].
  - intros H1. unfold recall.
    rewrite (np_sum_all_false (eq_scalar observed 1))
      by (apply eq_scalar_all_false; assumption).
    repeat split; eexists; (split; [reflexivity|apply true_divide_0_r]).
  - intros H0. unfold specificity.
    rewrite (np_sum_all_false (eq_scalar observed 0))
      by (apply eq_scalar_all_false; assumption).
    repeat split; eexists; (split; [reflexivity|apply true_divide_0_r]).
  - intros P R [= <-] [= <-] Hz. eexists. split; [reflexivity|].
    unfold f1. apply mul_two_nan_or_inf, is_zero_div_nan_or_inf. exact Hz.
Qed.

Lemma C2_never_raises_witness :
  exists results : gmap string float64,
    calculate_accuracy [0;0;0;0] [0;0;1;0] = Some results /\
    Forall (λ key, is_Some (results !! key)) result_keys /\
    (1 ∉ [0;0;0;0] ->
     Forall (λ key, exists v, results !! key = Some v /\ nan_or_inf v = true)
       ["recall"; "sensitivity"; "true_positive_rate";
        "positive_predictive_value"; "negative_predictive_value"]) /\
    (0 ∉ [0;0;0;0] ->
     Forall (λ key, exists v, results !! key = Some v /\ nan_or_inf v = true)
       ["specificity"; "true_negative_rate"]) /\
    (forall P R : float64,
        results !! "precision" = Some P -> results !! "recall" = Some R ->
        is_zero (P + R)%f64 = true ->
        exists v, results !! "f1" = Some v /\ nan_or_inf v = true).
Proof. apply C2_never_raises. reflexivity. Defined.

(** C3 (as stated, refuted).  With observed = [0,0,0,0] and
    predicted = [0,0,1,0] there is no observed positive, yet precision is
    0/1 = 0.0 and not NaN: its denominator counts the predicted positives. *)
Lemma C3_precision_not_nan :
  length [0;0;0;0] = length [0;0;1;0] /\
  Forall (λ x, x = 0) [0;0;0;0] /\ binary [0;0;1;0] /\
  score "precision" [0;0;0;0] [0;0;1;0] = Some (Prim2SF 0) /\
  is_nan (Prim2SF 0) = false.
Proof.
  split; [reflexivity|]. split; [solve_binary|]. split; [solve_binary|].
  rewrite score_precision by reflexivity. split; vm_compute; reflexivity.
Qed.

(** C3 (amended).  For every non-empty all-zero observed sequence and every
    0/1 predicted sequence of the same length (shorter than 2^53 entries),
    recall and positive_predictive_value are NaN, precision is NaN when
    predicted holds no 1 and 0.0 when it holds one, and specificity is a
    finite float. *)
Theorem C3_no_observed_positives (observed predicted : list Z) :
  length observed = length predicted -> observed ≠ [] ->
  Forall (λ x, x = 0) observed -> binary predicted ->
  Z.of_nat (length observed) < 2 ^ 53 ->
  score "recall" observed predicted = Some S754_nan /\
  score "positive_predictive_value" observed predicted = Some S754_nan /\
  score "precision" observed predicted
  = Some (if decide (1 ∈ predicted) then Prim2SF 0 else S754_nan) /\
  exists v, score "specificity" observed predicted = Some v /\ is_finite v = true.
Proof.
  intros Hlen Hne Hz Hp Hn.
  pose proof (all_zero_binary _ Hz) as Ho.
  rewrite score_recall, score_positive_predictive_value, score_precision,
    score_specificity by assumption.
  unfold recall, precision, specificity.
  destruct (np_sum_counts _ _ Hlen Ho Hp (lt_2_53_2_63 _ Hn)) as (-> & -> & -> & -> & ->).
  destruct (counts_masks _ _ Hlen Ho Hp) as (_ & _ & _ & E1 & E0 & Ep & _).
  destruct (counts_nonneg observed predicted) as (HTP & HFP & HTN & HFN).
  rewrite count_true_all_false in E1
    by (apply eq_scalar_all_false, all_zero_not_elem; assumption).
  rewrite count_true_all_zero in E0 by assumption.
  pose proof (nonempty_length _ Hne) as Hpos.
  pose proof (count_true_bounds (eq_scalar predicted 1)) as Hb.
  rewrite length_eq_scalar, <- Hlen in Hb.
  assert (ETP : TP observed predicted = 0) by lia. rewrite ETP in *.
  assert (EFN : FN observed predicted = 0) by lia. rewrite EFN.
  unfold int64_add. rewrite wrap64_small by (change (2 ^ 63) with (1024 * 2 ^ 53); lia).
  repeat split.
  - destruct (decide (1 ∈ predicted)) as [Hin|Hin].
    + apply count_true_eq_scalar_pos in Hin.
      rewrite true_divide_0_l by lia. reflexivity.
    + apply (eq_scalar_all_false _ 1), count_true_all_false in Hin.
      replace (0 + FP observed predicted) with 0 by lia. reflexivity.
  - eexists. split; [reflexivity|]. apply true_divide_finite; lia.
Qed.

Lemma C3_no_observed_positives_witness :
  score "recall" [0;0;0;0] [0;0;1;0] = Some S754_nan /\
  score "positive_predictive_value" [0;0;0;0] [0;0;1;0] = Some S754_nan /\
  score "precision" [0;0;0;0] [0;0;1;0]
  = Some (if decide (1 ∈ [0;0;1;0]) then Prim2SF 0 else S754_nan) /\
  exists v, score "specificity" [0;0;0;0] [0;0;1;0] = Some v /\ is_finite v = true.
Proof.
  apply C3_no_observed_positives;
    [reflexivity|discriminate|solve_binary|solve_binary|reflexivity].
Defined.

(** C4.  On equal-length 0/1 inputs (shorter than 2^53 entries) the returned
    scores are the specification's defining formulas evaluated in float64
    over the pair counts TP, FP, TN, FN: accuracy = (TP+TN)/N with
    N = TP+FP+TN+FN, precision = TP/(TP+FP), recall = TP/(TP+FN),
    F1 = 2*precision*recall/(precision+recall), specificity = TN/(TN+FP),
    positive_likelihood = recall/(1-specificity),
    negative_likelihood = (1-recall)/specificity,
    false_positive_rate = 1-specificity, false_negative_rate = 1-recall.
    The equalities are identities of floats, so they hold in particular
    whenever the denominators are nonzero. *)
Theorem C4_defining_equations (observed predicted : list Z) :
  length observed = length predicted ->
  binary observed -> binary predicted ->
  Z.of_nat (length observed) < 2 ^ 53 ->
  score "accuracy" observed predicted
  = Some (Spec.accuracy (TP observed predicted) (FP observed predicted)
                        (TN observed predicted) (FN observed predicted)) /\
  score "precision" observed predicted
  = Some (Spec.precision (TP observed predicted) (FP observed predicted)) /\
  score "recall" observed predicted
  = Some (Spec.recall (TP observed predicted) (FN observed predicted)) /\
  score "f1" observed predicted
  = Some (Spec.f1 (TP observed predicted) (FP observed predicted)
                  (FN observed predicted)) /\
  score "specificity" observed predicted
  = Some (Spec.specificity (FP observed predicted) (TN observed predicted)) /\
  score "positive_likelihood" observed predicted
  = Some (Spec.positive_likelihood (TP observed predicted) (FP observed predicted)
            (TN observed predicted) (FN observed predicted)) /\
  score "negative_likelihood" observed predicted
  = Some (Spec.negative_likelihood (TP observed predicted) (FP observed predicted)
            (TN observed predicted) (FN observed predicted)) /\
  score "false_positive_rate" observed predicted
  = Some (Spec.false_positive_rate (FP observed predicted) (TN observed predicted)) /\
  score "false_negative_rate" observed predicted
  = Some (Spec.false_negative_rate (TP observed predicted) (FN observed predicted)).
Proof.
  intros Hlen Ho Hp Hn.
  rewrite score_accuracy, score_precision, score_recall, score_f1,
    score_specificity, score_positive_likelihood, score_negative_likelihood,
    score_false_positive_rate, score_false_negative_rate by assumption.
  destruct (scores_as_count_quotients observed predicted Hlen Ho Hp Hn)
    as (Eacc & Eprec & Erec & Espec).
  destruct (counts_masks _ _ Hlen Ho Hp) as (_ & _ & _ & _ & _ & _ & _ & _ & EN).
  destruct (counts_nonneg observed predicted) as (HTP & HFP & HTN & HFN).
  unfold f1. rewrite Eacc, Eprec, Erec, Espec.
  repeat apply conj; try reflexivity.
  f_equal. unfold Spec.f1, Spec.precision, Spec.recall.
  apply f1_assoc_counts; lia.
Qed.

Lemma C4_defining_equations_witness :
  score "accuracy" [1;1;0;0;1] [1;0;0;1;1]
  = Some (Spec.accuracy (TP [1;1;0;0;1] [1;0;0;1;1]) (FP [1;1;0;0;1] [1;0;0;1;1])
                        (TN [1;1;0;0;1] [1;0;0;1;1]) (FN [1;1;0;0;1] [1;0;0;1;1])).
Proof.
  apply (C4_defining_equations [1;1;0;0;1] [1;0;0;1;1]);
    [reflexivity|solve_binary|solve_binary|reflexivity].
Defined.

(** C5.  On equal-length non-empty 0/1 inputs (shorter than 2^53 entries)
    accuracy satisfies [0 <= accuracy <= 1]; so do precision, recall and
    specificity when their denominators TP+FP, TP+FN and TN+FP are nonzero,
    and F1 when its denominator precision + recall is a finite nonzero
    float. *)
Theorem C5_unit_interval (observed predicted : list Z) :
  length observed = length predicted -> observed ≠ [] ->
  binary observed -> binary predicted ->
  Z.of_nat (length observed) < 2 ^ 53 ->
  (exists v, score "accuracy" observed predicted = Some v /\
             in_unit_interval v = true) /\
  (TP observed predicted + FP observed predicted ≠ 0 ->
   exists v, score "precision" observed predicted = Some v /\
             in_unit_interval v = true) /\
  (TP observed predicted + FN observed predicted ≠ 0 ->
   exists v, score "recall" observed predicted = Some v /\
             in_unit_interval v = true) /\
  (TN observed predicted + FP observed predicted ≠ 0 ->
   exists v, score "specificity" observed predicted = Some v /\
             in_unit_interval v = true) /\
  (forall P R : float64,
      score "precision" observed predicted = Some P ->
      score "recall" observed predicted = Some R ->
      is_finite (P + R)%f64 = true -> is_zero (P + R)%f64 = false ->
      exists v, score "f1" observed predicted = Some v /\
                in_unit_interval v = true).
Proof.
  intros Hlen Hne Ho Hp Hn.
  destruct (scores_as_count_quotients observed predicted Hlen Ho Hp Hn)
    as (Eacc & Eprec & Erec & Espec).
  rewrite score_accuracy, score_precision, score_recall, score_f1,
    score_specificity by assumption.
  unfold f1. rewrite Eacc, Eprec, Erec, Espec.
  destruct (counts_masks _ _ Hlen Ho Hp) as (_ & _ & _ & _ & _ & _ & _ & _ & EN).
  destruct (counts_nonneg observed predicted) as (HTP & HFP & HTN & HFN).
  pose proof (nonempty_length _ Hne) as Hpos.
  repeat apply conj.
  - eexists. split; [reflexivity|]. apply true_divide_in_unit; lia.
  - intros Hd. eexists. split; [reflexivity|]. apply true_divide_in_unit; lia.
  - intros Hd. eexists. split; [reflexivity|]. apply true_divide_in_unit; lia.
  - intros Hd. eexists. split; [reflexivity|]. apply true_divide_in_unit; lia.
  - intros P R [= <-] [= <-] Hfin Hnz. eexists. split; [reflexivity|].
    unfold Spec.precision, Spec.recall in *.
    destruct (true_divide_cases (TP observed predicted)
                (TP observed predicted + FP observed predicted) ltac:(lia) ltac:(lia))
      as [(Ea & _ & E1)|[(Ea & _ & E1)|(Ha & Hn1 & Hb1)]];
    destruct (true_divide_cases (TP observed predicted)
                (TP observed predicted + FN observed predicted) ltac:(lia) ltac:(lia))
      as [(Ea' & _ & E2)|[(Ea' & _ & E2)|(Ha' & Hn2 & Hb2)]];
      try lia; try (rewrite E1, E2 in Hfin, Hnz; discriminate).
    destruct (f1_unit_interval _ _ Hn1 Hn2 Hb1 Hb2).
    apply in_unit_interval_intro; assumption.
Qed.

Lemma C5_unit_interval_witness :
  exists v, score "accuracy" [1;1;0;0;1] [1;0;0;1;1] = Some v /\
            in_unit_interval v = true.
Proof.
  apply (C5_unit_interval [1;1;0;0;1] [1;0;0;1;1]);
    [reflexivity|discriminate|solve_binary|solve_binary|reflexivity].
Defined.

(** C6.  Perfect self-agreement: for every non-empty label sequence [s]
    (shorter than 2^53 entries, so that float64 can count them), calling
    [calculate_accuracy s s] returns accuracy exactly 1.0. *)
Theorem C6_accuracy_self (s : list Z) :
  s ≠ [] -> Z.of_nat (length s) < 2 ^ 53 ->
  score "accuracy" s s = Some (Prim2SF 1).
Proof.
  intros Hne Hlen. rewrite score_accuracy by reflexivity. f_equal.
  rewrite np_mean_count by (rewrite length_agreement; auto).
  rewrite count_true_agreement_self, length_agreement by reflexivity.
  apply true_divide_self. split; [apply nonempty_length; assumption|assumption].
Qed.

Lemma C6_accuracy_self_witness :
  score "accuracy" [1;0;1;1] [1;0;1;1] = Some (Prim2SF 1).
Proof. apply C6_accuracy_self; [discriminate|reflexivity]. Defined.

(** C7.  Complete disagreement: for every non-empty 0/1 sequence [s]
    (shorter than 2^53 entries), calling [calculate_accuracy] with
    observed = [s] and predicted = the element-wise complement of [s]
    returns accuracy exactly 0.0. *)
Theorem C7_accuracy_complement (s : list Z) :
  s ≠ [] -> binary s -> Z.of_nat (length s) < 2 ^ 53 ->
  score "accuracy" s (complement s) = Some (Prim2SF 0).
Proof.
  intros Hne _ Hlen.
  rewrite score_accuracy by (rewrite length_complement; reflexivity). f_equal.
  assert (Hl : length (agreement s (complement s)) = length s)
    by (apply length_agreement; rewrite length_complement; reflexivity).
  rewrite np_mean_count by (rewrite Hl; assumption).
  rewrite count_true_agreement_complement, Hl.
  apply true_divide_0_l. split; [apply nonempty_length; assumption|assumption].
Qed.

Lemma C7_accuracy_complement_witness :
  score "accuracy" [1;0;0;1] (complement [1;0;0;1]) = Some (Prim2SF 0).
Proof.
  apply C7_accuracy_complement; [discriminate|solve_binary|reflexivity].
Defined.

(** C8.  On equal-length non-empty inputs whose observed labels are 0/1
    (shorter than 2^53 entries), the float64 sum of the stored
    observed_positive_rate and observed_negative_rate is exactly 1.0: the two
    roundings never add up to a neighbour of 1.0. *)
Theorem C8_observed_rates_sum (observed predicted : list Z) :
  length observed = length predicted -> observed ≠ [] ->
  binary observed -> Z.of_nat (length observed) < 2 ^ 53 ->
  exists pos neg : float64,
    score "observed_positive_rate" observed predicted = Some pos /\
    score "observed_negative_rate" observed predicted = Some neg /\
    (pos + neg)%f64 = Prim2SF 1.
Proof.
  intros Hlen Hne Ho Hn.
  rewrite score_observed_positive_rate, score_observed_negative_rate by assumption.
  do 2 eexists. split; [reflexivity|]. split; [reflexivity|].
  rewrite !np_mean_count by (rewrite length_eq_scalar; assumption).
  rewrite !length_eq_scalar, count_true_eq_scalar_binary by assumption.
  pose proof (count_true_bounds (eq_scalar observed 1)) as Hb.
  rewrite length_eq_scalar in Hb.
  apply rates_sum; [assumption|].
  split; [apply nonempty_length; assumption|assumption].
Qed.

Lemma C8_observed_rates_sum_witness :
  exists pos neg : float64,
    score "observed_positive_rate" [1;1;0;0;1;0;1] [1;0;0;1;1;0;0] = Some pos /\
    score "observed_negative_rate" [1;1;0;0;1;0;1] [1;0;0;1;1;0;0] = Some neg /\
    (pos + neg)%f64 = Prim2SF 1.
Proof.
  apply C8_observed_rates_sum; [reflexivity|discriminate|solve_binary|reflexivity].
Defined.

(** C9.  On equal-length 0/1 inputs (of fewer than 2^63 entries, as every
    NumPy array) the stored positive_predictive_value is
    the very float stored as recall: both are the true-positive count divided
    by the observed-positive count TP + FN.  It is therefore not the share of
    predicted positives that are correct, TP / (TP + FP): the two differ on
    observed = [1,0], predicted = [1,1]. *)
Theorem C9_ppv_is_recall :
  (forall observed predicted : list Z,
      length observed = length predicted ->
      binary observed -> binary predicted ->
      Z.of_nat (length observed) < 2 ^ 63 ->
      score "positive_predictive_value" observed predicted
      = score "recall" observed predicted /\
      score "positive_predictive_value" observed predicted
      = Some (true_divide (TP observed predicted)
                          (TP observed predicted + FN observed predicted))) /\
  score "positive_predictive_value" [1;0] [1;1] = Some (Prim2SF 1) /\
  true_divide (TP [1;0] [1;1]) (TP [1;0] [1;1] + FP [1;0] [1;1]) = Prim2SF 0.5.
Proof.
  split.
  - intros o p Hlen Ho Hp Hn.
    rewrite score_positive_predictive_value, score_recall by assumption.
    split; [reflexivity|].
    destruct (np_sum_counts o p Hlen Ho Hp Hn) as (-> & _ & _ & -> & _). reflexivity.
  - rewrite score_positive_predictive_value by reflexivity.
    split; vm_compute; reflexivity.
Qed.

Lemma C9_ppv_is_recall_witness :
  score "positive_predictive_value" [1;1;0;0;1] [1;0;0;1;1]
  = score "recall" [1;1;0;0;1] [1;0;0;1;1].
Proof.
  apply (proj1 C9_ppv_is_recall [1;1;0;0;1] [1;0;0;1;1]);
    [reflexivity|solve_binary|solve_binary|reflexivity].
Defined.

(** C10.  On equal-length 0/1 inputs (of fewer than 2^63 entries, as every
    NumPy array) the stored negative_predictive_value is
    the true-negative count divided by the observed-positive count TP + FN
    (not by the predicted-negative count); so it can exceed 1: on
    observed = predicted = [1,0,0] it is 2.0. *)
Theorem C10_npv_over_observed_positives :
  (forall observed predicted : list Z,
      length observed = length predicted ->
      binary observed -> binary predicted ->
      Z.of_nat (length observed) < 2 ^ 63 ->
      score "negative_predictive_value" observed predicted
      = Some (true_divide (TN observed predicted)
                          (TP observed predicted + FN observed predicted))) /\
  score "negative_predictive_value" [1;0;0] [1;0;0] = Some (Prim2SF 2) /\
  flt (Prim2SF 1) (Prim2SF 2) = true.
Proof.
  split.
  - intros o p Hlen Ho Hp Hn.
    rewrite score_negative_predictive_value by assumption.
    destruct (np_sum_counts o p Hlen Ho Hp Hn) as (_ & _ & -> & -> & _). reflexivity.
  - rewrite score_negative_predictive_value by reflexivity.
    split; vm_compute; reflexivity.
Qed.

Lemma C10_npv_over_observed_positives_witness :
  score "negative_predictive_value" [1;1;0;0;1] [1;0;0;1;1]
  = Some (true_divide (TN [1;1;0;0;1] [1;0;0;1;1])
            (TP [1;1;0;0;1] [1;0;0;1;1] + FN [1;1;0;0;1] [1;0;0;1;1])).
Proof.
  apply (proj1 C10_npv_over_observed_positives [1;1;0;0;1] [1;0;0;1;1]);
    [reflexivity|solve_binary|solve_binary|reflexivity].
Defined.

(** * Further facts on float64 *)

Lemma SF64mul_comm (x y : float64) : (x * y)%f64 = (y * x)%f64.
Proof.
  unfold SF64mul, SFmul.
  destruct x as [sx|sx| |sx mx ex], y as [sy|sy| |sy my ey];
    rewrite ?(xorb_comm sx sy); try reflexivity.
  rewrite (Pos.mul_comm mx my), (Z.add_comm ex ey). reflexivity.
Qed.

Lemma SF64add_comm (x y : float64) : (x + y)%f64 = (y + x)%f64.
Proof.
  unfold SF64add, SFadd.
  destruct x as [[]|[]| |sx mx ex], y as [[]|[]| |sy my ey]; try reflexivity.
  rewrite (Z.min_comm ex ey), Z.add_comm. reflexivity.
Qed.

(** Rounding to nearest even is monotone in the numerator. *)
Lemma rnd_mono_num (N N' D : Z) : 0 < D -> N <= N' -> rnd N D <= rnd N' D.
Proof.
  intros HD HN.
  pose proof (Z.div_le_mono N N' D HD HN) as Hq.
  destruct (Z.eq_dec (N / D) (N' / D)) as [E|E].
  - unfold rnd. rewrite <- E.
    pose proof (Z.div_mod N D ltac:(lia)). pose proof (Z.div_mod N' D ltac:(lia)).
    assert (N mod D <= N' mod D) by nia.
    destruct (Z.compare_spec (2 * (N mod D)) D), (Z.compare_spec (2 * (N' mod D)) D);
      try lia; destruct (Z.even (N / D)); lia.
  - destruct (rnd_cases N D) as [-> | ->]; [|].
    + pose proof (rnd_ge N' D (N' / D) HD). 
      assert (N' / D * D <= N') by (pose proof (Z.div_mod N' D ltac:(lia)); pose proof (Z.mod_pos_bound N' D HD); nia).
      lia.
    + assert (N' / D * D <= N') by (pose proof (Z.div_mod N' D ltac:(lia)); pose proof (Z.mod_pos_bound N' D HD); nia).
      pose proof (rnd_ge N' D (N' / D) HD). lia.
Qed.

Lemma rnd_mono (N D N' D' : Z) :
  0 < D -> 0 < D' -> N * D' <= N' * D -> rnd N D <= rnd N' D'.
Proof.
  intros HD HD' H.
  rewrite <- (rnd_scale D' N D), <- (rnd_scale D N' D') by lia.
  replace (D * D') with (D' * D) by ring.
  apply rnd_mono_num; nia.
Qed.

(** Rounding is monotone. *)
Lemma RND_mono (v v' : R) (x x' : float64) :
  RND v x -> RND v' x' -> (v <= v')%R -> (F2R x <= F2R x')%R.
Proof.
  intros (N & D & e & HD & HN & He & -> & ->) (N' & D' & e' & HD' & HN' & He' & -> & ->) Hle.
  assert (Hr : 2 ^ 52 <= rnd N D <= 2 ^ 53) by (split; [apply rnd_ge|apply rnd_le]; lia).
  assert (Hr' : 2 ^ 52 <= rnd N' D' <= 2 ^ 53) by (split; [apply rnd_ge|apply rnd_le]; lia).
  destruct (norm_normal _ e Hr He) as [_ ->].
  destruct (norm_normal _ e' Hr' He') as [_ ->].
  pose proof (RND_range N D e HD HN) as [H1 H2].
  pose proof (RND_range N' D' e' HD' HN') as [H1' H2'].
  assert (e + 52 < e' + 53) by (apply bpow_lt_inv; lra).
  destruct (Z.eq_dec e e') as [<-|Hne].
  - pose proof (bpow_pos e).
    assert (rnd N D <= rnd N' D').
    { apply rnd_mono; try lia. apply le_IZR. rewrite !mult_IZR.
      apply IZR_lt in HD, HD'.
      assert (IZR N / IZR D <= IZR N' / IZR D')%R
        by (apply Rmult_le_reg_r with (bpow e); lra).
      apply Rmult_le_compat_r with (r := (IZR D * IZR D')%R) in H3; [|nra].
      field_simplify in H3; lra. }
    apply IZR_le in H3. nra.
  - replace e' with ((e' - e - 1) + 1 + e) by lia. rewrite !bpow_add, bpow_1.
    pose proof (bpow_pos e). pose proof (bpow_pos (e' - e - 1)).
    assert (1 <= bpow (e' - e - 1))%R by (rewrite <- bpow_0; apply bpow_le; lia).
    destruct Hr as [_ Hr]. destruct Hr' as [Hr' _].
    apply IZR_le in Hr, Hr'. change (2 ^ 53) with (2 * 2 ^ 52) in Hr. rewrite mult_IZR in Hr.
    set (a := IZR (rnd N D)) in *. set (a' := IZR (rnd N' D')) in *.
    set (P := IZR (2 ^ 52)) in *. set (B := bpow (e' - e - 1)) in *. set (b := bpow e) in *.
    assert (0 < P)%R by (apply IZR_lt; reflexivity).
    assert (a <= 2 * P * B)%R by nra.
    assert (2 * P * B <= a' * B * 2)%R by nra.
    assert (a * b <= a' * B * 2 * b)%R by (apply Rmult_le_compat_r; lra).
    lra.
Qed.

(** * More on [calculate_accuracy]: shapes, symmetries, extreme predictions *)

Lemma broadcast2_mismatch {A B C} (f : A → B → C) (a : list A) (b : list B) :
  length a ≠ length b -> length a ≠ 1%nat -> length b ≠ 1%nat ->
  broadcast2 f a b = None.
Proof.
  intros Hab Ha Hb. unfold broadcast2.
  destruct (decide (length a = length b)) as [E|_]; [contradiction|].
  destruct a as [|x [|x' a]], b as [|y [|y' b]]; simpl in *;
    try reflexivity; try contradiction.
Qed.

Lemma length_mask_eq_scalar (m : list bool) (k : Z) :
  length (mask_eq_scalar m k) = length m.
Proof. unfold mask_eq_scalar. apply length_fmap. Qed.

Lemma zip_with_replicate_l {A B C} (f : A → B → C) (x : A) (b : list B) :
  zip_with f (replicate (length b) x) b = f x <$> b.
Proof. induction b as [|y b IH]; simpl; [reflexivity|]. rewrite IH. reflexivity. Qed.

Lemma broadcast2_singleton_l {A B C} (f : A → B → C) (x : A) (b : list B) :
  broadcast2 f [x] b = broadcast2 f (replicate (length b) x) b.
Proof.
  rewrite (broadcast2_same_length f (replicate (length b) x) b)
    by (rewrite length_replicate; reflexivity).
  rewrite zip_with_replicate_l. unfold broadcast2.
  destruct (decide (length [x] = length b)) as [E|E]; [|reflexivity].
  destruct b as [|y [|y' b]]; try discriminate. reflexivity.
Qed.

Lemma eq_scalar_replicate (n : nat) (x k : Z) :
  eq_scalar (replicate n x) k = replicate n (x =? k).
Proof. exact (fmap_replicate (λ y, y =? k) n x). Qed.

Lemma mask_eq_scalar_replicate (n : nat) (b : bool) (k : Z) :
  mask_eq_scalar (replicate n b) k = replicate n (Z.b2z b =? k).
Proof. exact (fmap_replicate (λ c, Z.b2z c =? k) n b). Qed.

Lemma count_true_replicate (n : nat) (b : bool) :
  count_true (replicate n b) = Z.of_nat n * Z.b2z b.
Proof.
  induction n as [|n IH]; [reflexivity|].
  change (replicate (S n) b) with (b :: replicate n b).
  rewrite count_true_cons, IH. lia.
Qed.

Lemma np_mean_replicate (n : nat) (b : bool) :
  0 < Z.of_nat n < 2 ^ 53 -> np_mean (replicate n b) = of_int (Z.b2z b).
Proof.
  intros Hn. rewrite np_mean_count by (rewrite length_replicate; lia).
  rewrite count_true_replicate, length_replicate.
  destruct b; simpl Z.b2z.
  - rewrite Z.mul_1_r. apply true_divide_self. assumption.
  - rewrite Z.mul_0_r. rewrite true_divide_0_l by assumption.
    symmetry. apply of_int_0.
Qed.

Lemma np_mean_singleton (b : bool) : np_mean [b] = of_int (Z.b2z b).
Proof. exact (np_mean_replicate 1 b ltac:(split; reflexivity)). Qed.

Lemma zip_with_comm {A B} (f : A → A → B) (a b : list A) :
  (forall x y, f x y = f y x) -> zip_with f a b = zip_with f b a.
Proof.
  intros Hf. revert b. induction a as [|x a IH]; intros [|y b]; simpl; try reflexivity.
  rewrite Hf, IH. reflexivity.
Qed.

Lemma agreement_comm (a b : list Z) : agreement a b = agreement b a.
Proof. apply zip_with_comm. apply Z.eqb_sym. Qed.

Lemma true_positives_comm (a b : list Z) : true_positives a b = true_positives b a.
Proof. apply zip_with_comm. apply andb_comm. Qed.

(** The predicted positives split into true and false positives, whatever
    the labels are. *)
Lemma count_true_predicted_split (observed predicted : list Z) :
  length observed = length predicted ->
  count_true (true_positives observed predicted)
  + count_true (false_positives observed predicted)
  = count_true (eq_scalar predicted 1).
Proof.
  revert predicted. induction observed as [|x o IH]; intros [|y p] Hlen;
    try discriminate; [reflexivity|].
  injection Hlen as Hlen. specialize (IH p Hlen).
  unfold true_positives, false_positives, mask_eq_scalar, eq_scalar in *.
  rewrite !fmap_cons. cbn [zip_with]. rewrite !count_true_cons. rewrite <- IH.
  destruct (y =? 1), (x =? 1); simpl; lia.
Qed.

Lemma precision_denominator (observed predicted : list Z) :
  length observed = length predicted ->
  Z.of_nat (length observed) < 2 ^ 63 ->
  int64_add (np_sum (true_positives observed predicted))
            (np_sum (false_positives observed predicted))
  = np_sum (eq_scalar predicted 1).
Proof.
  intros Hlen Hn.
  destruct (length_masks _ _ Hlen) as (L1 & L2 & _).
  rewrite !np_sum_count
    by (rewrite ?L1, ?L2, ?length_eq_scalar, <- ?Hlen; assumption).
  pose proof (count_true_predicted_split _ _ Hlen) as Hs.
  pose proof (count_true_bounds (eq_scalar predicted 1)) as Hb.
  rewrite length_eq_scalar, <- Hlen in Hb.
  pose proof (count_true_bounds (true_positives observed predicted)).
  pose proof (count_true_bounds (false_positives observed predicted)).
  unfold int64_add. rewrite wrap64_small; lia.
Qed.

Lemma precision_swap (a b : list Z) :
  length a = length b -> Z.of_nat (length a) < 2 ^ 63 ->
  precision a b = recall b a.
Proof.
  intros Hlen Hn. unfold precision, recall.
  rewrite precision_denominator by assumption.
  rewrite (true_positives_comm a b). reflexivity.
Qed.

Lemma complement_eq_scalar_1 (a : list Z) :
  eq_scalar (complement a) 1 = eq_scalar a 0.
Proof.
  unfold eq_scalar, complement. rewrite <- list_fmap_compose.
  apply list_fmap_ext. intros _ x _. simpl.
  destruct (Z.eqb_spec (1 - x) 1), (Z.eqb_spec x 0); lia.
Qed.

Lemma complement_eq_scalar_0 (a : list Z) :
  eq_scalar (complement a) 0 = eq_scalar a 1.
Proof.
  unfold eq_scalar, complement. rewrite <- list_fmap_compose.
  apply list_fmap_ext. intros _ x _. simpl.
  destruct (Z.eqb_spec (1 - x) 0), (Z.eqb_spec x 1); lia.
Qed.

Lemma complement_true_positives (o p : list Z) :
  true_positives (complement o) (complement p) = true_negatives o p.
Proof.
  unfold true_positives, true_negatives.
  rewrite !complement_eq_scalar_1. reflexivity.
Qed.

Lemma complement_true_negatives (o p : list Z) :
  true_negatives (complement o) (complement p) = true_positives o p.
Proof.
  unfold true_positives, true_negatives.
  rewrite !complement_eq_scalar_0. reflexivity.
Qed.

Lemma complement_agreement (o p : list Z) :
  agreement (complement o) (complement p) = agreement o p.
Proof.
  unfold agreement, complement. revert o.
  induction p as [|y p IH]; intros [|x o]; simpl; try reflexivity.
  rewrite IH. f_equal.
  destruct (Z.eqb_spec (1 - y) (1 - x)), (Z.eqb_spec y x); lia.
Qed.

(** X1.  Shapes that do not broadcast: when observed and predicted differ in
    length and neither holds exactly one entry, the first element-wise [&]
    raises, and no dictionary is returned. *)
Theorem shape_mismatch_raises (observed predicted : list Z) :
  length observed ≠ length predicted ->
  length observed ≠ 1%nat -> length predicted ≠ 1%nat ->
  calculate_accuracy observed predicted = None.
Proof.
  intros Hne Ho Hp. unfold calculate_accuracy, mask_and.
  rewrite (broadcast2_mismatch andb (mask_eq_scalar (eq_scalar predicted 1) 1)
             (mask_eq_scalar (eq_scalar observed 1) 1));
    [reflexivity| | |];
    rewrite ?length_mask_eq_scalar, ?length_eq_scalar; congruence.
Qed.

Lemma shape_mismatch_raises_witness :
  calculate_accuracy [1;0;1] [1;0] = None.
Proof.
  apply shape_mismatch_raises; simpl; intros H; discriminate H.
Defined.

(** X2.  A single predicted label is broadcast: against a non-empty observed
    array (shorter than 2^53 entries) the one-entry prediction [[x]] gives
    the very dictionary that [x] repeated once per observation gives. *)
Theorem single_prediction_broadcasts (observed : list Z) (x : Z) :
  observed ≠ [] -> Z.of_nat (length observed) < 2 ^ 53 ->
  calculate_accuracy observed [x]
  = calculate_accuracy observed (replicate (length observed) x).
Proof.
  intros Hne Hn. apply nonempty_length in Hne.
  assert (Hm : forall k, np_mean (eq_scalar [x] k)
                         = np_mean (eq_scalar (replicate (length observed) x) k)).
  { intros k. rewrite eq_scalar_replicate, np_mean_replicate by lia.
    apply np_mean_singleton. }
  assert (Hb : forall k (m : list bool), length m = length observed ->
             mask_and (mask_eq_scalar (eq_scalar [x] k) 1) m
             = mask_and (mask_eq_scalar
                           (eq_scalar (replicate (length observed) x) k) 1) m).
  { intros k m Hl. unfold mask_and.
    rewrite eq_scalar_replicate, mask_eq_scalar_replicate, <- Hl.
    apply broadcast2_singleton_l. }
  assert (He : array_eq [x] observed
               = array_eq (replicate (length observed) x) observed)
    by apply broadcast2_singleton_l.
  unfold calculate_accuracy.
  rewrite !Hb by (rewrite length_mask_eq_scalar, length_eq_scalar; reflexivity).
  rewrite He, !Hm. reflexivity.
Qed.

Lemma single_prediction_broadcasts_witness :
  calculate_accuracy [1;0;1] [1] = calculate_accuracy [1;0;1] (replicate (length [1;0;1]) 1).
Proof.
  apply single_prediction_broadcasts; [discriminate|reflexivity].
Defined.

(** X3.  Exchanging the two arguments (equal lengths, below 2^63 entries,
    any labels) leaves accuracy and F1 unchanged and exchanges precision
    with recall. *)
Theorem swap_arguments (a b : list Z) :
  length a = length b -> Z.of_nat (length a) < 2 ^ 63 ->
  score "accuracy" b a = score "accuracy" a b /\
  score "precision" b a = score "recall" a b /\
  score "recall" b a = score "precision" a b /\
  score "f1" b a = score "f1" a b.
Proof.
  intros Hlen Hn.
  assert (Hlen' : length b = length a) by congruence.
  assert (Hn' : Z.of_nat (length b) < 2 ^ 63) by (rewrite Hlen'; assumption).
  rewrite !score_accuracy, !score_precision, !score_recall, !score_f1 by assumption.
  unfold f1.
  rewrite (precision_swap a b), (precision_swap b a) by assumption.
  rewrite (agreement_comm b a).
  rewrite (SF64mul_comm (recall a b)), (SF64add_comm (recall a b)).
  repeat apply conj; reflexivity.
Qed.

Lemma swap_arguments_witness :
  score "precision" [1;0;0;1;1] [1;1;0;0;1] = score "recall" [1;1;0;0;1] [1;0;0;1;1].
Proof.
  apply (swap_arguments [1;1;0;0;1] [1;0;0;1;1]); reflexivity.
Defined.

(** X4.  Exchanging the roles of the two classes (every label [x] replaced
    by [1 - x] in both arrays) leaves accuracy unchanged and exchanges recall
    with specificity, the observed positive rate with the observed negative
    rate, the predicted positive rate with the predicted negative rate, and
    the false positive rate with the false negative rate. *)
Theorem flip_labels (observed predicted : list Z) :
  length observed = length predicted ->
  let o' := complement observed in
  let p' := complement predicted in
  score "accuracy" o' p' = score "accuracy" observed predicted /\
  score "recall" o' p' = score "specificity" observed predicted /\
  score "specificity" o' p' = score "recall" observed predicted /\
  score "observed_positive_rate" o' p'
  = score "observed_negative_rate" observed predicted /\
  score "predicted_positive_rate" o' p'
  = score "predicted_negative_rate" observed predicted /\
  score "false_positive_rate" o' p'
  = score "false_negative_rate" observed predicted /\
  score "false_negative_rate" o' p'
  = score "false_positive_rate" observed predicted.
Proof.
  intros Hlen o' p'.
  assert (Hlen' : length o' = length p')
    by (unfold o', p'; rewrite !length_complement; assumption).
  rewrite !score_accuracy, !score_recall, !score_specificity,
    !score_observed_positive_rate, !score_observed_negative_rate,
    !score_predicted_positive_rate, !score_predicted_negative_rate,
    !score_false_positive_rate, !score_false_negative_rate by assumption.
  unfold recall, specificity, o', p'.
  rewrite complement_agreement, complement_true_positives,
    complement_true_negatives, !complement_eq_scalar_1, !complement_eq_scalar_0.
  repeat apply conj; reflexivity.
Qed.

Lemma flip_labels_witness :
  score "recall" (complement [1;1;0;0;1]) (complement [1;0;0;1;1])
  = score "specificity" [1;1;0;0;1] [1;0;0;1;1].
Proof.
  apply (flip_labels [1;1;0;0;1] [1;0;0;1;1]); reflexivity.
Defined.

(** ** Order and subtraction on float64 *)

Lemma fle_trans (x y z : float64) :
  fle x y = true -> fle y z = true -> fle x z = true.
Proof.
  unfold fle, SFleb, SFcompare.
  destruct x as [[]|[]| |[] m1 e1], y as [[]|[]| |[] m2 e2], z as [[]|[]| |[] m3 e3];
    try discriminate; try reflexivity;
    rewrite ?Pos.compare_cont_spec; simpl Pos.switch_Eq;
    destruct (Z.compare_spec e1 e2), (Z.compare_spec e2 e3), (Z.compare_spec e1 e3);
    try lia; try discriminate; try reflexivity;
    destruct (Pos.compare_spec m1 m2), (Pos.compare_spec m2 m3), (Pos.compare_spec m1 m3);
    try lia; try discriminate; try reflexivity.
Qed.

(** The difference of two positive normal floats, the larger first, is the
    rounding of the exact difference. *)
Theorem sub_RND (x y : spec_float) :
  normal x -> normal y -> (F2R y < F2R x)%R ->
  -1074 <= Z.min (expo x) (expo y) - 52 -> expo x <= 970 ->
  RND (F2R x - F2R y) (SF64sub x y).
Proof.
  destruct x as [| | |[] m1 e1]; simpl; try tauto.
  destruct y as [| | |[] m2 e2]; simpl; try tauto.
  intros [Hm1 He1] [Hm2 He2] Hlt Hlo Hhi.
  unfold SF64sub, SFsub. cbn [cond_Zopp].
  set (ez := Z.min e1 e2) in *.
  pose proof (shl_align_spec m1 e1 ez) as H1.
  pose proof (shl_align_spec m2 e2 ez) as H2.
  destruct (shl_align m1 e1 ez) as [a ea], (shl_align m2 e2 ez) as [b eb].
  destruct H1 as [Hea Ha], H2 as [Heb Hb]. cbn [fst].
  rewrite Z.min_r in Hea by (unfold ez; lia). rewrite Z.min_r in Heb by (unfold ez; lia).
  subst ea eb.
  pose proof (pow2_pos (e1 - ez) ltac:(unfold ez; lia)) as Hp1.
  pose proof (pow2_pos (e2 - ez) ltac:(unfold ez; lia)) as Hp2.
  assert (Hx : (IZR (Z.pos m1) * bpow e1 = IZR (Z.pos a) * bpow ez)%R).
  { rewrite Ha, mult_IZR, <- bpow_IZR by (unfold ez; lia).
    replace e1 with ((e1 - ez) + ez) at 1 by lia. rewrite bpow_add. ring. }
  assert (Hy : (IZR (Z.pos m2) * bpow e2 = IZR (Z.pos b) * bpow ez)%R).
  { rewrite Hb, mult_IZR, <- bpow_IZR by (unfold ez; lia).
    replace e2 with ((e2 - ez) + ez) at 1 by lia. rewrite bpow_add. ring. }
  rewrite !Rmult_1_l, Hx, Hy in *.
  assert (Hab : Z.pos b < Z.pos a).
  { apply lt_IZR. pose proof (bpow_pos ez). nra. }
  destruct (Z.pos a - Z.pos b) as [|p|p] eqn:Ep; try lia.
  unfold binary_normalize.
  pose proof (digits2_pos_bounds p) as [Hl Hu].
  set (d := Z.pos (digits2_pos p)) in *.
  assert (Hd0 : 1 <= d) by (unfold d; lia).
  assert (Hdu : d <= 53 + (e1 - ez)).
  { assert (d - 1 < 53 + (e1 - ez)); [|lia].
    apply pow2_lt_inv; [unfold ez; lia|].
    eapply Z.le_lt_trans; [exact Hl|].
    rewrite pow2_split by (unfold ez; lia). nia. }
  assert (Hv : (IZR (Z.pos a) * bpow ez - IZR (Z.pos b) * bpow ez
                = IZR (Z.pos p) * bpow ez)%R).
  { rewrite <- Ep, minus_IZR. ring. }
  rewrite Hv.
  destruct (Z_le_gt_dec d 53) as [Hd|Hd].
  - rewrite (binary_round_small _ _ _ d) by (try reflexivity; unfold ez in *; lia).
    pose proof (pow2_pos (53 - d) ltac:(lia)) as Hp.
    assert (E52 : 2 ^ 52 = 2 ^ (d - 1) * 2 ^ (53 - d))
      by (rewrite <- pow2_split by lia; f_equal; lia).
    assert (E53 : 2 ^ 53 = 2 ^ d * 2 ^ (53 - d))
      by (rewrite <- pow2_split by lia; f_equal; lia).
    exists (Z.pos p * 2 ^ (53 - d)), 1, (ez + d - 53).
    split; [lia|]. split; [rewrite E52, E53; nia|].
    split; [unfold ez in *; lia|]. split.
    + rewrite mult_IZR, <- bpow_IZR by lia.
      replace ez with ((ez + d - 53) + (53 - d)) at 1 by lia.
      rewrite bpow_add. field.
    + rewrite rnd_exact. unfold norm.
      assert (N1 : (Z.pos p * 2 ^ (53 - d) =? 2 ^ 53) = false)
        by (apply Z.eqb_neq; rewrite E53; nia).
      rewrite N1.
      assert (N2 : (ez + d - 53 <=? 971) = true)
        by (apply Z.leb_le; unfold ez in *; lia).
      rewrite N2. reflexivity.
  - rewrite (binary_round_large _ _ _ d) by (try reflexivity; unfold ez in *; lia).
    exists (Z.pos p), (2 ^ (d - 53)), (ez + d - 53).
    pose proof (pow2_pos (d - 53) ltac:(lia)).
    assert (E1 : 2 ^ 52 * 2 ^ (d - 53) = 2 ^ (d - 1))
      by (rewrite <- pow2_split by lia; f_equal; lia).
    assert (E2 : 2 ^ 53 * 2 ^ (d - 53) = 2 ^ d)
      by (rewrite <- pow2_split by lia; f_equal; lia).
    split; [lia|]. split; [lia|]. split; [unfold ez in *; lia|].
    split; [|reflexivity].
    rewrite <- bpow_IZR by lia.
    replace (ez + d - 53) with (ez + (d - 53)) by lia. rewrite bpow_add.
    pose proof (bpow_pos (d - 53)). field. lra.
Qed.

Lemma unit_float_nonneg (x : float64) : unit_float x -> (0 <= F2R x <= 1)%R.
Proof.
  intros [->|[_ H]]; [simpl; lra|]. pose proof (bpow_pos (-53)). lra.
Qed.

Lemma fle_unit_float (x y : float64) :
  unit_float x -> unit_float y -> (F2R x <= F2R y)%R -> fle x y = true.
Proof.
  intros [->|[Hx Bx]] [->|[Hy By]] Hle.
  - reflexivity.
  - rewrite <- of_int_0. apply fle_zero_normal. assumption.
  - exfalso. simpl in Hle. pose proof (bpow_pos (-53)). lra.
  - apply fle_normal; assumption.
Qed.

Lemma unit_float_in_unit_interval (x : float64) :
  unit_float x -> in_unit_interval x = true.
Proof.
  intros Hx. destruct of_int_1 as (N1 & F1 & _).
  assert (U1 : unit_float (of_int 1)).
  { right. split; [assumption|]. rewrite F1. pose proof (bpow_le (-53) 0 ltac:(lia)).
    rewrite bpow_0 in *. lra. }
  assert (U0 : unit_float (of_int 0)) by (left; apply of_int_0).
  pose proof (unit_float_nonneg _ Hx).
  apply in_unit_interval_intro; apply fle_unit_float; try assumption.
  - rewrite of_int_0. simpl. lra.
  - rewrite F1. lra.
Qed.

Lemma true_divide_unit_float (a b : Z) :
  0 <= a <= b -> 0 < b < 2 ^ 53 -> unit_float (true_divide a b).
Proof.
  intros Ha Hb.
  destruct (true_divide_cases a b Ha ltac:(lia)) as [(_ & ? & _)|[(_ & _ & ->)|(_ & Hn & B)]].
  - lia.
  - left. reflexivity.
  - right. split; [assumption|]. rewrite bpow_0 in B. assumption.
Qed.

Lemma true_divide_F2R (a b : Z) :
  0 <= a <= b -> 0 < b < 2 ^ 53 ->
  (a = 0 /\ true_divide a b = S754_zero false) \/
  (0 < a /\ RND (IZR a / IZR b) (true_divide a b)).
Proof.
  intros Ha Hb. destruct (Z.eq_dec a 0) as [->|Hne].
  - left. split; [reflexivity|]. apply true_divide_0_l. assumption.
  - right. split; [lia|]. apply true_divide_RND; lia.
Qed.

(** Quotients by a common count are ordered as their numerators. *)
Lemma true_divide_mono (a a' b : Z) :
  0 <= a <= a' -> a' <= b -> 0 < b < 2 ^ 53 ->
  (F2R (true_divide a b) <= F2R (true_divide a' b))%R.
Proof.
  intros Ha Ha' Hb.
  destruct (true_divide_F2R a b ltac:(lia) Hb) as [[-> ->]|[Hpa Ra]].
  - apply (unit_float_nonneg (true_divide a' b)).
    apply true_divide_unit_float; lia.
  - apply (RND_mono _ _ _ _ Ra (true_divide_RND a' b ltac:(lia) ltac:(lia))).
    assert (0 < IZR b)%R by (apply IZR_lt; lia).
    assert (IZR a <= IZR a')%R by (apply IZR_le; lia).
    unfold Rdiv. apply Rmult_le_compat_r; [|assumption].
    apply Rlt_le, Rinv_0_lt_compat. assumption.
Qed.

Lemma true_divide_fle (a a' b : Z) :
  0 <= a <= a' -> a' <= b -> 0 < b < 2 ^ 53 ->
  fle (true_divide a b) (true_divide a' b) = true.
Proof.
  intros Ha Ha' Hb.
  apply fle_unit_float; [apply true_divide_unit_float; lia..|].
  apply true_divide_mono; assumption.
Qed.

Lemma normal_one (x : float64) : normal x -> F2R x = 1%R -> x = of_int 1.
Proof.
  intros Hx Hv. destruct of_int_1 as (N1 & F1 & E1).
  apply RND_exact; [assumption|lia|].
  rewrite F1, <- Hv. apply normal_exact; [assumption|].
  apply (normal_expo x 0 0) in Hx; [lia|]. rewrite bpow_0. lra.
Qed.

(** [1 - x] for a quotient of counts [x]. *)
Lemma one_minus_cases (x : float64) :
  unit_float x ->
  (x = S754_zero false /\ (of_int 1 - x)%f64 = of_int 1) \/
  (x = of_int 1 /\ (of_int 1 - x)%f64 = S754_zero false) \/
  (normal x /\ (F2R x < 1)%R /\ RND (1 - F2R x) (of_int 1 - x)%f64).
Proof.
  intros [->|[Hx [Bl Bu]]].
  - left. split; reflexivity.
  - right. destruct (Rle_lt_or_eq_dec _ _ Bu) as [Hlt|Heq].
    + right. split; [assumption|]. split; [assumption|].
      destruct of_int_1 as (N1 & F1 & E1). rewrite <- F1.
      pose proof (normal_expo x (-53) 0 Hx) as He. rewrite bpow_0 in He.
      specialize (He ltac:(lra)).
      apply sub_RND; try assumption; try lia. rewrite F1. assumption.
    + left. split; [apply normal_one; assumption|].
      rewrite (normal_one x Hx Heq). reflexivity.
Qed.

Lemma one_minus_unit_float (x : float64) :
  unit_float x ->
  (x = of_int 1 /\ (of_int 1 - x)%f64 = S754_zero false) \/
  (normal (of_int 1 - x)%f64 /\ (F2R (of_int 1 - x)%f64 <= 1)%R).
Proof.
  intros Hx. destruct of_int_1 as (N1 & F1 & E1).
  destruct (one_minus_cases x Hx) as [[-> ->]|[[-> E]|(Hn & Hlt & Hr)]].
  - right. split; [assumption|]. rewrite F1. lra.
  - left. split; [reflexivity|assumption].
  - right. split; [exact (RND_normal _ _ Hr)|].
    rewrite <- F1. apply (RND_le _ _ _ Hr N1). rewrite F1.
    pose proof (normal_bounds x Hn) as [Hb _]. pose proof (bpow_pos (expo x + 52)). lra.
Qed.

Lemma one_minus_in_unit_interval (x : float64) :
  unit_float x -> in_unit_interval (of_int 1 - x)%f64 = true.
Proof.
  intros Hx. destruct of_int_1 as (N1 & F1 & E1).
  destruct (one_minus_unit_float x Hx) as [[_ ->]|[Hn Hle]]; [reflexivity|].
  apply in_unit_interval_intro.
  - apply fle_zero_normal. assumption.
  - apply fle_normal; try assumption. rewrite F1. assumption.
Qed.

(** [1 - x] decreases when [x] grows. *)
Lemma one_minus_antitone (x x' : float64) :
  unit_float x -> unit_float x' -> (F2R x <= F2R x')%R ->
  fle (of_int 1 - x')%f64 (of_int 1 - x)%f64 = true.
Proof.
  intros Hx Hx' Hle. destruct of_int_1 as (N1 & F1 & E1).
  pose proof (unit_float_nonneg _ Hx) as Bx.
  destruct (one_minus_unit_float x' Hx') as [[-> ->]|[Hn' Hle']].
  - destruct (one_minus_unit_float x Hx) as [[_ ->]|[Hn _]]; [reflexivity|].
    rewrite <- of_int_0. apply fle_zero_normal. assumption.
  - destruct (one_minus_cases x' Hx') as [[-> E']|[[-> E']|(Hxn' & Hlt' & Hr')]].
    + (* x' = 0, so x = 0 *)
      destruct Hx as [->|[Hxn [Bl _]]]; [reflexivity|].
      exfalso. simpl in Hle. pose proof (bpow_pos (-53)). lra.
    + rewrite E' in Hn'. destruct Hn'.
    + destruct (one_minus_cases x Hx) as [[-> ->]|[[-> E]|(Hxn & Hlt & Hr)]].
      * apply fle_normal; try assumption. rewrite F1. assumption.
      * exfalso. rewrite F1 in Hle. lra.
      * apply fle_normal; try assumption; [exact (RND_normal _ _ Hr)|].
        apply (RND_mono _ _ _ _ Hr' Hr). lra.
Qed.

(** ** The masks and counts behind the rates *)

Ltac solve_elem :=
  repeat first [apply list_elem_of_here | apply list_elem_of_further].

Ltac solve_not_elem :=
  let H := fresh in
  intros H; repeat (apply elem_of_cons in H as [H|H]; [discriminate H|]);
  apply elem_of_nil in H; exact H.

Lemma mask_eq_scalar_1 (m : list bool) : mask_eq_scalar m 1 = m.
Proof.
  unfold mask_eq_scalar. rewrite <- (list_fmap_id m) at 2.
  apply list_fmap_ext. intros _ [] _; reflexivity.
Qed.

Lemma mask_eq_scalar_0 (m : list bool) : mask_eq_scalar m 0 = negb <$> m.
Proof.
  unfold mask_eq_scalar. apply list_fmap_ext. intros _ [] _; reflexivity.
Qed.

Lemma count_true_zip_and_le_r (a b : list bool) :
  count_true (zip_with andb a b) <= count_true b.
Proof.
  revert b. induction a as [|x a IH]; intros [|y b]; simpl zip_with;
    rewrite ?count_true_cons; try (pose proof (count_true_bounds b)); try reflexivity.
  - change (count_true []) with 0. pose proof (count_true_bounds b). destruct y; simpl; lia.
  - specialize (IH b). destruct x, y; simpl; lia.
Qed.

Lemma true_positives_le (o p : list Z) :
  count_true (true_positives o p) <= count_true (eq_scalar o 1).
Proof.
  unfold true_positives. rewrite (mask_eq_scalar_1 (eq_scalar o 1)).
  apply count_true_zip_and_le_r.
Qed.

Lemma true_negatives_le (o p : list Z) :
  count_true (true_negatives o p) <= count_true (eq_scalar o 0).
Proof.
  unfold true_negatives. rewrite (mask_eq_scalar_1 (eq_scalar o 0)).
  apply count_true_zip_and_le_r.
Qed.

Lemma recall_count (o p : list Z) :
  length o = length p -> Z.of_nat (length o) < 2 ^ 63 ->
  recall o p = true_divide (count_true (true_positives o p))
                           (count_true (eq_scalar o 1)).
Proof.
  intros Hlen Hn. unfold recall. destruct (length_masks _ _ Hlen) as (L1 & _).
  rewrite !np_sum_count by (rewrite ?L1, ?length_eq_scalar; assumption).
  reflexivity.
Qed.

Lemma specificity_count (o p : list Z) :
  length o = length p -> Z.of_nat (length o) < 2 ^ 63 ->
  specificity o p = true_divide (count_true (true_negatives o p))
                                (count_true (eq_scalar o 0)).
Proof.
  intros Hlen Hn. unfold specificity. destruct (length_masks _ _ Hlen) as (_ & _ & L3).
  rewrite !np_sum_count by (rewrite ?L3, ?length_eq_scalar; assumption).
  reflexivity.
Qed.

Lemma precision_count (o p : list Z) :
  length o = length p -> Z.of_nat (length o) < 2 ^ 63 ->
  precision o p = true_divide (count_true (true_positives o p))
                              (count_true (eq_scalar p 1)).
Proof.
  intros Hlen Hn. rewrite precision_swap by assumption.
  rewrite recall_count by congruence. rewrite true_positives_comm. reflexivity.
Qed.

Lemma count_eq_scalar_lt (a : list Z) (k : Z) (B : Z) :
  Z.of_nat (length a) < B -> count_true (eq_scalar a k) < B.
Proof.
  intros H. pose proof (count_true_bounds (eq_scalar a k)) as Hb.
  rewrite length_eq_scalar in Hb. lia.
Qed.

Lemma recall_unit_float (o p : list Z) :
  length o = length p -> Z.of_nat (length o) < 2 ^ 53 -> 1 ∈ o ->
  unit_float (recall o p).
Proof.
  intros Hlen Hn H1. rewrite recall_count by (auto using lt_2_53_2_63).
  apply true_divide_unit_float.
  - split; [apply count_true_bounds|apply true_positives_le].
  - split; [apply count_true_eq_scalar_pos; assumption|apply count_eq_scalar_lt; assumption].
Qed.

Lemma specificity_unit_float (o p : list Z) :
  length o = length p -> Z.of_nat (length o) < 2 ^ 53 -> 0 ∈ o ->
  unit_float (specificity o p).
Proof.
  intros Hlen Hn H1. rewrite specificity_count by (auto using lt_2_53_2_63).
  apply true_divide_unit_float.
  - split; [apply count_true_bounds|apply true_negatives_le].
  - split; [apply count_true_eq_scalar_pos; assumption|apply count_eq_scalar_lt; assumption].
Qed.

(** X5.  The two error rates stay in the unit interval: on equal-length
    inputs (shorter than 2^53 entries, any labels), false_positive_rate
    satisfies [0 <= x <= 1] when a 0 is observed and false_negative_rate
    when a 1 is observed; the subtraction from 1 never leaves the interval
    by rounding. *)
Theorem error_rates_unit_interval (observed predicted : list Z) :
  length observed = length predicted ->
  Z.of_nat (length observed) < 2 ^ 53 ->
  (0 ∈ observed ->
   exists v, score "false_positive_rate" observed predicted = Some v /\
             in_unit_interval v = true) /\
  (1 ∈ observed ->
   exists v, score "false_negative_rate" observed predicted = Some v /\
             in_unit_interval v = true).
Proof.
  intros Hlen Hn.
  rewrite score_false_positive_rate, score_false_negative_rate by assumption.
  split; intros Hin; eexists; (split; [reflexivity|]);
    apply one_minus_in_unit_interval.
  - apply specificity_unit_float; assumption.
  - apply recall_unit_float; assumption.
Qed.

Lemma error_rates_unit_interval_witness :
  exists v, score "false_positive_rate" [1;1;0;0;1] [1;0;0;1;1] = Some v /\
            in_unit_interval v = true.
Proof.
  apply (error_rates_unit_interval [1;1;0;0;1] [1;0;0;1;1]);
    [reflexivity|reflexivity|solve_elem].
Defined.

(** ** Extreme predictions *)

Lemma count_true_zip_and_self (m : list bool) :
  count_true (zip_with andb m m) = count_true m.
Proof.
  induction m as [|b m IH]; [reflexivity|].
  cbn [zip_with]. rewrite !count_true_cons, IH. destruct b; reflexivity.
Qed.

Lemma count_true_zip_and_negb (m : list bool) :
  count_true (zip_with andb m (negb <$> m)) = 0.
Proof.
  induction m as [|b m IH]; [reflexivity|].
  rewrite fmap_cons. cbn [zip_with]. rewrite !count_true_cons, IH.
  destruct b; reflexivity.
Qed.

Lemma true_positives_self (s : list Z) :
  count_true (true_positives s s) = count_true (eq_scalar s 1).
Proof.
  unfold true_positives. rewrite mask_eq_scalar_1. apply count_true_zip_and_self.
Qed.

Lemma true_negatives_self (s : list Z) :
  count_true (true_negatives s s) = count_true (eq_scalar s 0).
Proof.
  unfold true_negatives. rewrite mask_eq_scalar_1. apply count_true_zip_and_self.
Qed.

Lemma recall_self (s : list Z) :
  1 ∈ s -> Z.of_nat (length s) < 2 ^ 53 -> recall s s = of_int 1.
Proof.
  intros H1 Hn. rewrite recall_count by (auto using lt_2_53_2_63).
  rewrite true_positives_self. apply true_divide_self.
  split; [apply count_true_eq_scalar_pos; assumption|apply count_eq_scalar_lt; assumption].
Qed.

Lemma specificity_self (s : list Z) :
  0 ∈ s -> Z.of_nat (length s) < 2 ^ 53 -> specificity s s = of_int 1.
Proof.
  intros H1 Hn. rewrite specificity_count by (auto using lt_2_53_2_63).
  rewrite true_negatives_self. apply true_divide_self.
  split; [apply count_true_eq_scalar_pos; assumption|apply count_eq_scalar_lt; assumption].
Qed.

(** X6.  A perfect prediction: when predicted is the observed array itself
    and both labels occur (fewer than 2^53 entries), precision, recall,
    specificity and F1 are exactly 1.0, both error rates are 0.0, the
    negative likelihood is 0.0 and the positive likelihood, a division of
    1.0 by 0.0, is +infinity. *)
Theorem perfect_prediction (s : list Z) :
  1 ∈ s -> 0 ∈ s -> Z.of_nat (length s) < 2 ^ 53 ->
  score "precision" s s = Some (Prim2SF 1) /\
  score "recall" s s = Some (Prim2SF 1) /\
  score "specificity" s s = Some (Prim2SF 1) /\
  score "f1" s s = Some (Prim2SF 1) /\
  score "false_positive_rate" s s = Some (Prim2SF 0) /\
  score "false_negative_rate" s s = Some (Prim2SF 0) /\
  score "negative_likelihood" s s = Some (Prim2SF 0) /\
  score "positive_likelihood" s s = Some (S754_infinity false).
Proof.
  intros H1 H0 Hn.
  rewrite score_precision, score_recall, score_specificity, score_f1,
    score_false_positive_rate, score_false_negative_rate,
    score_negative_likelihood, score_positive_likelihood by reflexivity.
  unfold f1. rewrite precision_swap by (auto using lt_2_53_2_63).
  rewrite recall_self, specificity_self by assumption.
  repeat apply conj; vm_compute; reflexivity.
Qed.

Lemma perfect_prediction_witness :
  score "positive_likelihood" [1;0;0;1;1] [1;0;0;1;1] = Some (S754_infinity false).
Proof.
  apply (perfect_prediction [1;0;0;1;1]); [solve_elem|solve_elem|reflexivity].
Defined.

Lemma true_positives_none_predicted (o p : list Z) :
  1 ∉ p -> Forall (λ b, b = false) (true_positives o p).
Proof.
  intros Hp. unfold true_positives. rewrite !mask_eq_scalar_1.
  pose proof (eq_scalar_all_false p 1 Hp) as Hf. revert Hf.
  generalize (eq_scalar p 1) (eq_scalar o 1). intros a b Hf. revert b.
  induction Hf as [|x a -> Hf IH]; intros [|y b]; simpl; constructor; auto.
Qed.

Lemma false_positives_none_predicted (o p : list Z) :
  1 ∉ p -> Forall (λ b, b = false) (false_positives o p).
Proof.
  intros Hp. unfold false_positives. rewrite !mask_eq_scalar_1.
  pose proof (eq_scalar_all_false p 1 Hp) as Hf. revert Hf.
  generalize (eq_scalar p 1) (mask_eq_scalar (eq_scalar o 1) 0). intros a b Hf. revert b.
  induction Hf as [|x a -> Hf IH]; intros [|y b]; simpl; constructor; auto.
Qed.

Lemma precision_none_predicted (o p : list Z) :
  1 ∉ p -> precision o p = S754_nan.
Proof.
  intros Hp. unfold precision.
  rewrite (np_sum_all_false _ (true_positives_none_predicted o p Hp)).
  rewrite (np_sum_all_false _ (false_positives_none_predicted o p Hp)).
  reflexivity.
Qed.

Lemma f1_nan_precision (r : float64) :
  (of_int 2 * (S754_nan * r / (S754_nan + r)))%f64 = S754_nan.
Proof. reflexivity. Qed.

Lemma recall_none_predicted (o p : list Z) :
  length o = length p -> Z.of_nat (length o) < 2 ^ 53 -> 1 ∈ o -> 1 ∉ p ->
  recall o p = S754_zero false.
Proof.
  intros Hlen Hn H1 Hp. rewrite recall_count by (auto using lt_2_53_2_63).
  rewrite (count_true_all_false _ (true_positives_none_predicted o p Hp)).
  apply true_divide_0_l.
  split; [apply count_true_eq_scalar_pos; assumption|apply count_eq_scalar_lt; assumption].
Qed.

(** X7.  No predicted positive: when no entry of predicted is 1 (equal
    lengths, any labels), precision is 0/0 = NaN and so is F1, whatever was
    observed; recall is 0.0 when a 1 was observed (fewer than 2^53
    entries). *)
Theorem no_predicted_positives (observed predicted : list Z) :
  length observed = length predicted -> 1 ∉ predicted ->
  score "precision" observed predicted = Some S754_nan /\
  score "f1" observed predicted = Some S754_nan /\
  (1 ∈ observed -> Z.of_nat (length observed) < 2 ^ 53 ->
   score "recall" observed predicted = Some (Prim2SF 0)).
Proof.
  intros Hlen Hp.
  rewrite score_precision, score_f1, score_recall by assumption.
  unfold f1. rewrite precision_none_predicted by assumption.
  split; [reflexivity|]. split; [reflexivity|].
  intros H1 Hn. rewrite recall_none_predicted by assumption. reflexivity.
Qed.

Lemma no_predicted_positives_witness :
  score "precision" [1;0;0;1;1] [0;0;0;0;0] = Some S754_nan /\
  score "f1" [1;0;0;1;1] [0;0;0;0;0] = Some S754_nan.
Proof.
  split; apply (no_predicted_positives [1;0;0;1;1] [0;0;0;0;0]);
    first [reflexivity|solve_not_elem].
Defined.

(** X8.  On equal-length non-empty inputs whose predicted labels are 0/1
    (shorter than 2^53 entries), the float64 sum of the stored
    predicted_positive_rate and predicted_negative_rate is exactly 1.0. *)
Theorem predicted_rates_sum (observed predicted : list Z) :
  length observed = length predicted -> predicted ≠ [] ->
  binary predicted -> Z.of_nat (length predicted) < 2 ^ 53 ->
  exists pos neg : float64,
    score "predicted_positive_rate" observed predicted = Some pos /\
    score "predicted_negative_rate" observed predicted = Some neg /\
    (pos + neg)%f64 = Prim2SF 1.
Proof.
  intros Hlen Hne Hp Hn.
  rewrite score_predicted_positive_rate, score_predicted_negative_rate by assumption.
  do 2 eexists. split; [reflexivity|]. split; [reflexivity|].
  rewrite !np_mean_count by (rewrite length_eq_scalar; assumption).
  rewrite !length_eq_scalar, count_true_eq_scalar_binary by assumption.
  pose proof (count_true_bounds (eq_scalar predicted 1)) as Hb.
  rewrite length_eq_scalar in Hb.
  apply rates_sum; [assumption|].
  split; [apply nonempty_length; assumption|assumption].
Qed.

Lemma predicted_rates_sum_witness :
  exists pos neg : float64,
    score "predicted_positive_rate" [1;1;0;0;1;0;1] [1;0;0;1;1;0;0] = Some pos /\
    score "predicted_negative_rate" [1;1;0;0;1;0;1] [1;0;0;1;1;0;0] = Some neg /\
    (pos + neg)%f64 = Prim2SF 1.
Proof.
  apply predicted_rates_sum; [reflexivity|discriminate|solve_binary|reflexivity].
Defined.

(** * The threshold sweep *)

Lemma eq_scalar_b2z_1 (bs : list bool) : eq_scalar (Z.b2z <$> bs) 1 = bs.
Proof.
  unfold eq_scalar. rewrite <- list_fmap_compose. rewrite <- (list_fmap_id bs) at 2.
  apply list_fmap_ext. intros _ [] _; reflexivity.
Qed.

Lemma eq_scalar_b2z_0 (bs : list bool) : eq_scalar (Z.b2z <$> bs) 0 = negb <$> bs.
Proof.
  unfold eq_scalar. rewrite <- list_fmap_compose.
  apply list_fmap_ext. intros _ [] _; reflexivity.
Qed.

Lemma length_ge_scalar (a : list float64) (c : float64) :
  length (ge_scalar a c) = length a.
Proof. unfold ge_scalar. apply length_fmap. Qed.

Lemma length_predicted_survived (probs : list float64) (c : float64) :
  length (predicted_survived probs c) = length probs.
Proof. unfold predicted_survived. rewrite length_fmap. apply length_ge_scalar. Qed.

Lemma true_positives_survived (y : list Z) (probs : list float64) (c : float64) :
  true_positives y (predicted_survived probs c)
  = zip_with andb (ge_scalar probs c) (eq_scalar y 1).
Proof.
  unfold true_positives, predicted_survived.
  rewrite !mask_eq_scalar_1, eq_scalar_b2z_1. reflexivity.
Qed.

Lemma true_negatives_survived (y : list Z) (probs : list float64) (c : float64) :
  true_negatives y (predicted_survived probs c)
  = zip_with andb (negb <$> ge_scalar probs c) (eq_scalar y 0).
Proof.
  unfold true_negatives, predicted_survived.
  rewrite !mask_eq_scalar_1, eq_scalar_b2z_0. reflexivity.
Qed.

(** A higher cutoff predicts survival for fewer passengers. *)
Lemma count_survived_antitone (probs : list float64) (c1 c2 : float64) :
  fle c1 c2 = true ->
  forall m : list bool,
    count_true (zip_with andb (ge_scalar probs c2) m)
    <= count_true (zip_with andb (ge_scalar probs c1) m) /\
    count_true (zip_with andb (negb <$> ge_scalar probs c1) m)
    <= count_true (zip_with andb (negb <$> ge_scalar probs c2) m).
Proof.
  intros Hc. unfold ge_scalar.
  induction probs as [|p probs IH]; intros m; [split; reflexivity|].
  destruct m as [|b m]; [split; reflexivity|].
  rewrite !fmap_cons. cbn [zip_with]. rewrite !count_true_cons.
  destruct (IH m) as [I1 I2].
  assert (Hp : fle c2 p = true -> fle c1 p = true)
    by (intros H; exact (fle_trans _ _ _ Hc H)).
  destruct (fle c2 p), (fle c1 p), b; simpl; try lia;
    discriminate (Hp eq_refl).
Qed.

Lemma recall_threshold_antitone (y : list Z) (probs : list float64) (c1 c2 : float64) :
  length y = length probs -> Z.of_nat (length y) < 2 ^ 53 -> 1 ∈ y ->
  fle c1 c2 = true ->
  fle (recall y (predicted_survived probs c2))
      (recall y (predicted_survived probs c1)) = true.
Proof.
  intros Hlen Hn H1 Hc.
  rewrite !recall_count
    by (rewrite ?length_predicted_survived; auto using lt_2_53_2_63).
  apply true_divide_fle.
  - split; [apply count_true_bounds|].
    rewrite !true_positives_survived. apply count_survived_antitone. assumption.
  - apply true_positives_le.
  - split; [apply count_true_eq_scalar_pos; assumption|apply count_eq_scalar_lt; assumption].
Qed.

Lemma false_positive_rate_threshold_antitone
    (y : list Z) (probs : list float64) (c1 c2 : float64) :
  length y = length probs -> Z.of_nat (length y) < 2 ^ 53 -> 0 ∈ y ->
  fle c1 c2 = true ->
  fle (of_int 1 - specificity y (predicted_survived probs c2))%f64
      (of_int 1 - specificity y (predicted_survived probs c1))%f64 = true.
Proof.
  intros Hlen Hn H0 Hc.
  apply one_minus_antitone;
    try (apply specificity_unit_float;
         rewrite ?length_predicted_survived; assumption).
  rewrite !specificity_count
    by (rewrite ?length_predicted_survived; auto using lt_2_53_2_63).
  apply true_divide_mono.
  - split; [apply count_true_bounds|].
    rewrite !true_negatives_survived. apply count_survived_antitone. assumption.
  - apply true_negatives_le.
  - split; [apply count_true_eq_scalar_pos; assumption|apply count_eq_scalar_lt; assumption].
Qed.

Lemma predicted_positive_rate_threshold_antitone
    (probs : list float64) (c1 c2 : float64) :
  probs ≠ [] -> Z.of_nat (length probs) < 2 ^ 53 -> fle c1 c2 = true ->
  fle (np_mean (eq_scalar (predicted_survived probs c2) 1))
      (np_mean (eq_scalar (predicted_survived probs c1) 1)) = true.
Proof.
  intros Hne Hn Hc. unfold predicted_survived. rewrite !eq_scalar_b2z_1.
  rewrite !np_mean_count by (rewrite length_ge_scalar; assumption).
  rewrite !length_ge_scalar.
  pose proof (count_survived_antitone probs c1 c2 Hc
                (replicate (length probs) true)) as [Hm _].
  assert (Hz : forall a : list bool, length a = length probs ->
             zip_with andb a (replicate (length probs) true) = a).
  { intros a <-. induction a as [|b a IH]; [reflexivity|]. simpl.
    rewrite IH, andb_true_r. reflexivity. }
  rewrite !Hz in Hm by apply length_ge_scalar.
  apply true_divide_fle.
  - split; [apply count_true_bounds|assumption].
  - pose proof (count_true_bounds (ge_scalar probs c1)) as Hb.
    rewrite length_ge_scalar in Hb. lia.
  - split; [apply nonempty_length; assumption|assumption].
Qed.

(** The list of one score over the cutoffs holds that score of each call. *)
Lemma threshold_column_scores (key : string) (y : list Z)
    (probs thresholds : list float64) :
  threshold_column key y probs thresholds
  = mapM (λ c, score key y (predicted_survived probs c)) thresholds.
Proof.
  unfold threshold_column, threshold_loop.
  induction thresholds as [|c l IH]; [reflexivity|].
  cbn [mapM]. rewrite <- IH. unfold score.
  destruct (calculate_accuracy y (predicted_survived probs c)) as [r|];
    [|reflexivity].
  cbn [mbind option_bind mret option_ret].
  destruct (mapM (λ cutoff, calculate_accuracy y (predicted_survived probs cutoff)) l)
    as [rs|]; cbn [mbind option_bind mret option_ret mapM];
    destruct (r !! key); reflexivity.
Qed.

Lemma threshold_column_map (key : string) (y : list Z)
    (probs thresholds : list float64) (f : float64 → float64) :
  (forall c, score key y (predicted_survived probs c) = Some (f c)) ->
  threshold_column key y probs thresholds = Some (f <$> thresholds).
Proof.
  intros Hf. rewrite threshold_column_scores.
  induction thresholds as [|c l IH]; [reflexivity|]. cbn [mapM]. rewrite Hf, IH.
  reflexivity.
Qed.

Lemma descending_fmap (f : float64 → float64) (l : list float64) :
  (forall c1 c2, fle c1 c2 = true -> fle (f c2) (f c1) = true) ->
  ascending l -> descending (f <$> l).
Proof.
  intros Hf Hl i x y Hx Hy.
  rewrite list_lookup_fmap in Hx, Hy.
  destruct (l !! i) as [c1|] eqn:E1; [|discriminate].
  destruct (l !! S i) as [c2|] eqn:E2; [|discriminate].
  injection Hx as <-. injection Hy as <-.
  apply Hf. exact (Hl i c1 c2 E1 E2).
Qed.

(** X9.  The ROC points of a sweep are monotone: for equal-length
    [y_test] and [probability_survival] (fewer than 2^53 entries) with both
    labels observed, and cutoffs in ascending order, no call raises, the
    lists [threshold_true_positive_rate] and [threshold_false_positive_rate]
    hold one float per cutoff, and each is in descending order. *)
Theorem roc_points_descend (y_test : list Z)
    (probability_survival thresholds : list float64) :
  length y_test = length probability_survival ->
  Z.of_nat (length y_test) < 2 ^ 53 ->
  1 ∈ y_test -> 0 ∈ y_test -> ascending thresholds ->
  exists tpr fpr : list float64,
    threshold_column "true_positive_rate" y_test probability_survival thresholds
    = Some tpr /\
    threshold_column "false_positive_rate" y_test probability_survival thresholds
    = Some fpr /\
    length tpr = length thresholds /\ length fpr = length thresholds /\
    descending tpr /\ descending fpr.
Proof.
  intros Hlen Hn H1 H0 Hasc.
  exists ((λ c, recall y_test (predicted_survived probability_survival c))
            <$> thresholds),
         ((λ c, (of_int 1
                 - specificity y_test (predicted_survived probability_survival c))%f64)
            <$> thresholds).
  split; [|split].
  - apply threshold_column_map. intros c.
    apply score_true_positive_rate. rewrite length_predicted_survived. assumption.
  - apply threshold_column_map. intros c.
    apply score_false_positive_rate. rewrite length_predicted_survived. assumption.
  - rewrite !length_fmap. split; [reflexivity|]. split; [reflexivity|].
    split; apply descending_fmap; try assumption; intros c1 c2 Hc.
    + apply recall_threshold_antitone; assumption.
    + apply false_positive_rate_threshold_antitone; assumption.
Qed.

(** X10.  More passengers are predicted to survive at a lower cutoff: for
    non-empty equal-length inputs (fewer than 2^53 entries) and ascending
    cutoffs, the list [threshold_predicted_positive_rate] is in descending
    order, whatever the observed labels are. *)
Theorem predicted_positive_rate_descends (y_test : list Z)
    (probability_survival thresholds : list float64) :
  length y_test = length probability_survival -> y_test ≠ [] ->
  Z.of_nat (length y_test) < 2 ^ 53 -> ascending thresholds ->
  exists ppr : list float64,
    threshold_column "predicted_positive_rate" y_test probability_survival
                     thresholds = Some ppr /\
    length ppr = length thresholds /\ descending ppr.
Proof.
  intros Hlen Hne Hn Hasc.
  exists ((λ c, np_mean (eq_scalar (predicted_survived probability_survival c) 1))
            <$> thresholds).
  split; [|split].
  - apply threshold_column_map. intros c.
    apply score_predicted_positive_rate. rewrite length_predicted_survived.
    assumption.
  - apply length_fmap.
  - apply descending_fmap; [|assumption]. intros c1 c2 Hc.
    apply predicted_positive_rate_threshold_antitone; try assumption.
    + intros ->. destruct y_test; [contradiction|discriminate].
    + rewrite <- Hlen. assumption.
Qed.

Ltac solve_ascending_at i Hx Hy :=
  cbn in Hx;
  first
    [ discriminate Hx
    | destruct i as [|i];
      [ cbn in Hy;
        first [ discriminate Hy
              | injection Hx as <-; injection Hy as <-; vm_compute; reflexivity ]
      | solve_ascending_at i Hx Hy ] ].

Ltac solve_ascending :=
  let i := fresh "i" in
  let Hx := fresh "Hx" in
  let Hy := fresh "Hy" in
  intros i ? ? Hx Hy; solve_ascending_at i Hx Hy.

Lemma roc_points_descend_witness :
  exists tpr fpr : list float64,
    threshold_column "true_positive_rate" [0;1;1;0]
      [Prim2SF 0.2; Prim2SF 0.7; Prim2SF 0.9; Prim2SF 0.4]
      [Prim2SF 0; Prim2SF 0.5; Prim2SF 1] = Some tpr /\
    threshold_column "false_positive_rate" [0;1;1;0]
      [Prim2SF 0.2; Prim2SF 0.7; Prim2SF 0.9; Prim2SF 0.4]
      [Prim2SF 0; Prim2SF 0.5; Prim2SF 1] = Some fpr /\
    length tpr = length [Prim2SF 0; Prim2SF 0.5; Prim2SF 1] /\
    length fpr = length [Prim2SF 0; Prim2SF 0.5; Prim2SF 1] /\
    descending tpr /\ descending fpr.
Proof.
  apply roc_points_descend;
    [reflexivity|reflexivity|solve_elem|solve_elem|solve_ascending].
Defined.

Lemma predicted_positive_rate_descends_witness :
  exists ppr : list float64,
    threshold_column "predicted_positive_rate" [0;1;1;0]
      [Prim2SF 0.2; Prim2SF 0.7; Prim2SF 0.9; Prim2SF 0.4]
      [Prim2SF 0; Prim2SF 0.5; Prim2SF 1] = Some ppr /\
    length ppr = length [Prim2SF 0; Prim2SF 0.5; Prim2SF 1] /\
    descending ppr.
Proof.
  apply predicted_positive_rate_descends;
    [reflexivity|discriminate|reflexivity|solve_ascending].
Defined.

(** ** The two ends of a sweep *)

Lemma ge_scalar_all (probs : list float64) (c : float64) (b : bool) :
  Forall (λ p, fle c p = b) probs ->
  ge_scalar probs c = replicate (length probs) b.
Proof.
  unfold ge_scalar. induction 1 as [|p probs Hp _ IH]; [reflexivity|].
  rewrite fmap_cons, IH, Hp. reflexivity.
Qed.

Lemma zip_and_replicate_true (n : nat) (m : list bool) :
  length m = n -> zip_with andb (replicate n true) m = m.
Proof.
  intros <-. rewrite zip_with_replicate_l. rewrite <- (list_fmap_id m) at 2.
  apply list_fmap_ext. intros; reflexivity.
Qed.

Lemma zip_and_replicate_false (n : nat) (m : list bool) :
  length m = n -> count_true (zip_with andb (replicate n false) m) = 0.
Proof.
  intros <-. rewrite zip_with_replicate_l. apply count_true_all_false.
  induction m; constructor; auto.
Qed.

Lemma agreement_all_zero (y : list Z) :
  agreement y (replicate (length y) 0) = eq_scalar y 0.
Proof.
  unfold agreement, eq_scalar. rewrite zip_with_replicate_l.
  apply list_fmap_ext. intros _ x _. apply Z.eqb_sym.
Qed.

Lemma agreement_all_one (y : list Z) :
  agreement y (replicate (length y) 1) = eq_scalar y 1.
Proof.
  unfold agreement, eq_scalar. rewrite zip_with_replicate_l.
  apply list_fmap_ext. intros _ x _. apply Z.eqb_sym.
Qed.

Section Ends.
Variables (y_test : list Z) (probability_survival : list float64).
Variable cutoff : float64.
Hypothesis same_length : length y_test = length probability_survival.
Hypothesis nonempty : y_test ≠ [].
Hypothesis short : Z.of_nat (length y_test) < 2 ^ 53.

Local Abbreviation predicted := (predicted_survived probability_survival cutoff).

Lemma predicted_all (b : bool) :
  Forall (λ p, fle cutoff p = b) probability_survival ->
  predicted = replicate (length y_test) (Z.b2z b).
Proof.
  intros H. unfold predicted_survived. rewrite (ge_scalar_all _ _ b H).
  rewrite fmap_replicate, same_length. reflexivity.
Qed.

Lemma length_predicted : length y_test = length predicted.
Proof. rewrite length_predicted_survived. exact same_length. Qed.

Lemma predicted_positive_rate_all (b : bool) :
  Forall (λ p, fle cutoff p = b) probability_survival ->
  np_mean (eq_scalar predicted 1) = of_int (Z.b2z b).
Proof.
  intros H. unfold predicted_survived. rewrite (ge_scalar_all _ _ b H).
  rewrite eq_scalar_b2z_1, <- same_length.
  apply np_mean_replicate. split; [apply nonempty_length; assumption|assumption].
Qed.

Lemma counts_all_predicted :
  Forall (λ p, fle cutoff p = true) probability_survival ->
  count_true (true_positives y_test predicted) = count_true (eq_scalar y_test 1) /\
  count_true (true_negatives y_test predicted) = 0 /\
  count_true (eq_scalar predicted 1) = Z.of_nat (length y_test).
Proof.
  intros H.
  rewrite true_positives_survived, true_negatives_survived.
  unfold predicted_survived.
  rewrite eq_scalar_b2z_1, (ge_scalar_all _ _ true H), <- same_length.
  rewrite fmap_replicate. simpl negb.
  rewrite zip_and_replicate_true, zip_and_replicate_false
    by apply length_eq_scalar.
  rewrite count_true_replicate. simpl Z.b2z.
  split; [reflexivity|]. split; [reflexivity|lia].
Qed.

Lemma counts_none_predicted :
  Forall (λ p, fle cutoff p = false) probability_survival ->
  count_true (true_positives y_test predicted) = 0 /\
  count_true (true_negatives y_test predicted) = count_true (eq_scalar y_test 0).
Proof.
  intros H.
  rewrite true_positives_survived, true_negatives_survived.
  rewrite (ge_scalar_all _ _ false H), <- same_length.
  rewrite fmap_replicate. simpl negb.
  rewrite zip_and_replicate_true, zip_and_replicate_false
    by apply length_eq_scalar.
  split; reflexivity.
Qed.

End Ends.

(** X11.  The low end of a sweep: at a cutoff that every probability
    reaches (cutoff 0.0 for probabilities that are not negative), on
    non-empty equal-length inputs of fewer than 2^53 entries, every passenger
    is predicted to survive: predicted_positive_rate is 1.0, precision and
    accuracy are the very float stored as observed_positive_rate,
    true_positive_rate is 1.0
    when a 1 is observed and false_positive_rate is 1.0 when a 0 is
    observed: the ROC curve starts at the corner (1, 1). *)
Theorem sweep_low_end (y_test : list Z) (probability_survival : list float64)
    (cutoff : float64) :
  length y_test = length probability_survival -> y_test ≠ [] ->
  Z.of_nat (length y_test) < 2 ^ 53 ->
  Forall (λ p, fle cutoff p = true) probability_survival ->
  let predicted := predicted_survived probability_survival cutoff in
  score "predicted_positive_rate" y_test predicted = Some (Prim2SF 1) /\
  score "precision" y_test predicted
  = score "observed_positive_rate" y_test predicted /\
  score "accuracy" y_test predicted
  = score "observed_positive_rate" y_test predicted /\
  (1 ∈ y_test -> score "true_positive_rate" y_test predicted = Some (Prim2SF 1)) /\
  (0 ∈ y_test -> score "false_positive_rate" y_test predicted = Some (Prim2SF 1)).
Proof.
  intros Hlen Hne Hn Hall predicted.
  pose proof (length_predicted y_test probability_survival cutoff Hlen) as Hl.
  destruct (counts_all_predicted y_test probability_survival cutoff Hlen Hall)
    as (Htp & Htn & Hpp).
  pose proof (predicted_all y_test probability_survival cutoff Hlen true Hall)
    as Hp.
  fold predicted in Hl, Htp, Htn, Hpp, Hp.
  rewrite score_predicted_positive_rate, score_precision, score_accuracy,
    score_observed_positive_rate, score_true_positive_rate,
    score_false_positive_rate by assumption.
  rewrite precision_count, recall_count, specificity_count
    by (auto using lt_2_53_2_63).
  rewrite Htp, Htn, Hpp.
  rewrite Hp at 2. rewrite agreement_all_one.
  unfold predicted.
  rewrite (predicted_positive_rate_all y_test probability_survival cutoff
             Hlen Hne Hn true Hall).
  rewrite np_mean_count, length_eq_scalar by (rewrite length_eq_scalar; assumption).
  split; [reflexivity|]. split; [reflexivity|]. split; [reflexivity|].
  split; intros Hin.
  - rewrite true_divide_self; [reflexivity|].
    split; [apply count_true_eq_scalar_pos; assumption
           |apply count_eq_scalar_lt; assumption].
  - rewrite true_divide_0_l; [reflexivity|].
    split; [apply count_true_eq_scalar_pos; assumption
           |apply count_eq_scalar_lt; assumption].
Qed.

Lemma sweep_low_end_witness :
  score "false_positive_rate" [0;1;1;0]
    (predicted_survived [Prim2SF 0.2; Prim2SF 0.7; Prim2SF 0.9; Prim2SF 0.4]
                        (Prim2SF 0))
  = Some (Prim2SF 1).
Proof.
  apply (sweep_low_end [0;1;1;0]
           [Prim2SF 0.2; Prim2SF 0.7; Prim2SF 0.9; Prim2SF 0.4] (Prim2SF 0));
    [reflexivity|discriminate| reflexivity
    |repeat (constructor; [vm_compute; reflexivity|]); constructor
    |solve_elem].
Defined.

(** X12.  The high end of a sweep: at a cutoff that no probability reaches,
    on non-empty equal-length inputs of fewer than 2^53 entries, nobody is
    predicted to survive: predicted_positive_rate is 0.0, precision and F1
    are NaN (0/0, no exception), accuracy is the very float stored as
    observed_negative_rate, true_positive_rate is 0.0 when a 1 is observed
    and false_positive_rate is 0.0 when a 0 is observed: the ROC curve ends
    at the corner (0, 0). *)
Theorem sweep_high_end (y_test : list Z) (probability_survival : list float64)
    (cutoff : float64) :
  length y_test = length probability_survival -> y_test ≠ [] ->
  Z.of_nat (length y_test) < 2 ^ 53 ->
  Forall (λ p, fle cutoff p = false) probability_survival ->
  let predicted := predicted_survived probability_survival cutoff in
  score "predicted_positive_rate" y_test predicted = Some (Prim2SF 0) /\
  score "precision" y_test predicted = Some S754_nan /\
  score "f1" y_test predicted = Some S754_nan /\
  score "accuracy" y_test predicted
  = score "observed_negative_rate" y_test predicted /\
  (1 ∈ y_test -> score "true_positive_rate" y_test predicted = Some (Prim2SF 0)) /\
  (0 ∈ y_test -> score "false_positive_rate" y_test predicted = Some (Prim2SF 0)).
Proof.
  intros Hlen Hne Hn Hall predicted.
  pose proof (length_predicted y_test probability_survival cutoff Hlen) as Hl.
  destruct (counts_none_predicted y_test probability_survival cutoff Hlen Hall)
    as (Htp & Htn).
  pose proof (predicted_all y_test probability_survival cutoff Hlen false Hall)
    as Hp.
  fold predicted in Hl, Htp, Htn, Hp.
  assert (Hno : 1 ∉ predicted).
  { rewrite Hp. intros Hin. apply elem_of_replicate in Hin as [Hin _].
    discriminate Hin. }
  rewrite score_predicted_positive_rate, score_precision, score_f1,
    score_accuracy, score_observed_negative_rate, score_true_positive_rate,
    score_false_positive_rate by assumption.
  unfold f1. rewrite precision_none_predicted by assumption.
  rewrite recall_count, specificity_count by (auto using lt_2_53_2_63).
  rewrite Htp, Htn.
  rewrite Hp at 2. rewrite agreement_all_zero.
  unfold predicted.
  rewrite (predicted_positive_rate_all y_test probability_survival cutoff
             Hlen Hne Hn false Hall).
  split; [reflexivity|]. split; [reflexivity|]. split; [reflexivity|].
  split; [reflexivity|]. split; intros Hin.
  - rewrite true_divide_0_l; [reflexivity|].
    split; [apply count_true_eq_scalar_pos; assumption
           |apply count_eq_scalar_lt; assumption].
  - rewrite true_divide_self; [reflexivity|].
    split; [apply count_true_eq_scalar_pos; assumption
           |apply count_eq_scalar_lt; assumption].
Qed.

Lemma sweep_high_end_witness :
  score "precision" [0;1;1;0]
    (predicted_survived [Prim2SF 0.2; Prim2SF 0.7; Prim2SF 0.9; Prim2SF 0.4]
                        (Prim2SF 1))
  = Some S754_nan.
Proof.
  apply (sweep_high_end [0;1;1;0]
           [Prim2SF 0.2; Prim2SF 0.7; Prim2SF 0.9; Prim2SF 0.4] (Prim2SF 1));
    [reflexivity|discriminate| reflexivity
    |repeat (constructor; [vm_compute; reflexivity|]); constructor].
Defined.

(** * Resampling a class *)

Lemma reduce_majority_class_unfold {A} choice permutation (X : list A) y n :
  reduce_majority_class choice permutation X y n
  = (class ← majority_class y; resample_class choice permutation X y class n).
Proof.
  unfold reduce_majority_class, majority_class, resample_class.
  destruct (np_unique_counts y) as [u c].
  destruct (argmax c) as [i|]; [|reflexivity]. cbn [mbind option_bind].
  destruct (u !! i) as [m|]; reflexivity.
Qed.

Lemma increase_majority_unfold {A} choice permutation (X : list A) y n :
  increase_majority choice permutation X y n
  = (class ← minority_class y; resample_class choice permutation X y class n).
Proof.
  unfold increase_majority, minority_class, resample_class.
  destruct (np_unique_counts y) as [u c].
  destruct (argmin c) as [i|]; [|reflexivity]. cbn [mbind option_bind].
  destruct (u !! i) as [m|]; reflexivity.
Qed.

(** ** [np.unique]: the distinct values, ascending *)

Lemma insert_unique_elem (x v : Z) (l : list Z) :
  v ∈ insert_unique x l <-> v = x \/ v ∈ l.
Proof.
  induction l as [|w l IH]; simpl.
  - rewrite list_elem_of_singleton, elem_of_nil. tauto.
  - destruct (Z.ltb_spec x w); [apply elem_of_cons|].
    destruct (Z.eqb_spec x w) as [->|Hne].
    + rewrite elem_of_cons. tauto.
    + rewrite !elem_of_cons, IH. tauto.
Qed.

Lemma np_unique_elem (y : list Z) (v : Z) : v ∈ np_unique y <-> v ∈ y.
Proof.
  unfold np_unique. induction y as [|x y IH]; simpl; [reflexivity|].
  rewrite insert_unique_elem, elem_of_cons, IH. reflexivity.
Qed.

Lemma insert_unique_sorted (x : Z) (l : list Z) :
  StronglySorted Z.lt l -> StronglySorted Z.lt (insert_unique x l).
Proof.
  induction 1 as [|w l Hs IH Hw]; simpl.
  - repeat constructor.
  - destruct (Z.ltb_spec x w).
    + constructor; [constructor; assumption|].
      constructor; [assumption|]. eapply Forall_impl; [exact Hw|].
      simpl. intros; lia.
    + destruct (Z.eqb_spec x w); [constructor; assumption|].
      constructor; [assumption|].
      apply Forall_forall. intros v Hv. apply insert_unique_elem in Hv as [->|Hv].
      * lia.
      * rewrite Forall_forall in Hw. apply Hw. assumption.
Qed.

Lemma np_unique_sorted (y : list Z) : StronglySorted Z.lt (np_unique y).
Proof.
  unfold np_unique. induction y as [|x y IH]; simpl; [constructor|].
  apply insert_unique_sorted. assumption.
Qed.

Lemma sorted_lookup (l : list Z) :
  StronglySorted Z.lt l ->
  forall (i j : nat) (a b : Z),
    (i < j)%nat -> l !! i = Some a -> l !! j = Some b -> a < b.
Proof.
  induction 1 as [|w l Hs IH Hw]; intros i j a b Hij Ha Hb.
  - discriminate.
  - destruct j as [|j]; [lia|]. simpl in Hb. destruct i as [|i]; simpl in Ha.
    + injection Ha as <-. rewrite Forall_forall in Hw. apply Hw.
      eapply list_elem_of_lookup_2. exact Hb.
    + apply (IH i j); [lia|assumption|assumption].
Qed.

(** ** [argmax] and [argmin]: the first extremum *)

Lemma argmax_from_spec (a : list Z) :
  forall (p : list Z) (bi : nat) (best : Z),
    p !! bi = Some best ->
    (forall j x, p !! j = Some x -> x <= best) ->
    (forall j x, (j < bi)%nat -> p !! j = Some x -> x < best) ->
    exists m,
      (p ++ a) !! argmax_from bi best (length p) a = Some m /\
      (forall j x, (p ++ a) !! j = Some x -> x <= m) /\
      (forall j x, (j < argmax_from bi best (length p) a)%nat ->
                   (p ++ a) !! j = Some x -> x < m).
Proof.
  induction a as [|x a IH]; intros p bi best Hb Hmax Hfirst.
  - rewrite app_nil_r. simpl. exists best. auto.
  - simpl argmax_from.
    replace (p ++ x :: a) with ((p ++ [x]) ++ a) by (rewrite <- app_assoc; reflexivity).
    replace (S (length p)) with (length (p ++ [x]))
      by (rewrite length_app; simpl; lia).
    destruct (Z.ltb_spec best x) as [Hlt|Hge].
    + replace (length p) with (length p + 0)%nat at 1 by lia.
      assert (Hx : (p ++ [x]) !! (length p) = Some x)
        by (rewrite lookup_app_r, Nat.sub_diag by lia; reflexivity).
      replace (length p + 0)%nat with (length p) by lia.
      apply IH.
      * exact Hx.
      * intros j z Hz. apply lookup_app_Some in Hz as [Hz|[Hj Hz]].
        -- specialize (Hmax j z Hz). lia.
        -- destruct (j - length p)%nat; simpl in Hz; [|discriminate].
           injection Hz as <-. lia.
      * intros j z Hj Hz. rewrite lookup_app_l in Hz by assumption.
        specialize (Hmax j z Hz). lia.
    + apply IH.
      * rewrite lookup_app_l; [assumption|]. eapply lookup_lt_Some. exact Hb.
      * intros j z Hz. apply lookup_app_Some in Hz as [Hz|[Hj Hz]].
        -- exact (Hmax j z Hz).
        -- destruct (j - length p)%nat; simpl in Hz; [|discriminate].
           injection Hz as <-. lia.
      * intros j z Hj Hz.
        assert (bi < length p)%nat by (eapply lookup_lt_Some; exact Hb).
        rewrite lookup_app_l in Hz by lia. exact (Hfirst j z Hj Hz).
Qed.

Lemma argmax_spec (a : list Z) :
  a ≠ [] ->
  exists i m,
    argmax a = Some i /\ a !! i = Some m /\
    (forall j x, a !! j = Some x -> x <= m) /\
    (forall j x, (j < i)%nat -> a !! j = Some x -> x < m).
Proof.
  destruct a as [|x a]; [contradiction|]. intros _.
  destruct (argmax_from_spec a [x] 0%nat x eq_refl) as (m & H1 & H2 & H3).
  - intros [|j] z Hz; simpl in Hz; [injection Hz as <-; lia|discriminate].
  - intros j z Hj; lia.
  - exists (argmax_from 0 x 1 a), m. simpl in *. auto.
Qed.

Lemma argmin_from_opp (a : list Z) :
  forall bi best i,
    argmin_from bi best i a = argmax_from bi (- best) i (Z.opp <$> a).
Proof.
  induction a as [|x a IH]; intros bi best i; [reflexivity|].
  rewrite fmap_cons. simpl. rewrite !IH.
  destruct (Z.ltb_spec x best), (Z.ltb_spec (- best) (- x)); try lia; reflexivity.
Qed.

Lemma argmin_opp (a : list Z) : argmin a = argmax (Z.opp <$> a).
Proof.
  destruct a as [|x a]; [reflexivity|]. rewrite fmap_cons. simpl.
  rewrite argmin_from_opp. reflexivity.
Qed.

Lemma argmin_spec (a : list Z) :
  a ≠ [] ->
  exists i m,
    argmin a = Some i /\ a !! i = Some m /\
    (forall j x, a !! j = Some x -> m <= x) /\
    (forall j x, (j < i)%nat -> a !! j = Some x -> m < x).
Proof.
  intros Hne. rewrite argmin_opp.
  destruct (argmax_spec (Z.opp <$> a)) as (i & m & Hi & Hm & H2 & H3).
  - destruct a; [contradiction|discriminate].
  - rewrite list_lookup_fmap in Hm.
    destruct (a !! i) as [m'|] eqn:E; [|discriminate]. injection Hm as <-.
    exists i, m'. split; [assumption|]. split; [exact E|].
    split.
    + intros j x Hx. specialize (H2 j (- x)).
      rewrite list_lookup_fmap, Hx in H2. specialize (H2 eq_refl). lia.
    + intros j x Hj Hx. specialize (H3 j (- x) Hj).
      rewrite list_lookup_fmap, Hx in H3. specialize (H3 eq_refl). lia.
Qed.

(** ** The class picked by its frequency *)

Lemma count_label_pos (y : list Z) (v : Z) : v ∈ y -> 0 < count_label y v.
Proof. apply count_true_eq_scalar_pos. Qed.

Lemma count_label_zero (y : list Z) (v : Z) : v ∉ y -> count_label y v = 0.
Proof.
  intros H. apply count_true_all_false. apply eq_scalar_all_false. assumption.
Qed.

Lemma np_unique_nonempty (y : list Z) : y ≠ [] -> np_unique y ≠ [].
Proof.
  destruct y as [|x y]; [contradiction|]. intros _ E.
  assert (H : x ∈ np_unique (x :: y)) by (apply np_unique_elem; left).
  rewrite E in H. apply elem_of_nil in H. exact H.
Qed.

(** The majority class is the most frequent label; among equally frequent
    labels it is the smallest. *)
Lemma majority_class_rule (y : list Z) :
  y ≠ [] ->
  exists m, majority_class y = Some m /\ m ∈ y /\
    forall v, count_label y v <= count_label y m /\
              (count_label y v = count_label y m -> m <= v).
Proof.
  intros Hne. unfold majority_class, np_unique_counts.
  set (u := np_unique y).
  destruct (argmax_spec ((λ v, count_true (eq_scalar y v)) <$> u))
    as (i & c & Hi & Hc & Hmax & Hfirst).
  { pose proof (np_unique_nonempty y Hne). fold u in H.
    destruct u; [contradiction|discriminate]. }
  rewrite Hi. cbn [mbind option_bind].
  rewrite list_lookup_fmap in Hc.
  destruct (u !! i) as [m|] eqn:Em; [|discriminate]. injection Hc as <-.
  exists m. split; [reflexivity|].
  assert (Hm : m ∈ y).
  { apply np_unique_elem. eapply list_elem_of_lookup_2. exact Em. }
  split; [assumption|]. intros v. fold (count_label y m) in *.
  destruct (decide (v ∈ y)) as [Hv|Hv].
  - apply np_unique_elem in Hv. fold u in Hv.
    apply list_elem_of_lookup_1 in Hv as [j Hj].
    assert (Hcj : ((λ v, count_true (eq_scalar y v)) <$> u) !! j
                  = Some (count_label y v))
      by (rewrite list_lookup_fmap, Hj; reflexivity).
    split; [exact (Hmax j _ Hcj)|].
    intros Heq.
    destruct (Nat.lt_trichotomy j i) as [Hlt|[->|Hgt]].
    + specialize (Hfirst j _ Hlt Hcj). lia.
    + rewrite Em in Hj. injection Hj as ->. lia.
    + pose proof (sorted_lookup u (np_unique_sorted y) i j m v Hgt Em Hj). lia.
  - rewrite (count_label_zero y v Hv).
    pose proof (count_label_pos y m Hm). split; lia.
Qed.

(** The minority class is the least frequent of the labels that occur;
    among equally frequent labels it is the smallest. *)
Lemma minority_class_rule (y : list Z) :
  y ≠ [] ->
  exists m, minority_class y = Some m /\ m ∈ y /\
    forall v, v ∈ y ->
              count_label y m <= count_label y v /\
              (count_label y v = count_label y m -> m <= v).
Proof.
  intros Hne. unfold minority_class, np_unique_counts.
  set (u := np_unique y).
  destruct (argmin_spec ((λ v, count_true (eq_scalar y v)) <$> u))
    as (i & c & Hi & Hc & Hmin & Hfirst).
  { pose proof (np_unique_nonempty y Hne). fold u in H.
    destruct u; [contradiction|discriminate]. }
  rewrite Hi. cbn [mbind option_bind].
  rewrite list_lookup_fmap in Hc.
  destruct (u !! i) as [m|] eqn:Em; [|discriminate]. injection Hc as <-.
  exists m. split; [reflexivity|].
  assert (Hm : m ∈ y).
  { apply np_unique_elem. eapply list_elem_of_lookup_2. exact Em. }
  split; [assumption|]. intros v Hv. fold (count_label y m) in *.
  apply np_unique_elem in Hv. fold u in Hv.
  apply list_elem_of_lookup_1 in Hv as [j Hj].
  assert (Hcj : ((λ v, count_true (eq_scalar y v)) <$> u) !! j
                = Some (count_label y v))
    by (rewrite list_lookup_fmap, Hj; reflexivity).
  split; [exact (Hmin j _ Hcj)|].
  intros Heq.
  destruct (Nat.lt_trichotomy j i) as [Hlt|[->|Hgt]].
  - specialize (Hfirst j _ Hlt Hcj). lia.
  - rewrite Em in Hj. injection Hj as ->. lia.
  - pose proof (sorted_lookup u (np_unique_sorted y) i j m v Hgt Em Hj). lia.
Qed.

Lemma majority_class_empty : majority_class [] = None.
Proof. reflexivity. Qed.

(** ** Indexing with arrays of indices *)

Lemma take_rows_cons {A} (l : list A) (i : nat) (index : list nat) :
  take_rows l (i :: index)
  = (x ← l !! i; r ← take_rows l index; Some (x :: r)).
Proof. reflexivity. Qed.

Lemma take_rows_nil {A} (l : list A) : take_rows l [] = Some [].
Proof. reflexivity. Qed.

Lemma take_rows_fmap {A B} (f : A → B) (l : list A) (index : list nat) :
  forall r, take_rows l index = Some r ->
            take_rows (f <$> l) index = Some (f <$> r).
Proof.
  induction index as [|i index IH]; intros r Hr.
  - rewrite take_rows_nil in Hr. injection Hr as <-. reflexivity.
  - rewrite take_rows_cons in Hr. rewrite take_rows_cons. rewrite list_lookup_fmap.
    destruct (l !! i) as [x|]; [|cbn in Hr; discriminate Hr]. cbn [mbind option_bind] in *.
    destruct (take_rows l index) as [r'|]; [|cbn in Hr; discriminate Hr].
    rewrite (IH r' eq_refl). cbn [mbind option_bind fmap option_fmap option_map] in *.
    injection Hr as <-. reflexivity.
Qed.

Lemma take_rows_length {A} (l : list A) (index : list nat) :
  forall r, take_rows l index = Some r -> length r = length index.
Proof.
  induction index as [|i index IH]; intros r Hr.
  - rewrite take_rows_nil in Hr. injection Hr as <-. reflexivity.
  - rewrite take_rows_cons in Hr.
    destruct (l !! i) as [x|]; [|cbn in Hr; discriminate Hr]. cbn [mbind option_bind] in Hr.
    destruct (take_rows l index) as [r'|]; [|cbn in Hr; discriminate Hr].
    cbn [mbind option_bind] in Hr. injection Hr as <-. simpl.
    rewrite (IH r' eq_refl). reflexivity.
Qed.

Lemma take_rows_seq {A} (l : list A) :
  forall pre : list A,
    take_rows (pre ++ l) (seq (length pre) (length l)) = Some l.
Proof.
  induction l as [|x l IH]; intros pre; [reflexivity|].
  simpl seq. rewrite take_rows_cons.
  rewrite list_lookup_middle by reflexivity. cbn [mbind option_bind].
  specialize (IH (pre ++ [x])).
  rewrite <- app_assoc, length_app in IH. simpl in IH.
  replace (length pre + 1)%nat with (S (length pre)) in IH by lia.
  rewrite IH. reflexivity.
Qed.

Lemma take_rows_perm {A} (l : list A) (index index' : list nat) :
  index ≡ₚ index' ->
  forall r, take_rows l index = Some r ->
            exists r', take_rows l index' = Some r' /\ r ≡ₚ r'.
Proof.
  induction 1 as [|i index index' Hp IH|i j index|a b c Hab IH1 Hbc IH2];
    intros r Hr.
  - exists r. split; [assumption|reflexivity].
  - rewrite take_rows_cons in Hr. rewrite take_rows_cons.
    destruct (l !! i) as [x|]; [|cbn in Hr; discriminate Hr]. cbn [mbind option_bind] in *.
    destruct (take_rows l index) as [r0|]; [|cbn in Hr; discriminate Hr].
    cbn [mbind option_bind] in Hr. injection Hr as <-.
    destruct (IH r0 eq_refl) as (r' & -> & Hr'). cbn [mbind option_bind].
    exists (x :: r'). split; [reflexivity|]. constructor. assumption.
  - rewrite !take_rows_cons in Hr. rewrite !take_rows_cons.
    destruct (l !! j) as [xj|]; [|cbn in Hr; discriminate Hr]. cbn [mbind option_bind] in *.
    destruct (l !! i) as [xi|]; [|cbn in Hr; discriminate Hr]. cbn [mbind option_bind] in *.
    destruct (take_rows l index) as [r0|]; [|cbn in Hr; discriminate Hr].
    cbn [mbind option_bind] in *. injection Hr as <-.
    exists (xi :: xj :: r0). split; [reflexivity|]. constructor.
  - destruct (IH1 r Hr) as (r1 & H1 & P1).
    destruct (IH2 r1 H1) as (r2 & H2 & P2).
    exists r2. split; [assumption|]. etransitivity; eassumption.
Qed.

(** Indexing with a rearrangement of all the indices rearranges the rows. *)
Lemma take_rows_permutation {A} (l : list A) (index : list nat) :
  index ≡ₚ seq 0 (length l) ->
  exists r, take_rows l index = Some r /\ r ≡ₚ l.
Proof.
  intros Hp. symmetry in Hp.
  destruct (take_rows_perm l _ _ Hp l (take_rows_seq l [])) as (r & Hr & P).
  exists r. split; [assumption|]. symmetry. assumption.
Qed.

(** The rows at the indices where the label differs from [c] are the rows
    whose label differs from [c], in their order. *)
Lemma take_rows_where_ne {A} (P : list (A * Z)) (c : Z) :
  forall pre : list (A * Z),
    take_rows (pre ++ P) (where_from (length pre) (ne_scalar (P.*2) c))
    = Some (filter (λ p, p.2 ≠ c) P).
Proof.
  induction P as [|[x v] P IH]; intros pre; [reflexivity|].
  unfold ne_scalar in *. rewrite !fmap_cons. cbn [where_from snd].
  specialize (IH (pre ++ [(x, v)])).
  rewrite <- app_assoc, length_app in IH. simpl in IH.
  replace (length pre + 1)%nat with (S (length pre)) in IH by lia.
  rewrite filter_cons. simpl.
  destruct (Z.eqb_spec v c) as [->|Hne]; simpl negb; cbv iota.
  - rewrite decide_False by (intros H; apply H; reflexivity). exact IH.
  - rewrite decide_True by assumption.
    rewrite take_rows_cons, list_lookup_middle by reflexivity.
    cbn [mbind option_bind]. rewrite IH. reflexivity.
Qed.

Lemma where_from_elem (m : list bool) :
  forall (k i : nat),
    i ∈ where_from k m -> exists j, i = (k + j)%nat /\ m !! j = Some true.
Proof.
  induction m as [|b m IH]; intros k i Hi; simpl in Hi.
  - apply elem_of_nil in Hi. contradiction.
  - destruct b.
    + apply elem_of_cons in Hi as [->|Hi].
      * exists 0%nat. split; [lia|reflexivity].
      * destruct (IH _ _ Hi) as (j & -> & Hj). exists (S j). split; [lia|assumption].
    + destruct (IH _ _ Hi) as (j & -> & Hj). exists (S j). split; [lia|assumption].
Qed.

Lemma where_eq_lookup (y : list Z) (c : Z) (i : nat) :
  i ∈ np_where (eq_scalar y c) -> y !! i = Some c.
Proof.
  intros Hi. apply where_from_elem in Hi as (j & -> & Hj). simpl.
  unfold eq_scalar in Hj. rewrite list_lookup_fmap in Hj.
  destruct (y !! j) as [v|]; [|discriminate]. simpl in Hj.
  injection Hj as Hj. apply Z.eqb_eq in Hj. congruence.
Qed.

Lemma where_from_nonempty (m : list bool) (k : nat) :
  true ∈ m -> where_from k m ≠ [].
Proof.
  revert k. induction m as [|b m IH]; intros k Hin.
  - apply elem_of_nil in Hin. contradiction.
  - simpl. destruct b; [discriminate|].
    apply elem_of_cons in Hin as [Hin|Hin]; [discriminate|]. apply IH. assumption.
Qed.

Lemma where_eq_nonempty (y : list Z) (c : Z) :
  c ∈ y -> np_where (eq_scalar y c) ≠ [].
Proof.
  intros Hc. apply where_from_nonempty. unfold eq_scalar.
  apply list_elem_of_fmap. exists c. split; [|assumption].
  symmetry. apply Z.eqb_refl.
Qed.

(** Rows drawn among the indices of class [c] are rows of class [c]. *)
Lemma take_rows_class {A} (P : list (A * Z)) (c : Z) (index : list nat) :
  Forall (λ i, i ∈ np_where (eq_scalar (P.*2) c)) index ->
  exists cs, take_rows P index = Some cs /\ length cs = length index /\
             Forall (λ p, p ∈ P /\ p.2 = c) cs.
Proof.
  induction 1 as [|i index Hi _ IH].
  - exists []. split; [reflexivity|]. split; [reflexivity|constructor].
  - destruct IH as (cs & Hcs & Hl & Hf).
    apply where_eq_lookup in Hi. rewrite list_lookup_fmap in Hi.
    destruct (P !! i) as [p|] eqn:Ep; [|discriminate]. simpl in Hi.
    injection Hi as Hi.
    exists (p :: cs). rewrite take_rows_cons, Ep. cbn [mbind option_bind].
    rewrite Hcs. cbn [mbind option_bind]. split; [reflexivity|].
    split; [simpl; congruence|]. constructor; [|assumption].
    split; [|assumption]. eapply list_elem_of_lookup_2. exact Ep.
Qed.

(** ** The resampled data *)

Lemma resample_class_rows {A} (choice : list nat → nat → list nat)
    (permutation : nat → list nat) (X : list A) (y : list Z) (c n : Z) :
  rng_ok choice permutation -> length X = length y -> c ∈ y -> 0 <= n ->
  exists rows sampled : list (A * Z),
    resample_class choice permutation X y c n = Some (rows.*1, rows.*2) /\
    length sampled = Z.to_nat n /\
    Forall (λ p, p ∈ zip X y /\ p.2 = c) sampled /\
    rows ≡ₚ sampled ++ filter (λ p, p.2 ≠ c) (zip X y).
Proof.
  intros [Hchoice Hperm] Hlen Hc Hn.
  set (P := zip X y).
  assert (HX : X = P.*1) by (symmetry; apply fst_zip; lia).
  assert (Hy : y = P.*2) by (symmetry; apply snd_zip; lia).
  clearbody P. subst X y.
  unfold resample_class.
  pose proof (where_eq_nonempty _ _ Hc) as Hne.
  assert (C1 : (n <? 0) = false) by (apply Z.ltb_ge; assumption).
  rewrite C1, (bool_decide_eq_false_2 _ Hne). cbn [orb andb].
  destruct (Hchoice (np_where (eq_scalar (P.*2) c)) (Z.to_nat n) Hne)
    as [Hsl Hsf].
  set (sample_index := choice (np_where (eq_scalar (P.*2) c)) (Z.to_nat n)) in *.
  destruct (take_rows_class P c sample_index Hsf) as (cs & Hcs & Hcl & Hcf).
  rewrite (take_rows_fmap fst P _ cs Hcs), (take_rows_fmap snd P _ cs Hcs).
  cbn [mbind option_bind].
  pose proof (take_rows_where_ne P c []) as Hoth. simpl in Hoth.
  fold (np_where (ne_scalar (P.*2) c)) in Hoth.
  rewrite (take_rows_fmap fst P _ _ Hoth), (take_rows_fmap snd P _ _ Hoth).
  cbn [mbind option_bind].
  set (others := filter (λ p, p.2 ≠ c) P) in *.
  rewrite <- !fmap_app, length_fmap.
  destruct (take_rows_permutation (cs ++ others)
              (permutation (length (cs ++ others))) (Hperm _))
    as (rows & Hrows & Prows).
  rewrite (take_rows_fmap fst _ _ rows Hrows), (take_rows_fmap snd _ _ rows Hrows).
  cbn [mbind option_bind].
  exists rows, cs. split; [reflexivity|]. split; [congruence|].
  split; assumption.
Qed.

Lemma count_label_cons (x : Z) (l : list Z) (v : Z) :
  count_label (x :: l) v = Z.b2z (x =? v) + count_label l v.
Proof. reflexivity. Qed.

Lemma count_label_app (a b : list Z) (v : Z) :
  count_label (a ++ b) v = count_label a v + count_label b v.
Proof.
  induction a as [|x a IH]; [reflexivity|].
  rewrite <- app_comm_cons, !count_label_cons, IH. lia.
Qed.

Lemma count_label_perm (a b : list Z) (v : Z) :
  a ≡ₚ b -> count_label a v = count_label b v.
Proof.
  induction 1; rewrite ?count_label_cons; lia.
Qed.

Lemma count_label_class {A} (cs : list (A * Z)) (c v : Z) :
  Forall (λ p, p.2 = c) cs ->
  count_label (cs.*2) v = if decide (v = c) then Z.of_nat (length cs) else 0.
Proof.
  induction 1 as [|[x w] cs Hw _ IH].
  - destruct (decide (v = c)); reflexivity.
  - rewrite fmap_cons, count_label_cons, IH. simpl in *. subst w.
    destruct (decide (v = c)) as [->|Hne].
    + rewrite Z.eqb_refl. simpl Z.b2z. lia.
    + destruct (Z.eqb_spec c v); [congruence|reflexivity].
Qed.

Lemma count_label_others {A} (P : list (A * Z)) (c v : Z) :
  count_label ((filter (λ p, p.2 ≠ c) P).*2) v
  = if decide (v = c) then 0 else count_label (P.*2) v.
Proof.
  induction P as [|[x w] P IH].
  - destruct (decide (v = c)); reflexivity.
  - rewrite filter_cons, fmap_cons, count_label_cons. simpl.
    destruct (decide (w ≠ c)) as [Hw|Hw].
    + rewrite fmap_cons, count_label_cons, IH. simpl.
      destruct (decide (v = c)) as [->|Hne]; [|reflexivity].
      destruct (Z.eqb_spec w c); [contradiction|reflexivity].
    + rewrite IH. apply dec_stable in Hw. subst w.
      destruct (decide (v = c)) as [->|Hne]; [reflexivity|].
      destruct (Z.eqb_spec c v); [congruence|reflexivity].
Qed.

Lemma count_label_length (y : list Z) (c : Z) :
  Z.of_nat (length y)
  = count_label y c + Z.of_nat (length (filter (λ v, v ≠ c) y)).
Proof.
  induction y as [|x y IH]; [reflexivity|].
  rewrite filter_cons, count_label_cons. simpl length.
  destruct (decide (x ≠ c)) as [Hx|Hx].
  - destruct (Z.eqb_spec x c); [contradiction|]. simpl. lia.
  - apply dec_stable in Hx. subst x. rewrite Z.eqb_refl. simpl. lia.
Qed.

Lemma resample_class_counts {A} (choice : list nat → nat → list nat)
    (permutation : nat → list nat) (X : list A) (y : list Z) (c n : Z) :
  rng_ok choice permutation -> length X = length y -> c ∈ y -> 0 <= n ->
  exists (X_new : list A) (y_new : list Z),
    resample_class choice permutation X y c n = Some (X_new, y_new) /\
    length X_new = length y_new /\
    count_label y_new c = n /\
    (forall v, v ≠ c -> count_label y_new v = count_label y v) /\
    Z.of_nat (length y_new) = n + (Z.of_nat (length y) - count_label y c).
Proof.
  intros Hrng Hlen Hc Hn.
  destruct (resample_class_rows choice permutation X y c n Hrng Hlen Hc Hn)
    as (rows & cs & Hres & Hcl & Hcf & Hperm).
  exists (rows.*1), (rows.*2). split; [assumption|].
  split; [rewrite !length_fmap; reflexivity|].
  assert (Hy : (zip X y).*2 = y) by (apply snd_zip; lia).
  assert (Hcs : Forall (λ p : A * Z, p.2 = c) cs)
    by (eapply Forall_impl; [exact Hcf|]; intros p [_ Hp]; exact Hp).
  assert (Hcount : forall v,
             count_label (rows.*2) v
             = (if decide (v = c) then Z.of_nat (length cs) else 0)
               + (if decide (v = c) then 0 else count_label y v)).
  { intros v.
    rewrite (count_label_perm _ _ v (fmap_Permutation snd _ _ Hperm)).
    rewrite fmap_app, count_label_app, (count_label_class cs c v Hcs).
    rewrite count_label_others, Hy. reflexivity. }
  split; [|split].
  - rewrite Hcount, !decide_True by reflexivity. lia.
  - intros v Hv. rewrite Hcount, !decide_False by assumption. lia.
  - rewrite length_fmap, (Permutation_length Hperm), length_app.
    pose proof (count_label_length y c) as Hl.
    assert (Hf : length (filter (λ p : A * Z, p.2 ≠ c) (zip X y))
                 = length (filter (λ v, v ≠ c) y)).
    { rewrite <- Hy at 2. clear. generalize (zip X y). intros P.
      induction P as [|[x w] P IH]; [reflexivity|].
      rewrite fmap_cons, !filter_cons. simpl.
      destruct (decide (w ≠ c)); simpl; rewrite IH; reflexivity. }
    rewrite Hf. lia.
Qed.

Lemma rng_ok_first_reverse : rng_ok choice_first permutation_reverse.
Proof.
  split.
  - intros a size Ha. unfold choice_first. split; [apply length_replicate|].
    destruct a as [|i a]; [contradiction|]. simpl.
    apply Forall_forall. intros j Hj. apply elem_of_replicate in Hj as [-> _].
    left.
  - intros n. unfold permutation_reverse. apply reverse_Permutation.
Qed.

(** X13.  What [reduce_majority_class] returns.  For [X] and [y] of equal
    non-zero length, a sample size [n >= 0] and any outcome of the two random
    draws, the call returns; the class [m] it resamples is the most frequent
    label of [y] (the smallest of them when several are equally frequent);
    and the returned rows with their labels are, up to order, [n] rows drawn
    from the rows of [X] labelled [m] followed by every row with another
    label exactly once: the shuffle keeps each row with its own label, and
    [n] may exceed the number of rows of class [m]. *)
Theorem reduce_majority_class_rows {A} (choice : list nat → nat → list nat)
    (permutation : nat → list nat) (X : list A) (y : list Z)
    (maj_sample_size : Z) :
  rng_ok choice permutation -> length X = length y -> y ≠ [] ->
  0 <= maj_sample_size ->
  exists (m : Z) (rows sampled : list (A * Z)),
    reduce_majority_class choice permutation X y maj_sample_size
    = Some (rows.*1, rows.*2) /\
    m ∈ y /\
    (forall v, count_label y v <= count_label y m /\
               (count_label y v = count_label y m -> m <= v)) /\
    length sampled = Z.to_nat maj_sample_size /\
    Forall (λ p, p ∈ zip X y /\ p.2 = m) sampled /\
    rows ≡ₚ sampled ++ filter (λ p, p.2 ≠ m) (zip X y).
Proof.
  intros Hrng Hlen Hne Hn.
  destruct (majority_class_rule y Hne) as (m & Hm & Hin & Hrule).
  destruct (resample_class_rows choice permutation X y m maj_sample_size
              Hrng Hlen Hin Hn) as (rows & sampled & Hres & Hl & Hf & Hp).
  exists m, rows, sampled.
  rewrite reduce_majority_class_unfold, Hm. cbn [mbind option_bind].
  repeat apply conj; assumption.
Qed.

Lemma reduce_majority_class_rows_witness :
  exists (m : Z) (rows sampled : list (nat * Z)),
    reduce_majority_class choice_first permutation_reverse
      [10; 20; 30; 40; 50]%nat [0; 1; 0; 0; 1] 2
    = Some (rows.*1, rows.*2) /\
    m ∈ [0; 1; 0; 0; 1] /\
    (forall v, count_label [0; 1; 0; 0; 1] v <= count_label [0; 1; 0; 0; 1] m /\
               (count_label [0; 1; 0; 0; 1] v = count_label [0; 1; 0; 0; 1] m ->
                m <= v)) /\
    length sampled = Z.to_nat 2 /\
    Forall (λ p, p ∈ zip [10; 20; 30; 40; 50]%nat [0; 1; 0; 0; 1] /\ p.2 = m)
           sampled /\
    rows ≡ₚ sampled
            ++ filter (λ p, p.2 ≠ m) (zip [10; 20; 30; 40; 50]%nat [0; 1; 0; 0; 1]).
Proof.
  apply reduce_majority_class_rows;
    [exact rng_ok_first_reverse|reflexivity|discriminate|lia].
Defined.

(** X14.  The class balance after [reduce_majority_class].  Under the same
    conditions the two returned arrays have the same length, the most
    frequent label [m] of [y] occurs exactly [n] times in the returned
    labels, every other label occurs as often as in [y], and the number of
    returned rows is [n] plus the number of rows of [y] not labelled [m]. *)
Theorem reduce_majority_class_counts {A} (choice : list nat → nat → list nat)
    (permutation : nat → list nat) (X : list A) (y : list Z)
    (maj_sample_size : Z) :
  rng_ok choice permutation -> length X = length y -> y ≠ [] ->
  0 <= maj_sample_size ->
  exists (m : Z) (X_new : list A) (y_new : list Z),
    reduce_majority_class choice permutation X y maj_sample_size
    = Some (X_new, y_new) /\
    (forall v, count_label y v <= count_label y m) /\
    length X_new = length y_new /\
    count_label y_new m = maj_sample_size /\
    (forall v, v ≠ m -> count_label y_new v = count_label y v) /\
    Z.of_nat (length y_new)
    = maj_sample_size + (Z.of_nat (length y) - count_label y m).
Proof.
  intros Hrng Hlen Hne Hn.
  destruct (majority_class_rule y Hne) as (m & Hm & Hin & Hrule).
  destruct (resample_class_counts choice permutation X y m maj_sample_size
              Hrng Hlen Hin Hn) as (X_new & y_new & Hres & H1 & H2 & H3 & H4).
  exists m, X_new, y_new.
  rewrite reduce_majority_class_unfold, Hm. cbn [mbind option_bind].
  repeat apply conj; try assumption. intros v. apply Hrule.
Qed.

Lemma reduce_majority_class_counts_witness :
  exists (m : Z) (X_new : list nat) (y_new : list Z),
    reduce_majority_class choice_first permutation_reverse
      [10; 20; 30; 40; 50]%nat [0; 1; 0; 0; 1] 2
    = Some (X_new, y_new) /\
    (forall v, count_label [0; 1; 0; 0; 1] v <= count_label [0; 1; 0; 0; 1] m) /\
    length X_new = length y_new /\
    count_label y_new m = 2 /\
    (forall v, v ≠ m -> count_label y_new v = count_label [0; 1; 0; 0; 1] v) /\
    Z.of_nat (length y_new)
    = 2 + (Z.of_nat (length [0; 1; 0; 0; 1]) - count_label [0; 1; 0; 0; 1] m).
Proof.
  apply reduce_majority_class_counts;
    [exact rng_ok_first_reverse|reflexivity|discriminate|lia].
Defined.

(** X15.  What [increase_majority] does: it resamples the least frequent
    class.  For [X] and [y] of equal non-zero length, a sample size [n >= 0]
    and any outcome of the two random draws, the call returns; the class [m]
    it draws from is the least frequent of the labels that occur in [y] (the
    smallest of them when several are equally frequent); [m] occurs exactly
    [n] times in the returned labels and every other label as often as in
    [y]; and the returned rows with their labels are, up to order, [n] rows
    drawn from the rows labelled [m] followed by every other row exactly
    once. *)
Theorem increase_majority_resamples_minority {A}
    (choice : list nat → nat → list nat) (permutation : nat → list nat)
    (X : list A) (y : list Z) (maj_sample_size : Z) :
  rng_ok choice permutation -> length X = length y -> y ≠ [] ->
  0 <= maj_sample_size ->
  exists (m : Z) (rows sampled : list (A * Z)),
    increase_majority choice permutation X y maj_sample_size
    = Some (rows.*1, rows.*2) /\
    m ∈ y /\
    (forall v, v ∈ y ->
               count_label y m <= count_label y v /\
               (count_label y v = count_label y m -> m <= v)) /\
    count_label (rows.*2) m = maj_sample_size /\
    (forall v, v ≠ m -> count_label (rows.*2) v = count_label y v) /\
    length sampled = Z.to_nat maj_sample_size /\
    Forall (λ p, p ∈ zip X y /\ p.2 = m) sampled /\
    rows ≡ₚ sampled ++ filter (λ p, p.2 ≠ m) (zip X y).
Proof.
  intros Hrng Hlen Hne Hn.
  destruct (minority_class_rule y Hne) as (m & Hm & Hin & Hrule).
  destruct (resample_class_rows choice permutation X y m maj_sample_size
              Hrng Hlen Hin Hn) as (rows & sampled & Hres & Hl & Hf & Hp).
  destruct (resample_class_counts choice permutation X y m maj_sample_size
              Hrng Hlen Hin Hn) as (X_new & y_new & Hres' & _ & H2 & H3 & _).
  rewrite Hres in Hres'. injection Hres' as _ <-.
  exists m, rows, sampled.
  rewrite increase_majority_unfold, Hm. cbn [mbind option_bind].
  repeat apply conj; assumption.
Qed.

Lemma increase_majority_resamples_minority_witness :
  exists (m : Z) (rows sampled : list (nat * Z)),
    increase_majority choice_first permutation_reverse
      [10; 20; 30; 40; 50]%nat [0; 1; 0; 0; 1] 4
    = Some (rows.*1, rows.*2) /\
    m ∈ [0; 1; 0; 0; 1] /\
    (forall v, v ∈ [0; 1; 0; 0; 1] ->
               count_label [0; 1; 0; 0; 1] m <= count_label [0; 1; 0; 0; 1] v /\
               (count_label [0; 1; 0; 0; 1] v = count_label [0; 1; 0; 0; 1] m ->
                m <= v)) /\
    count_label (rows.*2) m = 4 /\
    (forall v, v ≠ m -> count_label (rows.*2) v = count_label [0; 1; 0; 0; 1] v) /\
    length sampled = Z.to_nat 4 /\
    Forall (λ p, p ∈ zip [10; 20; 30; 40; 50]%nat [0; 1; 0; 0; 1] /\ p.2 = m)
           sampled /\
    rows ≡ₚ sampled
            ++ filter (λ p, p.2 ≠ m) (zip [10; 20; 30; 40; 50]%nat [0; 1; 0; 0; 1]).
Proof.
  apply increase_majority_resamples_minority;
    [exact rng_ok_first_reverse|reflexivity|discriminate|lia].
Defined.

Lemma resample_class_negative {A} choice permutation (X : list A) y c n :
  n < 0 -> resample_class choice permutation X y c n = None.
Proof.
  intros Hn. unfold resample_class.
  assert (C : (n <? 0) = true) by (apply Z.ltb_lt; assumption).
  rewrite C. reflexivity.
Qed.

(** X16.  When the two functions raise: on an empty [y] (the [argmax] or
    [argmin] of an empty array) and on a negative sample size (refused by
    [np.random.choice]), whatever [X] is, neither function returns. *)
Theorem resampling_raises {A} (choice : list nat → nat → list nat)
    (permutation : nat → list nat) (X : list A) (y : list Z)
    (maj_sample_size : Z) :
  y = [] \/ maj_sample_size < 0 ->
  reduce_majority_class choice permutation X y maj_sample_size = None /\
  increase_majority choice permutation X y maj_sample_size = None.
Proof.
  intros [->|Hn]; [split; reflexivity|].
  rewrite reduce_majority_class_unfold, increase_majority_unfold.
  split.
  - destruct (majority_class y); [|reflexivity]. cbn [mbind option_bind].
    apply resample_class_negative. assumption.
  - destruct (minority_class y); [|reflexivity]. cbn [mbind option_bind].
    apply resample_class_negative. assumption.
Qed.

Lemma resampling_raises_witness :
  reduce_majority_class choice_first permutation_reverse
    [10; 20; 30]%nat [0; 1; 0] (-1) = None /\
  increase_majority choice_first permutation_reverse
    [10; 20; 30]%nat [0; 1; 0] (-1) = None.
Proof. apply resampling_raises. right. lia. Defined.

(** ** Binary labels *)

Lemma binary_elem (y : list Z) (v : Z) : binary y -> v ∈ y -> v = 0 \/ v = 1.
Proof.
  unfold binary. rewrite Forall_forall. intros H Hv. exact (H v Hv).
Qed.

Lemma majority_class_binary (y : list Z) :
  binary y -> 0 ∈ y -> count_label y 1 <= count_label y 0 ->
  majority_class y = Some 0.
Proof.
  intros Hb H0 Hle.
  assert (Hne : y ≠ []) by (intros ->; apply elem_of_nil in H0; exact H0).
  destruct (majority_class_rule y Hne) as (m & Hm & Hin & Hrule).
  destruct (binary_elem y m Hb Hin) as [->| ->]; [assumption|].
  destruct (Hrule 0) as [A0 B0]. specialize (B0 ltac:(lia)). lia.
Qed.

Lemma minority_class_binary (y : list Z) :
  binary y -> 0 ∈ y -> 1 ∈ y ->
  minority_class y
  = Some (if count_label y 1 <? count_label y 0 then 1 else 0).
Proof.
  intros Hb H0 H1.
  assert (Hne : y ≠ []) by (intros ->; apply elem_of_nil in H0; exact H0).
  destruct (minority_class_rule y Hne) as (w & Hw & Hin & Hrule).
  rewrite Hw. f_equal.
  destruct (Hrule 0 H0) as [A0 B0]. destruct (Hrule 1 H1) as [A1 B1].
  destruct (Z.ltb_spec (count_label y 1) (count_label y 0)) as [Hlt|Hge];
    destruct (binary_elem y w Hb Hin) as [->| ->]; try reflexivity.
  - lia.
  - specialize (B0 ltac:(lia)). lia.
Qed.

(** X17.  The two resampling functions on 0/1 labels where both occur.
    [reduce_majority_class] brings label 0 to exactly [n] rows and keeps the
    rows labelled 1 when 0 is at least as frequent as 1;
    [increase_majority] brings label 1 to exactly [n] rows and keeps the rows
    labelled 0 when 1 is strictly less frequent than 0.  On a tie both
    functions resample label 0. *)
Theorem resampling_binary_labels {A} (choice : list nat → nat → list nat)
    (permutation : nat → list nat) (X : list A) (y : list Z)
    (maj_sample_size : Z) :
  rng_ok choice permutation -> length X = length y -> binary y ->
  0 ∈ y -> 1 ∈ y -> 0 <= maj_sample_size ->
  (count_label y 1 <= count_label y 0 ->
   exists (X_new : list A) (y_new : list Z),
     reduce_majority_class choice permutation X y maj_sample_size
     = Some (X_new, y_new) /\
     count_label y_new 0 = maj_sample_size /\
     count_label y_new 1 = count_label y 1) /\
  (count_label y 1 < count_label y 0 ->
   exists (X_new : list A) (y_new : list Z),
     increase_majority choice permutation X y maj_sample_size
     = Some (X_new, y_new) /\
     count_label y_new 1 = maj_sample_size /\
     count_label y_new 0 = count_label y 0) /\
  (count_label y 1 = count_label y 0 ->
   exists (X_new : list A) (y_new : list Z),
     increase_majority choice permutation X y maj_sample_size
     = Some (X_new, y_new) /\
     count_label y_new 0 = maj_sample_size /\
     count_label y_new 1 = count_label y 1).
Proof.
  intros Hrng Hlen Hb H0 H1 Hn.
  destruct (resample_class_counts choice permutation X y 0 maj_sample_size
              Hrng Hlen H0 Hn) as (X0 & y0 & Hres0 & _ & Hc0 & Hk0 & _).
  destruct (resample_class_counts choice permutation X y 1 maj_sample_size
              Hrng Hlen H1 Hn) as (X1 & y1 & Hres1 & _ & Hc1 & Hk1 & _).
  repeat apply conj.
  - intros Hle. exists X0, y0.
    rewrite reduce_majority_class_unfold, majority_class_binary by assumption.
    cbn [mbind option_bind].
    split; [assumption|]. split; [assumption|]. apply Hk0. discriminate.
  - intros Hlt. exists X1, y1.
    rewrite increase_majority_unfold, minority_class_binary by assumption.
    apply Z.ltb_lt in Hlt. rewrite Hlt. cbn [mbind option_bind].
    split; [assumption|]. split; [assumption|]. apply Hk1. discriminate.
  - intros Heq. exists X0, y0.
    rewrite increase_majority_unfold, minority_class_binary by assumption.
    assert (C : (count_label y 1 <? count_label y 0) = false)
      by (apply Z.ltb_ge; lia).
    rewrite C. cbn [mbind option_bind].
    split; [assumption|]. split; [assumption|]. apply Hk0. discriminate.
Qed.

Lemma resampling_binary_labels_witness :
  exists (X_new : list nat) (y_new : list Z),
    increase_majority choice_first permutation_reverse
      [10; 20; 30; 40; 50]%nat [0; 1; 0; 0; 1] 4
    = Some (X_new, y_new) /\
    count_label y_new 1 = 4 /\
    count_label y_new 0 = count_label [0; 1; 0; 0; 1] 0.
Proof.
  apply (resampling_binary_labels choice_first permutation_reverse
           [10; 20; 30; 40; 50]%nat [0; 1; 0; 0; 1] 4);
    [exact rng_ok_first_reverse|reflexivity|solve_binary|solve_elem|solve_elem
    |lia|reflexivity].
Defined.

(** ** Means over the folds *)

Lemma add_nan_l (x : float64) : (S754_nan + x)%f64 = S754_nan.
Proof. reflexivity. Qed.

Lemma add_nan_r (x : float64) : (x + S754_nan)%f64 = S754_nan.
Proof. destruct x; reflexivity. Qed.

Lemma total_nan (t : summation) : S754_nan ∈ terms t -> total t = S754_nan.
Proof.
  induction t as [x|l IHl r IHr]; simpl; intros Hin.
  - apply list_elem_of_singleton in Hin. congruence.
  - apply elem_of_app in Hin as [Hin|Hin].
    + rewrite (IHl Hin). apply add_nan_l.
    + rewrite (IHr Hin). apply add_nan_r.
Qed.

Lemma mean_in_order_nan (t : summation) :
  S754_nan ∈ terms t -> mean_in_order t = S754_nan.
Proof. intros Hin. unfold mean_in_order. rewrite (total_nan t Hin). reflexivity. Qed.

Lemma mapM_exists {A B} (f : A → option B) (P : A → Prop) (l : list A) (b : B) :
  (forall x, P x -> f x = Some b) -> Exists P l ->
  forall k, mapM f l = Some k -> b ∈ k.
Proof.
  intros Hf. induction 1 as [x l Hx|x l _ IH]; intros k Hk; cbn [mapM] in Hk.
  - rewrite (Hf x Hx) in Hk. cbn [mbind option_bind] in Hk.
    destruct (mapM f l) as [k'|]; [|discriminate Hk]. cbn in Hk.
    injection Hk as <-. left.
  - destruct (f x) as [v|]; [|discriminate Hk]. cbn [mbind option_bind] in Hk.
    destruct (mapM f l) as [k'|]; [|discriminate Hk]. cbn in Hk.
    injection Hk as <-. right. apply IH. reflexivity.
Qed.

(** X18.  One fold without a predicted positive makes the reported mean
    NaN.  The replicates' precision (or F1) are averaged with [np.mean]; if
    in some fold no entry of the prediction is 1, the mean over the folds is
    NaN, whatever the other folds give and in whatever order the sum is
    taken. *)
Theorem fold_mean_nan (folds : list (list Z * list Z)) (key : string)
    (t : summation) :
  key = "precision" \/ key = "f1" ->
  Exists (λ fold, length fold.1 = length fold.2 /\ 1 ∉ fold.2) folds ->
  mapM (λ fold, score key fold.1 fold.2) folds = Some (terms t) ->
  mean_in_order t = S754_nan.
Proof.
  intros Hkey Hex Hrow. apply mean_in_order_nan.
  apply (mapM_exists (λ fold : list Z * list Z, score key fold.1 fold.2)
           (λ fold, length fold.1 = length fold.2 /\ 1 ∉ fold.2)
           folds S754_nan); try assumption.
  intros [o p] [Hlen Hno]. simpl in *.
  destruct Hkey as [-> | ->].
  - rewrite score_precision by assumption. f_equal.
    apply precision_none_predicted. assumption.
  - rewrite score_f1 by assumption. f_equal. unfold f1.
    rewrite precision_none_predicted by assumption. reflexivity.
Qed.

Lemma fold_mean_nan_witness :
  mean_in_order (Plus (Term (Prim2SF 1)) (Term S754_nan)) = S754_nan.
Proof.
  apply (fold_mean_nan [([0; 1], [0; 1]); ([1; 0], [0; 0])] "precision"
           (Plus (Term (Prim2SF 1)) (Term S754_nan)));
    [left; reflexivity
    |right; left; split; [reflexivity|solve_not_elem]
    |].
  cbn [mapM fst snd]. rewrite !score_precision by reflexivity.
  vm_compute. reflexivity.
Defined.
